(** * Lexxy prompt: a shallow embedding of the suggestion engine

    The development follows the JavaScript sources of the prompt
    sub-system:

    - [src/editor/prompt/base_source.js], [local_filter_source.js],
      [inline_source.js], [deferred_source.js], [remote_filter_source.js]
      (the candidate sources);
    - [src/elements/prompt.js] (the [<lexxy-prompt>] custom element);
    - [src/nodes/custom_action_text_attachment_node.js] (the node that a
      commit inserts) and [src/nodes/action_text_attachment_node.js] (the
      node of a file attachment).

    Strings are modelled by [string] (8-bit characters), DOM elements by
    records with an object identity, the [WeakMap] of a source by a [gmap]
    keyed by that identity. An [async] method is cut at its [await]
    points: the retrieval of [DeferredPromptSource], the debounced
    retrieval of [RemoteFilterSource], the rendering of
    [#showFilteredOptions()] and [#showPopover()] have a part that runs
    at the call and parts that run when the awaited promise settles,
    fulfilled or rejected. The run of the parts one behind the other,
    for an endpoint that answers before anything else happens, is given
    as well and is named as the method. [String.prototype.toLowerCase]
    and the numbers of [#positionPopover()] are kept abstract. *)

From Stdlib Require Import String Ascii List Arith ZArith Bool Lia.
From stdpp Require Import base option strings gmap sorting.
Import ListNotations.

Local Open Scope string_scope.
Local Open Scope list_scope.
Local Open Scope nat_scope.

#[local] Arguments String.append : simpl nomatch.

(** ** JavaScript strings *)

Module JsString.

(** [s[i]]: the one-character string at index [i], [undefined] ([None])
    out of range. *)
Definition charAt (s : string) (i : nat) : option string :=
  match String.get i s with
  | Some c => Some (String c EmptyString)
  | None => None
  end.

(** [s.slice(0, n)] for [0 <= n]. *)
Fixpoint take (n : nat) (s : string) {struct n} : string :=
  match n, s with
  | 0, _ => EmptyString
  | S _, EmptyString => EmptyString
  | S n', String c s' => String c (take n' s')
  end.

(** [s.slice(n)] for [0 <= n]. *)
Fixpoint drop (n : nat) (s : string) {struct n} : string :=
  match n, s with
  | 0, _ => s
  | S _, EmptyString => EmptyString
  | S n', String _ s' => drop n' s'
  end.

(** [s.startsWith(p)]. *)
Fixpoint startsWith (s p : string) {struct p} : bool :=
  match p, s with
  | EmptyString, _ => true
  | String _ _, EmptyString => false
  | String a p', String b s' => Ascii.eqb a b && startsWith s' p'
  end.

(** [s.includes(t)]. *)
Fixpoint includes (s t : string) : bool :=
  startsWith s t ||
  match s with
  | EmptyString => false
  | String _ s' => includes s' t
  end.

(** [s.lastIndexOf(t)], with [None] for [-1]. *)
Fixpoint lastIndexOf (s t : string) : option nat :=
  match s with
  | EmptyString => if startsWith s t then Some 0 else None
  | String _ s' =>
      match lastIndexOf s' t with
      | Some i => Some (S i)
      | None => if startsWith s t then Some 0 else None
      end
  end.

(** Case folding of one 8-bit character: the letters [A]..[Z] are moved
    to [a]..[z], every other character is kept. *)
Definition lowerChar (c : ascii) : ascii :=
  let n := nat_of_ascii c in
  if (65 <=? n) && (n <=? 90) then ascii_of_nat (n + 32) else c.

(** Case folding of the letters [A]..[Z] of a string. On a string of
    ASCII characters this is [s.toLowerCase()]; the bytes of a character
    outside ASCII are kept as they are, where [s.toLowerCase()] follows
    the case mapping of Unicode. It stands for "case-insensitively" in
    the matching of the filter ([filterMatches]) and is not used for a
    [toLowerCase()] of the code. *)
Fixpoint toLowerCase (s : string) : string :=
  match s with
  | EmptyString => EmptyString
  | String c s' => String (lowerChar c) (toLowerCase s')
  end.

End JsString.

(** ** Candidates and menu entries *)

(** A [<lexxy-prompt-item>] element that keeps the markup contract of
    the candidates: it has the [search] attribute and its two
    templates, of type [menu] and of type [editor], whose contents are
    recorded; the [sgid] attribute may be missing ([None] when
    [getAttribute("sgid")] is [null]). An element without one of the
    templates is not a value of this type: on such an element
    [buildListItemElementFor] and [#replaceTriggerWithSelectedItem] read
    a property of [null] and raise a [TypeError]. What is proved below
    about candidates is proved about candidates that keep the
    contract. *)
Record PromptItem := {
  search : string;
  sgid : option string;
  menuTemplate : string;
  editorTemplate : string;
}.

(** An [<li>] element. [key] is the identity of the DOM object (what a
    [WeakMap] is keyed by); elements are allocated with increasing keys.
    The [id] and [tabindex] attributes, which nothing below reads, are
    left out. *)
Record ListItem := {
  key : nat;
  role : option string;
  classList : list string;
  innerHTML : string;
  ariaSelected : bool;
}.

(** A [GET] request: the configured location and the [filter] query
    parameter appended by [RemoteFilterSource]. *)
Record Request := {
  requestUrl : string;
  requestFilter : option string;
}.

(** What [await loadPromptItemsFromUrl(url)] produces: the parsed
    [<lexxy-prompt-item>] elements, or a rejection. *)
Inductive Response :=
| Items (promptItems : list PromptItem)
| Rejected.

#[global] Instance PromptItem_eq_dec : EqDecision PromptItem.
Proof. solve_decision. Defined.

#[global] Instance ListItem_eq_dec : EqDecision ListItem.
Proof. solve_decision. Defined.

Module BaseSource.

(** [buildListItemElementFor(promptItemElement)]: a fresh [<li
    role="option">] of class [lexxy-prompt-menu__item] holding a copy of
    the menu template. *)
Definition buildListItemElementFor (promptItemElement : PromptItem)
    (fresh : nat) : ListItem :=
  {| key := fresh;
     role := Some "option";
     classList := ["lexxy-prompt-menu__item"];
     innerHTML := menuTemplate promptItemElement;
     ariaSelected := false |}.

(** [loadPromptItemsFromUrl(url)] up to its first [await]: the request
    is sent, that is appended to the log of requests. *)
Definition loadPromptItemsFromUrl (url : Request) (network : list Request)
    : list Request :=
  network ++ [url].

End BaseSource.

(** Modelled from the spec: [filterMatches] of [helpers/string_helper],
    which the sources import and which is missing.
    The spec has it as a case-insensitive substring match of the filter
    against the search key. *)
Definition filterMatches (text potentialMatch : string) : bool :=
  JsString.includes (JsString.toLowerCase text)
                    (JsString.toLowerCase potentialMatch).

(** The property [filterMatches] is meant to decide, in the words of the
    spec: the search key contains the filter string, case-insensitively. *)
Definition containsIgnoringCase (text potentialMatch : string) : Prop :=
  exists before after : string,
    JsString.toLowerCase text
    = before +:+ JsString.toLowerCase potentialMatch +:+ after.

Module LocalFilterSource.

(** The body of the [forEach] in [#buildListItemsFromPromptItems], on
    the three things it updates: the array [listItems], the [WeakMap]
    and the allocator of DOM objects. *)
Definition visit (filter : string)
    (acc : list ListItem * gmap nat PromptItem * nat)
    (promptItem : PromptItem) : list ListItem * gmap nat PromptItem * nat :=
  let '(listItems, promptItemByListItem, fresh) := acc in
  let searchableText := search promptItem in
  if (filter =? "")%string || filterMatches searchableText filter then
    let listItem := BaseSource.buildListItemElementFor promptItem fresh in
    (listItems ++ [listItem],
     <[key listItem := promptItem]> promptItemByListItem,
     S fresh)
  else acc.

(** [#buildListItemsFromPromptItems(promptItems, filter)]: the list
    items, the new [WeakMap] and the allocator. *)
Definition buildListItemsFromPromptItems (promptItems : list PromptItem)
    (filter : string) (fresh : nat)
    : list ListItem * gmap nat PromptItem * nat :=
  fold_left (visit filter) promptItems ([], ∅, fresh).

End LocalFilterSource.

Module InlinePromptSource.

(** [inlinePromptItemElements] is set by the constructor;
    [promptItemByListItem] is [undefined] ([None]) until the first
    [buildListItems] completes. *)
Record t := {
  inlinePromptItemElements : list PromptItem;
  promptItemByListItem : option (gmap nat PromptItem);
}.

Definition new (inlinePromptItems : list PromptItem) : t :=
  {| inlinePromptItemElements := inlinePromptItems;
     promptItemByListItem := None |}.

Definition fetchPromptItems (s : t) : list PromptItem :=
  inlinePromptItemElements s.

(** [buildListItems(filter)]; the promise of [fetchPromptItems] is
    already resolved, so nothing runs in between. *)
Definition buildListItems (s : t) (filter : string) (fresh : nat)
    : list ListItem * t * nat :=
  let promptItems := fetchPromptItems s in
  let '(listItems, weakMap, fresh') :=
    LocalFilterSource.buildListItemsFromPromptItems promptItems filter fresh in
  (listItems,
   {| inlinePromptItemElements := inlinePromptItemElements s;
      promptItemByListItem := Some weakMap |},
   fresh').

End InlinePromptSource.

Module DeferredPromptSource.

Record t := {
  url : string;
  promptItems : option (list PromptItem);
  promptItemByListItem : option (gmap nat PromptItem);
}.

Definition set_promptItems (s : t) (items : list PromptItem) : t :=
  {| url := url s;
     promptItems := Some items;
     promptItemByListItem := promptItemByListItem s |}.

Definition set_promptItemByListItem (s : t) (weakMap : gmap nat PromptItem)
    : t :=
  {| url := url s;
     promptItems := promptItems s;
     promptItemByListItem := Some weakMap |}.

(** [fetchPromptItems()] up to its [await]. The left operand of [??=]
    is read first: a value that is not nullish is returned ([inl]) and
    nothing is sent; otherwise [loadPromptItemsFromUrl(this.url)] is
    called, which sends a request, and the activation is suspended on it
    ([inr] of the request's position in the log). *)
Definition fetchPromptItems (s : t) (network : list Request)
    : (list PromptItem + nat) * list Request :=
  match promptItems s with
  | Some items => (inl items, network)
  | None =>
      (inr (length network),
       BaseSource.loadPromptItemsFromUrl
         {| requestUrl := url s; requestFilter := None |} network)
  end.

(** [fetchPromptItems()] from its [await] on: the awaited value is
    assigned to [this.promptItems] and returned; a rejection leaves the
    source as it is and rejects the call ([None]). *)
Definition fetchPromptItems_resume (s : t) (response : Response)
    : t * option (list PromptItem) :=
  match response with
  | Items items => (set_promptItems s items, Some items)
  | Rejected => (s, None)
  end.

(** [buildListItems(filter)] from the point where [fetchPromptItems()]
    has produced [items]. *)
Definition buildListItems_resume (s : t) (items : list PromptItem)
    (filter : string) (fresh : nat) : list ListItem * t * nat :=
  let '(listItems, weakMap, fresh') :=
    LocalFilterSource.buildListItemsFromPromptItems items filter fresh in
  (listItems, set_promptItemByListItem s weakMap, fresh').

(** What an activation suspended in [fetchPromptItems] goes on to do:
    the call made by the constructor drops the value, a call made by
    [buildListItems(filter)] filters it. *)
Inductive Continuation :=
| FromConstructor
| FromBuildListItems (filter : string).

(** The source with what surrounds it: the log of requests sent, the
    suspended activations (each with the request it waits for), the
    allocator of DOM objects and the values with which the calls of
    [buildListItems] have resolved so far. *)
Record World := {
  source : t;
  network : list Request;
  suspended : list (nat * Continuation);
  fresh : nat;
  resolved : list (list ListItem);
}.

(** [new DeferredPromptSource(url)]: the constructor calls
    [fetchPromptItems()] and does not wait for it. *)
Definition new (url0 : string) : World :=
  let s := {| url := url0; promptItems := None;
              promptItemByListItem := None |} in
  match fetchPromptItems s [] with
  | (inl _, net) =>
      {| source := s; network := net; suspended := []; fresh := 0;
         resolved := [] |}
  | (inr request, net) =>
      {| source := s; network := net;
         suspended := [(request, FromConstructor)]; fresh := 0;
         resolved := [] |}
  end.

(** A call of [buildListItems(filter)], as a session makes it. *)
Definition buildListItems (filter : string) (w : World) : World :=
  match fetchPromptItems (source w) (network w) with
  | (inl items, net) =>
      let '(listItems, s', fresh') :=
        buildListItems_resume (source w) items filter (fresh w) in
      {| source := s'; network := net; suspended := suspended w;
         fresh := fresh'; resolved := resolved w ++ [listItems] |}
  | (inr request, net) =>
      {| source := source w; network := net;
         suspended := suspended w ++ [(request, FromBuildListItems filter)];
         fresh := fresh w; resolved := resolved w |}
  end.

(** One suspended activation is resumed with the response. *)
Definition resume (response : Response) (w : World) (k : Continuation)
    : World :=
  match fetchPromptItems_resume (source w) response, k with
  | (s', Some items), FromBuildListItems filter =>
      let '(listItems, s'', fresh') :=
        buildListItems_resume s' items filter (fresh w) in
      {| source := s''; network := network w; suspended := suspended w;
         fresh := fresh'; resolved := resolved w ++ [listItems] |}
  | (s', _), _ =>
      {| source := s'; network := network w; suspended := suspended w;
         fresh := fresh w; resolved := resolved w |}
  end.

(** The response to request number [request] arrives: the activations
    that wait for it are resumed, in the order in which they were
    suspended. *)
Definition respond (request : nat) (response : Response) (w : World)
    : World :=
  let waiting :=
    List.filter (fun '(r, _) => r =? request) (suspended w) in
  let others :=
    List.filter (fun '(r, _) => negb (r =? request)) (suspended w) in
  fold_left (resume response) (List.map snd waiting)
    {| source := source w; network := network w; suspended := others;
       fresh := fresh w; resolved := resolved w |}.

Inductive Event :=
| BuildListItems (filter : string)
| Respond (request : nat) (response : Response).

Definition step (w : World) (e : Event) : World :=
  match e with
  | BuildListItems filter => buildListItems filter w
  | Respond request response => respond request response w
  end.

Definition run (events : list Event) (w : World) : World :=
  fold_left step events w.

End DeferredPromptSource.

(** Modelled from the spec: [debounceAsync(fn, wait)] of
    [helpers/timing_helpers], which [RemoteFilterSource] imports and
    which is missing. The spec has the calls debounced with
    a fixed trailing window: rapid calls collapse into a single call of
    [fn], fired after the calls pause. The state of a debounced function
    is its pending timer, if any: the time at which it fires and the
    argument [fn] will get. Times are in milliseconds. *)
Module Debounce.

(** Modelled from the spec: the pending timer of a debounced function,
    its deadline and the argument of the call that set it. *)
Definition Timer : Type := option (nat * string).

(** Modelled from the spec: a call of the debounced function at time
    [now]; the pending timer is dropped and a new one is set, [wait]
    later. *)
Definition call (wait now : nat) (arg : string) (timer : Timer) : Timer :=
  Some (now + wait, arg).

(** Modelled from the spec: the timer of the debounced function that
    has come due at time [now], if any. *)
Definition due (now : nat) (timer : Timer) : option (nat * string) :=
  match timer with
  | Some (deadline, arg) =>
      if deadline <=? now then Some (deadline, arg) else None
  | None => None
  end.

End Debounce.

Module RemoteFilterSource.

Definition DEBOUNCE_INTERVAL : nat := 200.

(** [loadAndFilterListItems], the debounced [fetchFilteredListItems], is
    represented by its timer. *)
Record t := {
  baseURL : string;
  loadAndFilterListItems : Debounce.Timer;
  promptItemByListItem : option (gmap nat PromptItem);
}.

Definition new (url : string) : t :=
  {| baseURL := url; loadAndFilterListItems := None;
     promptItemByListItem := None |}.

Definition set_loadAndFilterListItems (s : t) (timer : Debounce.Timer) : t :=
  {| baseURL := baseURL s; loadAndFilterListItems := timer;
     promptItemByListItem := promptItemByListItem s |}.

Definition set_promptItemByListItem (s : t) (weakMap : gmap nat PromptItem)
    : t :=
  {| baseURL := baseURL s;
     loadAndFilterListItems := loadAndFilterListItems s;
     promptItemByListItem := Some weakMap |}.

(** [#urlFor(filter)]: the base URL with the parameter [filter]
    appended. *)
Definition urlFor (s : t) (filter : string) : Request :=
  {| requestUrl := baseURL s; requestFilter := Some filter |}.

(** The body of the loop of [#buildListItemsFromPromptItems]. *)
Definition visit (acc : list ListItem * gmap nat PromptItem * nat)
    (promptItem : PromptItem) : list ListItem * gmap nat PromptItem * nat :=
  let '(listItems, weakMap, fresh) := acc in
  let listItem := BaseSource.buildListItemElementFor promptItem fresh in
  (listItems ++ [listItem], <[key listItem := promptItem]> weakMap, S fresh).

(** [#buildListItemsFromPromptItems(promptItems)]. *)
Definition buildListItemsFromPromptItems (promptItems : list PromptItem)
    (fresh : nat) : list ListItem * gmap nat PromptItem * nat :=
  fold_left visit promptItems ([], ∅, fresh).

(** [fetchFilteredListItems(filter)] from its [await] on: the list items
    are built from the response and the [WeakMap] is replaced; a
    rejection rejects the call ([None]) and changes nothing. *)
Definition fetchFilteredListItems_resume (s : t) (response : Response)
    (fresh : nat) : option (list ListItem) * t * nat :=
  match response with
  | Items promptItems =>
      let '(listItems, weakMap, fresh') :=
        buildListItemsFromPromptItems promptItems fresh in
      (Some listItems, set_promptItemByListItem s weakMap, fresh')
  | Rejected => (None, s, fresh)
  end.

(** The source and the clock: the time, the requests sent (each with the
    time at which it was sent) and the calls of [buildListItems] made
    (each with its time). *)
Record World := {
  source : t;
  now : nat;
  network : list (nat * Request);
  calls : list (nat * string);
}.

Definition initial (url : string) : World :=
  {| source := new url; now := 0; network := []; calls := [] |}.

(** [buildListItems(filter)] at the current time: the debounced
    function is called. *)
Definition buildListItems (filter : string) (w : World) : World :=
  {| source :=
       set_loadAndFilterListItems (source w)
         (Debounce.call DEBOUNCE_INTERVAL (now w) filter
            (loadAndFilterListItems (source w)));
     now := now w;
     network := network w;
     calls := calls w ++ [(now w, filter)] |}.

(** [ms] milliseconds pass. A timer that comes due in between fires at
    its deadline: [fetchFilteredListItems(filter)] runs up to its
    [await], which sends the request for [#urlFor(filter)]. *)
Definition elapse (ms : nat) (w : World) : World :=
  match Debounce.due (now w + ms) (loadAndFilterListItems (source w)) with
  | Some (deadline, filter) =>
      {| source := set_loadAndFilterListItems (source w) None;
         now := now w + ms;
         network := network w ++ [(deadline, urlFor (source w) filter)];
         calls := calls w |}
  | None =>
      {| source := source w; now := now w + ms; network := network w;
         calls := calls w |}
  end.

Inductive Event :=
| BuildListItems (filter : string)
| Elapse (ms : nat).

Definition step (w : World) (e : Event) : World :=
  match e with
  | BuildListItems filter => buildListItems filter w
  | Elapse ms => elapse ms w
  end.

Definition run (events : list Event) (w : World) : World :=
  fold_left step events w.

End RemoteFilterSource.

(** ** The editor *)

Module CustomActionTextAttachmentNode.

Record t := {
  sgid : option string;
  contentType : string;
  innerHtml : string;
}.

(** [constructor({ sgid, contentType, innerHtml }, key)]; an empty
    content type is falsy and gives the default. *)
Definition new (sgid0 : option string) (contentType0 innerHtml0 : string)
    : t :=
  {| sgid := sgid0;
     contentType :=
       if (contentType0 =? "")%string
       then "application/vnd.actiontext.unknown" else contentType0;
     innerHtml := innerHtml0 |}.

Definition getType : string := "custom_action_text_attachment".

Definition isInline (node : t) : bool := true.

(** The object made by [exportJSON()] and taken by [importJSON]. *)
Record SerializedNode := {
  json_type : string;
  json_version : nat;
  json_sgid : option string;
  json_contentType : string;
  json_innerHtml : string;
}.

(** [exportJSON()]. *)
Definition exportJSON (node : t) : SerializedNode :=
  {| json_type := "custom_action_text_attachment";
     json_version := 1;
     json_sgid := sgid node;
     json_contentType := contentType node;
     json_innerHtml := innerHtml node |}.

(** [importJSON(serializedNode)]: the constructor picks [sgid],
    [contentType] and [innerHtml] from the copy of the object. *)
Definition importJSON (serializedNode : SerializedNode) : t :=
  new (json_sgid serializedNode) (json_contentType serializedNode)
      (json_innerHtml serializedNode).

(** [clone(node)]: the constructor again, on a copy of the node. *)
Definition clone (node : t) : t :=
  new (sgid node) (contentType node) (innerHtml node).

End CustomActionTextAttachmentNode.

(** The nodes of the document that the prompt deals with: text nodes,
    the attachment nodes it inserts, the nodes [$generateNodesFromDOM]
    makes of a piece of HTML (kept as that HTML), and any other node. *)
Inductive LexicalNode :=
| TextNode (text : string)
| AttachmentNode (node : CustomActionTextAttachmentNode.t)
| GeneratedNodes (html : string)
| OtherNode.

(** The editor element as the prompt sees it: the nodes of the document
    in order, the selection as the position of a node and an offset in
    it ([None] when there is no selected node) and whether the editor has
    the focus. *)
Record Editor := {
  nodes : list LexicalNode;
  selection : option (nat * nat);
  focused : bool;
}.

Definition set_focused (ed : Editor) (b : bool) : Editor :=
  {| nodes := nodes ed; selection := selection ed; focused := b |}.

(** Modelled from the spec: the editor's [selection] and [contents]
    (interfaces (2), (3) and (5) of the host editing surface), whose
    files are missing: the cursor is read as a (node, offset) pair,
    the raw text of the node containing the cursor is read, the filter is
    the text between the trigger character and the cursor, and a text
    span is replaced with nodes. *)
Module Contents.

(** Modelled from the spec: [selection.selectedNodeWithOffset()], the
    cursor as a node and an offset; [None] when [node] is [null]. *)
Definition selectedNodeWithOffset (ed : Editor)
    : option (LexicalNode * nat) :=
  match selection ed with
  | Some (i, offset) =>
      match nodes ed !! i with
      | Some node => Some (node, offset)
      | None => None
      end
  | None => None
  end.

(** Modelled from the spec: the raw text of the node containing the
    cursor, up to the cursor. *)
Definition textBeforeCursor (ed : Editor) : option string :=
  match selectedNodeWithOffset ed with
  | Some (TextNode text, offset) => Some (JsString.take offset text)
  | _ => None
  end.

(** Modelled from the spec: [contents.containsTextBackUntil(string)],
    whether the string occurs before the cursor. *)
Definition containsTextBackUntil (ed : Editor) (str : string) : bool :=
  match textBeforeCursor ed with
  | Some text => JsString.includes text str
  | None => false
  end.

(** Modelled from the spec: [contents.textBackUntil(string)], the text
    between the last [string] before the cursor and the cursor. *)
Definition textBackUntil (ed : Editor) (str : string) : string :=
  match textBeforeCursor ed with
  | Some text =>
      match JsString.lastIndexOf text str with
      | Some i => JsString.drop (i + String.length str) text
      | None => ""
      end
  | None => ""
  end.

(** Modelled from the spec (4.5, whitespace handling): "when inserting
    a reference node, ... exactly one trailing space-equivalent separates
    the inserted node from following text so subsequent typing does not
    fuse into the reference". A reference node is an attachment node;
    the rule applies when the inserted nodes end with one. *)
Definition isReference (node : LexicalNode) : bool :=
  match node with
  | AttachmentNode _ => true
  | _ => false
  end.

Definition endsWithReference (replacementNodes : list LexicalNode) : bool :=
  match last replacementNodes with
  | Some node => isReference node
  | None => false
  end.

(** The text that follows the cursor, behind one space: a space is put
    in front of it unless it begins with one already, so that exactly
    one space separates it from the reference node; when nothing
    follows, the space stands alone. *)
Definition separated (following : string) : string :=
  if JsString.startsWith following " " then following
  else " " +:+ following.

(** The text node behind the inserted nodes, and the offset of the
    cursor in it: behind a reference node the text is [separated] and
    the cursor is behind the space; behind other nodes the text that
    followed the cursor is kept as it is, with the cursor in front. *)
Definition textAfter (replacementNodes : list LexicalNode)
    (following : string) : string * nat :=
  if endsWithReference replacementNodes then (separated following, 1)
  else (following, 0).

(** Modelled from the spec:
    [contents.replaceTextBackUntil(stringToReplace, replacementNodes)];
    the last [stringToReplace] before the cursor, and what follows it up
    to the cursor, is replaced with the nodes; the text node is split
    around them, the text before the string (with its whitespace) is
    kept, the text behind the nodes is [textAfter] and the cursor is put
    in it. Nothing happens when the cursor is not in a text node or the
    string is not found. *)
Definition replaceTextBackUntil (ed : Editor) (stringToReplace : string)
    (replacementNodes : list LexicalNode) : Editor :=
  match selection ed with
  | Some (i, offset) =>
      match nodes ed !! i with
      | Some (TextNode text) =>
          match JsString.lastIndexOf (JsString.take offset text)
                  stringToReplace with
          | Some j =>
              let after :=
                textAfter replacementNodes (JsString.drop offset text) in
              {| nodes :=
                   take i (nodes ed)
                   ++ [TextNode (JsString.take j text)]
                   ++ replacementNodes
                   ++ [TextNode (fst after)]
                   ++ drop (S i) (nodes ed);
                 selection :=
                   Some (i + 1 + length replacementNodes, snd after);
                 focused := focused ed |}
          | None => ed
          end
      | _ => ed
      end
  | None => ed
  end.

End Contents.

(** ** The [<lexxy-prompt>] element *)

Definition NOTHING_FOUND_DEFAULT_MESSAGE : string := "Nothing found".

Inductive Command :=
| KEY_ENTER_COMMAND
| KEY_TAB_COMMAND
| KEY_SPACE_COMMAND
| KEY_ARROW_UP_COMMAND
| KEY_ARROW_DOWN_COMMAND.

#[global] Instance Command_eq_dec : EqDecision Command.
Proof. solve_decision. Defined.

(** The popover [<ul>]: its children, the classes
    [lexxy-prompt-menu--visible] and [lexxy-prompt-menu--empty], and the
    two data attributes of its positioning. *)
Record Popover := {
  children : list ListItem;
  visible : bool;
  emptyClass : bool;
  anchored : bool;
  clippedAtBottom : bool;
}.

Inductive Source :=
| Inline (s : InlinePromptSource.t)
| Deferred (s : DeferredPromptSource.t)
| Remote (s : RemoteFilterSource.t).

(** The element: its attributes, its properties, what it has registered
    with the editor, the activations of [#hidePopover] that wait for the
    next frame, the editor it lives in and the allocator of DOM
    objects. *)
Record LexicalPromptElement := {
  trigger : string;
  name : option string;
  src : option string;
  remoteFiltering : bool;
  insertEditableText : bool;
  supportsSpaceInSearches : bool;
  emptyResults : option string;
  inlineItems : list PromptItem;

  source : option Source;
  popoverElement : option Popover;
  keyListeners : list Command;
  initialPrompt : bool;

  triggerListeners : nat;
  cursorPositionListener : bool;
  keydownListener : bool;
  changeListener : bool;
  hiding : nat;

  editor : Editor;
  fresh : nat;
}.

(** Assignments to the properties of the element. *)

Definition set_source (el : LexicalPromptElement) (v : option Source)
    : LexicalPromptElement :=
  {| trigger := trigger el;
     name := name el;
     src := src el;
     remoteFiltering := remoteFiltering el;
     insertEditableText := insertEditableText el;
     supportsSpaceInSearches := supportsSpaceInSearches el;
     emptyResults := emptyResults el;
     inlineItems := inlineItems el;
     source := v;
     popoverElement := popoverElement el;
     keyListeners := keyListeners el;
     initialPrompt := initialPrompt el;
     triggerListeners := triggerListeners el;
     cursorPositionListener := cursorPositionListener el;
     keydownListener := keydownListener el;
     changeListener := changeListener el;
     hiding := hiding el;
     editor := editor el;
     fresh := fresh el |}.

Definition set_popoverElement (el : LexicalPromptElement) (v : option Popover)
    : LexicalPromptElement :=
  {| trigger := trigger el;
     name := name el;
     src := src el;
     remoteFiltering := remoteFiltering el;
     insertEditableText := insertEditableText el;
     supportsSpaceInSearches := supportsSpaceInSearches el;
     emptyResults := emptyResults el;
     inlineItems := inlineItems el;
     source := source el;
     popoverElement := v;
     keyListeners := keyListeners el;
     initialPrompt := initialPrompt el;
     triggerListeners := triggerListeners el;
     cursorPositionListener := cursorPositionListener el;
     keydownListener := keydownListener el;
     changeListener := changeListener el;
     hiding := hiding el;
     editor := editor el;
     fresh := fresh el |}.

Definition set_keyListeners (el : LexicalPromptElement) (v : list Command)
    : LexicalPromptElement :=
  {| trigger := trigger el;
     name := name el;
     src := src el;
     remoteFiltering := remoteFiltering el;
     insertEditableText := insertEditableText el;
     supportsSpaceInSearches := supportsSpaceInSearches el;
     emptyResults := emptyResults el;
     inlineItems := inlineItems el;
     source := source el;
     popoverElement := popoverElement el;
     keyListeners := v;
     initialPrompt := initialPrompt el;
     triggerListeners := triggerListeners el;
     cursorPositionListener := cursorPositionListener el;
     keydownListener := keydownListener el;
     changeListener := changeListener el;
     hiding := hiding el;
     editor := editor el;
     fresh := fresh el |}.

Definition set_initialPrompt (el : LexicalPromptElement) (v : bool)
    : LexicalPromptElement :=
  {| trigger := trigger el;
     name := name el;
     src := src el;
     remoteFiltering := remoteFiltering el;
     insertEditableText := insertEditableText el;
     supportsSpaceInSearches := supportsSpaceInSearches el;
     emptyResults := emptyResults el;
     inlineItems := inlineItems el;
     source := source el;
     popoverElement := popoverElement el;
     keyListeners := keyListeners el;
     initialPrompt := v;
     triggerListeners := triggerListeners el;
     cursorPositionListener := cursorPositionListener el;
     keydownListener := keydownListener el;
     changeListener := changeListener el;
     hiding := hiding el;
     editor := editor el;
     fresh := fresh el |}.

Definition set_triggerListeners (el : LexicalPromptElement) (v : nat)
    : LexicalPromptElement :=
  {| trigger := trigger el;
     name := name el;
     src := src el;
     remoteFiltering := remoteFiltering el;
     insertEditableText := insertEditableText el;
     supportsSpaceInSearches := supportsSpaceInSearches el;
     emptyResults := emptyResults el;
     inlineItems := inlineItems el;
     source := source el;
     popoverElement := popoverElement el;
     keyListeners := keyListeners el;
     initialPrompt := initialPrompt el;
     triggerListeners := v;
     cursorPositionListener := cursorPositionListener el;
     keydownListener := keydownListener el;
     changeListener := changeListener el;
     hiding := hiding el;
     editor := editor el;
     fresh := fresh el |}.

Definition set_cursorPositionListener (el : LexicalPromptElement) (v : bool)
    : LexicalPromptElement :=
  {| trigger := trigger el;
     name := name el;
     src := src el;
     remoteFiltering := remoteFiltering el;
     insertEditableText := insertEditableText el;
     supportsSpaceInSearches := supportsSpaceInSearches el;
     emptyResults := emptyResults el;
     inlineItems := inlineItems el;
     source := source el;
     popoverElement := popoverElement el;
     keyListeners := keyListeners el;
     initialPrompt := initialPrompt el;
     triggerListeners := triggerListeners el;
     cursorPositionListener := v;
     keydownListener := keydownListener el;
     changeListener := changeListener el;
     hiding := hiding el;
     editor := editor el;
     fresh := fresh el |}.

Definition set_keydownListener (el : LexicalPromptElement) (v : bool)
    : LexicalPromptElement :=
  {| trigger := trigger el;
     name := name el;
     src := src el;
     remoteFiltering := remoteFiltering el;
     insertEditableText := insertEditableText el;
     supportsSpaceInSearches := supportsSpaceInSearches el;
     emptyResults := emptyResults el;
     inlineItems := inlineItems el;
     source := source el;
     popoverElement := popoverElement el;
     keyListeners := keyListeners el;
     initialPrompt := initialPrompt el;
     triggerListeners := triggerListeners el;
     cursorPositionListener := cursorPositionListener el;
     keydownListener := v;
     changeListener := changeListener el;
     hiding := hiding el;
     editor := editor el;
     fresh := fresh el |}.

Definition set_changeListener (el : LexicalPromptElement) (v : bool)
    : LexicalPromptElement :=
  {| trigger := trigger el;
     name := name el;
     src := src el;
     remoteFiltering := remoteFiltering el;
     insertEditableText := insertEditableText el;
     supportsSpaceInSearches := supportsSpaceInSearches el;
     emptyResults := emptyResults el;
     inlineItems := inlineItems el;
     source := source el;
     popoverElement := popoverElement el;
     keyListeners := keyListeners el;
     initialPrompt := initialPrompt el;
     triggerListeners := triggerListeners el;
     cursorPositionListener := cursorPositionListener el;
     keydownListener := keydownListener el;
     changeListener := v;
     hiding := hiding el;
     editor := editor el;
     fresh := fresh el |}.

Definition set_hiding (el : LexicalPromptElement) (v : nat)
    : LexicalPromptElement :=
  {| trigger := trigger el;
     name := name el;
     src := src el;
     remoteFiltering := remoteFiltering el;
     insertEditableText := insertEditableText el;
     supportsSpaceInSearches := supportsSpaceInSearches el;
     emptyResults := emptyResults el;
     inlineItems := inlineItems el;
     source := source el;
     popoverElement := popoverElement el;
     keyListeners := keyListeners el;
     initialPrompt := initialPrompt el;
     triggerListeners := triggerListeners el;
     cursorPositionListener := cursorPositionListener el;
     keydownListener := keydownListener el;
     changeListener := changeListener el;
     hiding := v;
     editor := editor el;
     fresh := fresh el |}.

Definition set_editor (el : LexicalPromptElement) (v : Editor)
    : LexicalPromptElement :=
  {| trigger := trigger el;
     name := name el;
     src := src el;
     remoteFiltering := remoteFiltering el;
     insertEditableText := insertEditableText el;
     supportsSpaceInSearches := supportsSpaceInSearches el;
     emptyResults := emptyResults el;
     inlineItems := inlineItems el;
     source := source el;
     popoverElement := popoverElement el;
     keyListeners := keyListeners el;
     initialPrompt := initialPrompt el;
     triggerListeners := triggerListeners el;
     cursorPositionListener := cursorPositionListener el;
     keydownListener := keydownListener el;
     changeListener := changeListener el;
     hiding := hiding el;
     editor := v;
     fresh := fresh el |}.

Definition set_fresh (el : LexicalPromptElement) (v : nat)
    : LexicalPromptElement :=
  {| trigger := trigger el;
     name := name el;
     src := src el;
     remoteFiltering := remoteFiltering el;
     insertEditableText := insertEditableText el;
     supportsSpaceInSearches := supportsSpaceInSearches el;
     emptyResults := emptyResults el;
     inlineItems := inlineItems el;
     source := source el;
     popoverElement := popoverElement el;
     keyListeners := keyListeners el;
     initialPrompt := initialPrompt el;
     triggerListeners := triggerListeners el;
     cursorPositionListener := cursorPositionListener el;
     keydownListener := keydownListener el;
     changeListener := changeListener el;
     hiding := hiding el;
     editor := editor el;
     fresh := v |}.

Definition set_children (p : Popover) (v : list ListItem) : Popover :=
  {| children := v;
     visible := visible p;
     emptyClass := emptyClass p;
     anchored := anchored p;
     clippedAtBottom := clippedAtBottom p |}.

Definition set_visible (p : Popover) (v : bool) : Popover :=
  {| children := children p;
     visible := v;
     emptyClass := emptyClass p;
     anchored := anchored p;
     clippedAtBottom := clippedAtBottom p |}.

Definition set_emptyClass (p : Popover) (v : bool) : Popover :=
  {| children := children p;
     visible := visible p;
     emptyClass := v;
     anchored := anchored p;
     clippedAtBottom := clippedAtBottom p |}.

Definition set_anchored (p : Popover) (v : bool) : Popover :=
  {| children := children p;
     visible := visible p;
     emptyClass := emptyClass p;
     anchored := v;
     clippedAtBottom := clippedAtBottom p |}.

Definition set_clippedAtBottom (p : Popover) (v : bool) : Popover :=
  {| children := children p;
     visible := visible p;
     emptyClass := emptyClass p;
     anchored := anchored p;
     clippedAtBottom := v |}.

Definition set_ariaSelected (li : ListItem) (v : bool) : ListItem :=
  {| key := key li; role := role li; classList := classList li;
     innerHTML := innerHTML li; ariaSelected := v |}.

(** [array.findIndex(f)], [-1] when nothing is found. *)
Fixpoint findIndex {A : Type} (f : A -> bool) (l : list A) : Z :=
  match l with
  | [] => -1
  | x :: l' =>
      if f x then 0
      else let i := findIndex f l' in if (i <? 0)%Z then -1 else (i + 1)%Z
  end.

(** [array[i]], [undefined] outside of the array. *)
Definition elementAt {A : Type} (l : list A) (i : Z) : option A :=
  if (i <? 0)%Z then None else l !! Z.to_nat i.

Definition newline : string := String (ascii_of_nat 10) EmptyString.

(** In a method of the element, [None] stands for a [TypeError]: a
    property read from [this.popoverElement] or [this.source] while that
    is [null] or [undefined], or from the [WeakMap] of a source that has
    not built any list items yet. *)
Section Prompt.

(** The remote endpoint: the candidates with which it answers a
    request, when it answers. The methods that are given in one piece
    have every retrieval answered before anything else happens. The
    parts of [#showPopover()] ([showPopover_call], [showPopover_resume])
    say what is done before and behind each [await], with other events
    in between and with a promise that may be rejected; retrievals that
    overlap with other events are the matter of
    [DeferredPromptSource.World], [RemoteFilterSource.World] and
    [Session] below. *)
Variable server : Request -> list PromptItem.

(** [new DeferredPromptSource(url)], with its retrieval answered. *)
Definition newDeferredPromptSource (url : string) : DeferredPromptSource.t :=
  DeferredPromptSource.source
    (DeferredPromptSource.respond 0
       (Items (server {| requestUrl := url; requestFilter := None |}))
       (DeferredPromptSource.new url)).

(** [await source.buildListItems(filter)]. *)
Definition buildListItems (s : Source) (filter : string) (fresh0 : nat)
    : list ListItem * Source * nat :=
  match s with
  | Inline s =>
      let '(listItems, s', fresh') :=
        InlinePromptSource.buildListItems s filter fresh0 in
      (listItems, Inline s', fresh')
  | Deferred s =>
      let items :=
        match DeferredPromptSource.promptItems s with
        | Some items => items
        | None =>
            server {| requestUrl := DeferredPromptSource.url s;
                      requestFilter := None |}
        end in
      let '(listItems, s', fresh') :=
        DeferredPromptSource.buildListItems_resume
          (DeferredPromptSource.set_promptItems s items) items filter fresh0 in
      (listItems, Deferred s', fresh')
  | Remote s =>
      let '(listItems, weakMap, fresh') :=
        RemoteFilterSource.buildListItemsFromPromptItems
          (server (RemoteFilterSource.urlFor s filter)) fresh0 in
      (listItems,
       Remote (RemoteFilterSource.set_promptItemByListItem s weakMap),
       fresh')
  end.

Definition promptItemByListItem (s : Source) : option (gmap nat PromptItem) :=
  match s with
  | Inline s => InlinePromptSource.promptItemByListItem s
  | Deferred s => DeferredPromptSource.promptItemByListItem s
  | Remote s => RemoteFilterSource.promptItemByListItem s
  end.

(** [source.promptItemFor(listItem)], the same in the three sources:
    [this.promptItemByListItem.get(listItem)]. The inner [None] is
    [undefined]: a [WeakMap] has nothing under [undefined] nor under an
    element it was not given. *)
Definition promptItemFor (s : Source) (listItem : option ListItem)
    : option (option PromptItem) :=
  weakMap ← promptItemByListItem s;
  Some (li ← listItem; weakMap !! key li).

Definition open (el : LexicalPromptElement) : bool :=
  match popoverElement el with
  | Some p => visible p
  | None => false
  end.

Definition closed (el : LexicalPromptElement) : bool := negb (open el).

Definition doesSpaceSelect (el : LexicalPromptElement) : bool :=
  negb (supportsSpaceInSearches el).

(** [#createSource()]; an empty [src] is falsy. *)
Definition createSource (el : LexicalPromptElement) : Source :=
  match src el with
  | Some url =>
      if (url =? "")%string then Inline (InlinePromptSource.new (inlineItems el))
      else if remoteFiltering el then Remote (RemoteFilterSource.new url)
      else Deferred (newDeferredPromptSource url)
  | None => Inline (InlinePromptSource.new (inlineItems el))
  end.

(** [disconnectedCallback()]. *)
Definition disconnectedCallback (el : LexicalPromptElement)
    : LexicalPromptElement :=
  set_popoverElement (set_source el None) None.

(** [connectedCallback()]. *)
Definition connectedCallback (el : LexicalPromptElement)
    : LexicalPromptElement :=
  let el := set_source el (Some (createSource el)) in
  set_triggerListeners el (S (triggerListeners el)).

Definition isMenuItem (li : ListItem) : bool :=
  existsb (String.eqb "lexxy-prompt-menu__item") (classList li).

(** [#listItemElements]: [querySelectorAll(".lexxy-prompt-menu__item")]. *)
Definition listItemElements (p : Popover) : list ListItem :=
  List.filter isMenuItem (children p).

Definition selectedIndex (p : Popover) : Z :=
  findIndex ariaSelected (listItemElements p).

Definition selectedListItem (p : Popover) : option ListItem :=
  elementAt (listItemElements p) (selectedIndex p).

(** [#clearSelection()], on the popover. (The [aria] attributes of the
    editor's content element, which nothing here reads, are left out.) *)
Definition clearSelection (p : Popover) : Popover :=
  set_children p
    (List.map (fun item =>
                 if isMenuItem item then set_ariaSelected item false
                 else item)
              (children p)).

(** [#selectOption(listItem)]. *)
Definition selectOption (listItem : ListItem) (el : LexicalPromptElement)
    : option LexicalPromptElement :=
  p ← popoverElement el;
  let p := clearSelection p in
  let p := set_children p
             (List.map (fun item =>
                          if key item =? key listItem
                          then set_ariaSelected item true else item)
                       (children p)) in
  Some (set_editor (set_popoverElement el (Some p))
                   (set_focused (editor el) true)).

(** [#selectFirstOption()]. *)
Definition selectFirstOption (el : LexicalPromptElement)
    : option LexicalPromptElement :=
  p ← popoverElement el;
  match listItemElements p !! 0 with
  | Some firstOption => selectOption firstOption el
  | None => Some el
  end.

(** [#resetPopoverPosition()]. *)
Definition resetPopoverPosition (el : LexicalPromptElement)
    : option LexicalPromptElement :=
  p ← popoverElement el;
  Some (set_popoverElement el
          (Some (set_anchored (set_clippedAtBottom p false) false))).

(** [#hidePopover()] up to [await nextFrame()]. *)
Definition hidePopover (el : LexicalPromptElement)
    : option LexicalPromptElement :=
  p ← popoverElement el;
  let p := set_visible (clearSelection p) false in
  let el := set_popoverElement el (Some p) in
  let el := set_changeListener el false in
  let el := set_keydownListener el false in
  let el := set_keyListeners el [] in
  let el := set_cursorPositionListener el false in
  Some (set_hiding el (S (hiding el))).

(** The next frame: every suspended [#hidePopover()] goes on with
    [#addTriggerListener()]. *)
Definition nextFrame (el : LexicalPromptElement) : LexicalPromptElement :=
  set_hiding (set_triggerListeners el (triggerListeners el + hiding el)) 0.

(** [#emptyResultsMessage]; an empty attribute is falsy. *)
Definition emptyResultsMessage (el : LexicalPromptElement) : string :=
  match emptyResults el with
  | Some message =>
      if (message =? "")%string then NOTHING_FOUND_DEFAULT_MESSAGE
      else message
  | None => NOTHING_FOUND_DEFAULT_MESSAGE
  end.

(** [#showResults(filteredListItems)]. *)
Definition showResults (filteredListItems : list ListItem)
    (el : LexicalPromptElement) : option LexicalPromptElement :=
  p ← popoverElement el;
  let p := set_emptyClass p false in
  Some (set_popoverElement el
          (Some (set_children p (children p ++ filteredListItems)))).

(** [#showEmptyResults()]. *)
Definition showEmptyResults (el : LexicalPromptElement)
    : option LexicalPromptElement :=
  p ← popoverElement el;
  let p := set_emptyClass p true in
  let li := {| key := fresh el; role := None;
               classList := ["lexxy-prompt-menu__item--empty"];
               innerHTML := emptyResultsMessage el;
               ariaSelected := false |} in
  Some (set_fresh
          (set_popoverElement el (Some (set_children p (children p ++ [li]))))
          (S (fresh el))).

(** [#showFilteredOptions()] from its [await] on, with the awaited
    value. *)
Definition showFilteredOptions_resume (filteredListItems : list ListItem)
    (el : LexicalPromptElement) : option LexicalPromptElement :=
  p ← popoverElement el;
  let el := set_popoverElement el (Some (set_children p [])) in
  el ← (if 0 <? length filteredListItems
        then showResults filteredListItems el
        else showEmptyResults el);
  selectFirstOption el.

(** The filter that [#showFilteredOptions()] hands to the source. *)
Definition currentFilter (el : LexicalPromptElement) : string :=
  Contents.textBackUntil (editor el) (trigger el).

(** [#showFilteredOptions()]. *)
Definition showFilteredOptions (el : LexicalPromptElement)
    : option LexicalPromptElement :=
  let filter := currentFilter el in
  s ← source el;
  let '(filteredListItems, s, fresh') := buildListItems s filter (fresh el) in
  showFilteredOptions_resume filteredListItems
    (set_fresh (set_source el (Some s)) fresh').

(** [#filterOptions]. ([#positionPopover()] only writes the style and
    the data attributes of the popover and is left out.) *)
Definition filterOptions (el : LexicalPromptElement)
    : option LexicalPromptElement :=
  if initialPrompt el then Some (set_initialPrompt el false)
  else if Contents.containsTextBackUntil (editor el) (trigger el)
  then showFilteredOptions el
  else hidePopover el.

(** [#buildPopover()]. *)
Definition buildPopover (el : LexicalPromptElement)
    : option LexicalPromptElement :=
  s ← source el;
  let '(listItems, s, fresh') := buildListItems s "" (fresh el) in
  let popoverContainer :=
    {| children := listItems; visible := false; emptyClass := false;
       anchored := false; clippedAtBottom := false |} in
  Some (set_popoverElement (set_fresh (set_source el (Some s)) fresh')
          (Some popoverContainer)).

(** [#registerKeyListeners()]. *)
Definition registerKeyListeners (el : LexicalPromptElement)
    : LexicalPromptElement :=
  set_keyListeners el
    (keyListeners el
     ++ [KEY_ENTER_COMMAND; KEY_TAB_COMMAND]
     ++ (if doesSpaceSelect el then [KEY_SPACE_COMMAND] else [])
     ++ [KEY_ARROW_UP_COMMAND; KEY_ARROW_DOWN_COMMAND]).

(** [#showPopover()] is an [async] method that waits three times
    before it makes the popover visible and registers the listeners of
    the session: in [#buildPopover()] for the list items of the source,
    in [#filterOptions] for the filtered list items and for the next
    frame, and for the promise of [#filterOptions] itself. It is cut at
    these [await]s; between two parts any other event can be handled. *)
Inductive Suspension :=
| AwaitingListItems
| AwaitingFilteredListItems (filter : string)
| AwaitingNextFrame
| AwaitingFilterOptions.

(** How an awaited promise is settled. That of [nextFrame()] and that of
    a [#filterOptions] that has returned are always fulfilled; that of
    [source.buildListItems] is rejected when the retrieval fails. *)
Inductive Settlement :=
| Fulfilled
| RejectedPromise.

(** Where a part of [#showPopover()] ends: at an [await], at the end of
    the method, or with the rejection of the awaited promise, which
    nothing catches: the rest of the method is not run. *)
Inductive Progress :=
| Suspended (suspension : Suspension)
| Completed
| Aborted.

(** [#filterOptions], as [#showPopover()] calls it, up to its first
    [await] or to its end; [#showPopover()] then waits for its
    promise. The filter is read before the [await]. *)
Definition filterOptions_call (el : LexicalPromptElement)
    : option (LexicalPromptElement * Suspension) :=
  if initialPrompt el
  then Some (set_initialPrompt el false, AwaitingFilterOptions)
  else if Contents.containsTextBackUntil (editor el) (trigger el)
  then _ ← source el;
       Some (el, AwaitingFilteredListItems (currentFilter el))
  else el ← hidePopover el;
       Some (el, AwaitingFilterOptions).

(** [#showPopover()] from [#resetPopoverPosition()] to the [await] of
    [#filterOptions]. *)
Definition showPopover_built (el : LexicalPromptElement)
    : option (LexicalPromptElement * Progress) :=
  el ← resetPopoverPosition el;
  '(el, suspension) ← filterOptions_call el;
  Some (el, Suspended suspension).

(** [#showPopover()] behind [await this.#filterOptions()]. *)
Definition showPopover_finish (el : LexicalPromptElement)
    : option (LexicalPromptElement * Progress) :=
  p ← popoverElement el;
  let el := set_popoverElement el (Some (set_visible p true)) in
  el ← selectFirstOption el;
  let el := set_keydownListener el true in
  let el := set_changeListener el true in
  let el := registerKeyListeners el in
  Some (set_cursorPositionListener el true, Completed).

(** [#showPopover()] up to its first [await]. The left operand of [??=]
    is read first: with a popover nothing is built; without one
    [#buildPopover()] is called, which calls [source.buildListItems()]
    and waits. *)
Definition showPopover_call (el : LexicalPromptElement)
    : option (LexicalPromptElement * Progress) :=
  match popoverElement el with
  | Some _ => showPopover_built el
  | None => _ ← source el; Some (el, Suspended AwaitingListItems)
  end.

(** [#showPopover()] from an [await] on, when the promise is settled:
    up to the next [await] or to the end. The list items are those
    which the source makes of the answer of the endpoint; the element is
    still connected, so that [this.source] is the source that was
    called. After the frame [#positionPopover()] runs, which only writes
    the style and the data attributes of the popover and is left out. *)
Definition showPopover_resume (suspension : Suspension)
    (settlement : Settlement) (el : LexicalPromptElement)
    : option (LexicalPromptElement * Progress) :=
  match settlement with
  | RejectedPromise => Some (el, Aborted)
  | Fulfilled =>
      match suspension with
      | AwaitingListItems =>
          el ← buildPopover el;
          showPopover_built el
      | AwaitingFilteredListItems filter =>
          s ← source el;
          let '(filteredListItems, s, fresh') :=
            buildListItems s filter (fresh el) in
          el ← showFilteredOptions_resume filteredListItems
                 (set_fresh (set_source el (Some s)) fresh');
          Some (el, Suspended AwaitingNextFrame)
      | AwaitingNextFrame => Some (el, Suspended AwaitingFilterOptions)
      | AwaitingFilterOptions => showPopover_finish el
      end
  end.

(** The parts of [#showPopover()] one behind the other, each awaited
    promise fulfilled before anything else happens; [n] bounds the
    number of [await]s, of which there are at most four. *)
Fixpoint showPopover_fulfilled (n : nat)
    (state : LexicalPromptElement * Progress)
    : option LexicalPromptElement :=
  match state with
  | (el, Completed) => Some el
  | (el, Aborted) => None
  | (el, Suspended suspension) =>
      match n with
      | 0 => None
      | S n' =>
          state ← showPopover_resume suspension Fulfilled el;
          showPopover_fulfilled n' state
      end
  end.

(** [#showPopover()] run to its end with nothing in between: the
    endpoint answers and the frame comes before any other event. What
    happens while it is suspended is the matter of [showPopover_call]
    and [showPopover_resume]. *)
Definition showPopover (el : LexicalPromptElement)
    : option LexicalPromptElement :=
  state ← showPopover_call el;
  showPopover_fulfilled 4 state.

(** The test made by the listener of [#addTriggerListener()]. *)
Definition triggerDetected (el : LexicalPromptElement) : bool :=
  match Contents.selectedNodeWithOffset (editor el) with
  | Some (TextNode fullText, offset) =>
      if 0 <? offset then
        let charBeforeCursor := JsString.charAt fullText (offset - 1) in
        if bool_decide (charBeforeCursor = Some (trigger el)) then
          let isAtStart := offset =? 1 in
          let charBeforeTrigger :=
            if 1 <? offset then JsString.charAt fullText (offset - 2)
            else None in
          let isPrecededBySpaceOrNewline :=
            bool_decide (charBeforeTrigger = Some " ")
            || bool_decide (charBeforeTrigger = Some newline) in
          isAtStart || isPrecededBySpaceOrNewline
        else false
      else false
  | _ => false
  end.


(** The listener of [#addTriggerListener()] with the [#showPopover()]
    it calls run to its end: when the test succeeds it unregisters
    itself and calls [#showPopover()]. *)
Definition triggerListener (el : LexicalPromptElement)
    : option LexicalPromptElement :=
  if triggerDetected el
  then showPopover (set_triggerListeners el (pred (triggerListeners el)))
  else Some el.

(** The listener of [#addCursorPositionListener()]. *)
Definition cursorPositionChanged (el : LexicalPromptElement)
    : option LexicalPromptElement :=
  if closed el then Some el
  else
    match Contents.selectedNodeWithOffset (editor el) with
    | None => Some el
    | Some (TextNode fullText, offset) =>
        if 0 <? offset then
          let textBeforeCursor := JsString.take offset fullText in
          match JsString.lastIndexOf textBeforeCursor (trigger el) with
          | None => hidePopover el
          | Some lastTriggerIndex =>
              if offset <=? lastTriggerIndex then hidePopover el
              else Some el
          end
        else hidePopover el
    | Some (_, _) => hidePopover el
    end.

(** An update of the editor: the listeners registered with
    [registerUpdateListener] at that moment run, those of
    [#addTriggerListener()] (one per registration) and that of
    [#addCursorPositionListener()]. *)
Fixpoint runTriggerListeners (n : nat) (el : LexicalPromptElement)
    : option LexicalPromptElement :=
  match n with
  | 0 => Some el
  | S n' => el ← triggerListener el; runTriggerListeners n' el
  end.

Definition update (el : LexicalPromptElement) : option LexicalPromptElement :=
  let cursorListening := cursorPositionListener el in
  el ← runTriggerListeners (triggerListeners el) el;
  if cursorListening then cursorPositionChanged el else Some el.

(** The event [lexxy:change]. *)
Definition change (el : LexicalPromptElement) : option LexicalPromptElement :=
  if changeListener el then filterOptions el else Some el.

(** The element in an editor whose document has changed. *)
Definition withDocument (newNodes : list LexicalNode)
    (newSelection : option (nat * nat)) (el : LexicalPromptElement)
    : LexicalPromptElement :=
  set_editor el
    {| nodes := newNodes; selection := newSelection;
       focused := focused (editor el) |}.

(** A change of the document: the editor gets new nodes and a new
    selection, its update listeners run, then [lexxy:change] is
    dispatched to the listener that was there when the change was made
    (and is still there). *)
Definition documentChange (newNodes : list LexicalNode)
    (newSelection : option (nat * nat)) (el : LexicalPromptElement)
    : option LexicalPromptElement :=
  let changeListening := changeListener el in
  el ← update (withDocument newNodes newSelection el);
  if changeListening then change el else Some el.

(** [#moveSelectionDown()] and [#moveSelectionUp()]. *)
Definition moveSelectionDown (el : LexicalPromptElement)
    : option LexicalPromptElement :=
  p ← popoverElement el;
  let nextIndex := (selectedIndex p + 1)%Z in
  if (nextIndex <? Z.of_nat (length (listItemElements p)))%Z
  then listItem ← elementAt (listItemElements p) nextIndex;
       selectOption listItem el
  else Some el.

Definition moveSelectionUp (el : LexicalPromptElement)
    : option LexicalPromptElement :=
  p ← popoverElement el;
  let previousIndex := (selectedIndex p - 1)%Z in
  if (0 <=? previousIndex)%Z
  then listItem ← elementAt (listItemElements p) previousIndex;
       selectOption listItem el
  else Some el.

Definition focus (el : LexicalPromptElement) : LexicalPromptElement :=
  set_editor el (set_focused (editor el) true).

(** [this.name] inside a template literal. *)
Definition nameString (el : LexicalPromptElement) : string :=
  match name el with
  | Some n => n
  | None => "null"
  end.

(** [#insertTemplateAsEditableText(template, stringToReplace)]. *)
Definition insertTemplateAsEditableText (template stringToReplace : string)
    (el : LexicalPromptElement) : LexicalPromptElement :=
  let nodes := [GeneratedNodes template] in
  set_editor el
    (Contents.replaceTextBackUntil (editor el) stringToReplace nodes).

(** [#insertTemplateAsAttachment(promptItem, template,
    stringToReplace)]. *)
Definition insertTemplateAsAttachment (promptItem : PromptItem)
    (template stringToReplace : string) (el : LexicalPromptElement)
    : LexicalPromptElement :=
  let attachmentNode :=
    CustomActionTextAttachmentNode.new (sgid promptItem)
      ("application/vnd.actiontext." +:+ nameString el) template in
  set_editor el
    (Contents.replaceTextBackUntil (editor el) stringToReplace
       [AttachmentNode attachmentNode]).

(** [#replaceTriggerWithSelectedItem()]. *)
Definition replaceTriggerWithSelectedItem (el : LexicalPromptElement)
    : option LexicalPromptElement :=
  p ← popoverElement el;
  s ← source el;
  found ← promptItemFor s (selectedListItem p);
  match found with
  | None => Some el
  | Some promptItem =>
      let template := editorTemplate promptItem in
      let stringToReplace := trigger el +:+ currentFilter el in
      if insertEditableText el
      then Some (insertTemplateAsEditableText template stringToReplace el)
      else Some (insertTemplateAsAttachment promptItem template
                   stringToReplace el)
  end.

(** [this.source.promptItemFor(this.#selectedListItem)], as
    [#replaceTriggerWithSelectedItem()] starts with. *)
Definition selectedPromptItem (el : LexicalPromptElement)
    : option (option PromptItem) :=
  p ← popoverElement el;
  s ← source el;
  promptItemFor s (selectedListItem p).

(** [#optionWasSelected()]. *)
Definition optionWasSelected (el : LexicalPromptElement)
    : option LexicalPromptElement :=
  el ← replaceTriggerWithSelectedItem el;
  el ← hidePopover el;
  Some (focus el).

(** [#handleSelectedOption(event)], [#handleArrowUp(event)] and
    [#handleArrowDown(event)]. *)
Definition handleSelectedOption (el : LexicalPromptElement)
    : option LexicalPromptElement :=
  optionWasSelected el.

Definition handleArrowUp (el : LexicalPromptElement)
    : option LexicalPromptElement :=
  moveSelectionUp el.

Definition handleArrowDown (el : LexicalPromptElement)
    : option LexicalPromptElement :=
  moveSelectionDown el.

(** A key command reaches the element when the element has registered
    for it; the handlers return [true], so no other handler runs. *)
Definition dispatchCommand (command : Command) (el : LexicalPromptElement)
    : option LexicalPromptElement :=
  if bool_decide (command ∈ keyListeners el) then
    match command with
    | KEY_ENTER_COMMAND | KEY_TAB_COMMAND | KEY_SPACE_COMMAND =>
        handleSelectedOption el
    | KEY_ARROW_UP_COMMAND => handleArrowUp el
    | KEY_ARROW_DOWN_COMMAND => handleArrowDown el
    end
  else Some el.

(** [#handleKeydownOnPopover(event)]. *)
Definition handleKeydownOnPopover (eventKey : string)
    (el : LexicalPromptElement) : option LexicalPromptElement :=
  if (eventKey =? "Escape")%string
  then el ← hidePopover el; Some (focus el)
  else Some el.

(** [#handlePopoverClick(event)], for a click on the child [target] of
    the popover: [closest(".lexxy-prompt-menu__item")] is the child
    itself when it has that class and [null] otherwise. *)
Definition handlePopoverClick (target : ListItem)
    (el : LexicalPromptElement) : option LexicalPromptElement :=
  if isMenuItem target
  then el ← selectOption target el; optionWasSelected el
  else Some el.

End Prompt.

(** ** A session on a [RemoteFilterSource], with its retrievals *)

Module Session.

(** The element, the requests sent and the requests whose responses are
    still awaited; each of those has one activation of
    [#showFilteredOptions()] suspended on it. *)
Record t := {
  element : LexicalPromptElement;
  network : list Request;
  inFlight : list nat;
}.

Inductive Event :=
| Start (filter : string)
| Complete (request : nat) (response : Response).

(** The debounced [fetchFilteredListItems(filter)] of a
    [#showFilteredOptions()] fires: the retrieval starts. *)
Definition start (filter : string) (w : t) : t :=
  match source (element w) with
  | Some (Remote s) =>
      {| element := element w;
         network :=
           BaseSource.loadPromptItemsFromUrl
             (RemoteFilterSource.urlFor s filter) (network w);
         inFlight := inFlight w ++ [length (network w)] |}
  | _ => w
  end.

(** The response to a retrieval arrives: [fetchFilteredListItems] goes
    on, then [#showFilteredOptions()] with the list items. A rejection
    rejects both and nothing is rendered. *)
Definition complete (request : nat) (response : Response) (w : t) : t :=
  if bool_decide (request ∈ inFlight w) then
    let others := List.filter (fun r => negb (r =? request)) (inFlight w) in
    match source (element w) with
    | Some (Remote s) =>
        let '(result, s, fresh') :=
          RemoteFilterSource.fetchFilteredListItems_resume s response
            (fresh (element w)) in
        let el := set_fresh (set_source (element w) (Some (Remote s))) fresh' in
        {| element :=
             match result with
             | Some filteredListItems =>
                 default el (showFilteredOptions_resume filteredListItems el)
             | None => el
             end;
           network := network w;
           inFlight := others |}
    | _ => w
    end
  else w.

Definition step (w : t) (e : Event) : t :=
  match e with
  | Start filter => start filter w
  | Complete request response => complete request response w
  end.

Definition run (events : list Event) (w : t) : t :=
  fold_left step events w.

(** What the overlay displays: the candidates behind its selectable
    entries, as the source resolves them. *)
Definition displayed (w : t) : option (list (option PromptItem)) :=
  p ← popoverElement (element w);
  s ← source (element w);
  weakMap ← promptItemByListItem s;
  Some (List.map (fun li => weakMap !! key li) (listItemElements p)).

End Session.

(** ** JavaScript values *)

Module Js.

(** The values the attachment nodes are given: [undefined], [null],
    strings, whole numbers and booleans. *)
Inductive Value :=
| Undefined
| Null
| Str (s : string)
| Num (n : Z)
| Bool (b : bool).

(** Whether a value is truthy: [undefined], [null], the empty string,
    [0] and [false] are not. *)
Definition truthy (v : Value) : bool :=
  match v with
  | Undefined | Null => false
  | Str s => negb (s =? "")%string
  | Num n => negb (n =? 0)%Z
  | Bool b => b
  end.

(** [a || b]. *)
Definition or (a b : Value) : Value := if truthy a then a else b.

(** [element.getAttribute(name)]: the string, or [null]. *)
Definition getAttribute (attribute : option string) : Value :=
  match attribute with
  | Some s => Str s
  | None => Null
  end.

(** [s.split(separator)] for a separator of one character: the pieces
    between the separators, at least one. *)
Fixpoint split (s : string) (separator : ascii) : list string :=
  match s with
  | EmptyString => [EmptyString]
  | String a s' =>
      if Ascii.eqb a separator then EmptyString :: split s' separator
      else
        match split s' separator with
        | piece :: pieces => String a piece :: pieces
        | [] => [String a EmptyString]
        end
  end.

(** What [array.pop()] returns: the last element, [undefined] ([None])
    for an empty array. *)
Definition pop {A : Type} (array : list A) : option A := last array.

End Js.

(** ** The node of a file attachment *)

Module ActionTextAttachmentNode.

(** The properties of the node; the object given to the constructor has
    the same ones, with [undefined] for those it lacks. *)
Record t := {
  sgid : Js.Value;
  src : Js.Value;
  previewable : Js.Value;
  altText : Js.Value;
  caption : Js.Value;
  contentType : Js.Value;
  fileName : Js.Value;
  fileSize : Js.Value;
  width : Js.Value;
  height : Js.Value;
}.

Definition getType : string := "action_text_attachment".

(** [constructor({ sgid, src, ... }, key)]. *)
Definition new (properties : t) : t :=
  {| sgid := sgid properties;
     src := src properties;
     previewable := previewable properties;
     altText := Js.or (altText properties) (Js.Str "");
     caption := Js.or (caption properties) (Js.Str "");
     contentType := Js.or (contentType properties) (Js.Str "");
     fileName := Js.or (fileName properties) (Js.Str "");
     fileSize := fileSize properties;
     width := width properties;
     height := height properties |}.

(** [clone(node)]. *)
Definition clone (node : t) : t := new node.

(** The object made by [exportJSON()]: the type, the version and the
    ten properties. *)
Record SerializedNode := {
  json_type : string;
  json_version : nat;
  json_properties : t;
}.

(** [exportJSON()]. *)
Definition exportJSON (node : t) : SerializedNode :=
  {| json_type := "action_text_attachment";
     json_version := 1;
     json_properties :=
       {| sgid := sgid node;
          src := src node;
          previewable := previewable node;
          altText := altText node;
          caption := caption node;
          contentType := contentType node;
          fileName := fileName node;
          fileSize := fileSize node;
          width := width node;
          height := height node |} |}.

(** [importJSON(serializedNode)]. *)
Definition importJSON (serializedNode : SerializedNode) : t :=
  new (json_properties serializedNode).

Definition isInline (node : t) : bool := false.

(** The text of the icon made by [#createDOMForFile()]:
    [this.fileName ? this.fileName.split(".").pop().toLowerCase() :
    "unknown"]. [None] is a [TypeError]: a file name that is truthy and
    not a string has no [split]. [String.prototype.toLowerCase], the
    case mapping of Unicode, is not defined here: it is the argument
    [toLowerCase]. *)
Definition extension (toLowerCase : string -> string) (node : t)
    : option string :=
  if Js.truthy (fileName node) then
    match fileName node with
    | Js.Str name =>
        piece ← Js.pop (Js.split name ".");
        Some (toLowerCase piece)
    | _ => None
    end
  else Some "unknown".

(** What [#imageDimensions] adds to the attributes of the image: the
    width and the height, when both are truthy. *)
Definition imageDimensions (node : t) : option (Js.Value * Js.Value) :=
  if Js.truthy (width node) && Js.truthy (height node)
  then Some (width node, height node)
  else None.

(** A [<video>] element as the importer reads it: its [src] attribute
    and its first [<source>] child, if any, of which the [src] property
    (a string) and the [content-type] attribute are read. *)
Record SourceElement := {
  source_src : string;
  source_contentType : option string;
}.

Record VideoElement := {
  video_src : option string;
  video_source : option SourceElement;
}.

(** The node made by the conversion of [importDOM()] for [video];
    [None] is a [TypeError]. *)
Definition importVideo (video : VideoElement) : option t :=
  let videoSource :=
    Js.or (Js.getAttribute (video_src video))
          (match video_source video with
           | Some source => Js.Str (source_src source)
           | None => Js.Undefined
           end) in
  fileName ←
    match videoSource with
    | Js.Undefined | Js.Null => Some Js.Undefined
    | Js.Str url =>
        Some (match Js.pop (Js.split url "/") with
              | Some piece => Js.Str piece
              | None => Js.Undefined
              end)
    | _ => None
    end;
  let contentType :=
    Js.or (match video_source video with
           | Some source => Js.getAttribute (source_contentType source)
           | None => Js.Undefined
           end)
          (Js.Str "video/*") in
  Some (new {| sgid := Js.Undefined;
               src := videoSource;
               previewable := Js.Undefined;
               altText := Js.Undefined;
               caption := Js.Undefined;
               contentType := contentType;
               fileName := fileName;
               fileSize := Js.Undefined;
               width := Js.Undefined;
               height := Js.Undefined |}).

End ActionTextAttachmentNode.

(** ** The position of the popover *)

(** [#positionPopover()] computes with the numbers the browser hands it.
    The section takes them from any type with an addition, a subtraction
    and a comparison. *)
Section Positioning.

Variable number : Type.
Variables (plus minus : number -> number -> number).
Variable greater : number -> number -> bool.

(** What [#positionPopover()] reads: [selection.cursorPosition], the
    tops of the rectangles of the editor and of its content element,
    the rectangle of the popover once its [top] is set, and
    [window.innerHeight]. *)
Record Layout := {
  cursor_x : number;
  cursor_y : number;
  cursor_fontSize : number;
  editorRect_top : number;
  contentRect_top : number;
  popoverRect_bottom : number;
  popoverRect_height : number;
  innerHeight : number;
}.

(** The [left] and the [top] of the popover's style, in pixels; [None]
    as long as they are not set. *)
Record Style := {
  style_left : option number;
  style_top : option number;
}.

(** [#positionPopover()], on the popover and its style. *)
Definition positionPopover (layout : Layout) (positioned : Popover * Style)
    : Popover * Style :=
  let '(p, style) := positioned in
  let verticalOffset :=
    minus (contentRect_top layout) (editorRect_top layout) in
  let '(p, style) :=
    if negb (anchored p)
    then (set_anchored p true,
          {| style_left := Some (cursor_x layout);
             style_top := style_top style |})
    else (p, style) in
  let style :=
    {| style_left := style_left style;
       style_top := Some (plus (cursor_y layout) verticalOffset) |} in
  let isClippedAtBottom :=
    greater (popoverRect_bottom layout) (innerHeight layout) in
  if isClippedAtBottom || clippedAtBottom p
  then (set_clippedAtBottom p true,
        {| style_left := style_left style;
           style_top :=
             Some (minus (minus (plus (cursor_y layout) verticalOffset)
                                (popoverRect_height layout))
                         (cursor_fontSize layout)) |})
  else (p, style).

(** The calls of [#positionPopover()] made while a session lasts, one
    for each layout. *)
Definition positionedThrough (layouts : list Layout)
    (positioned : Popover * Style) : Popover * Style :=
  fold_left (fun positioned layout => positionPopover layout positioned)
            layouts positioned.

(** Where [#positionPopover()] puts the popover when it does not flip
    it, and where it puts it when it does. *)
Definition below (layout : Layout) : number :=
  plus (cursor_y layout)
       (minus (contentRect_top layout) (editorRect_top layout)).

Definition above (layout : Layout) : number :=
  minus (minus (below layout) (popoverRect_height layout))
        (cursor_fontSize layout).

End Positioning.

(** Whether [#positionPopover()] finds the popover clipped at the
    bottom of the window. *)
Definition isClippedAtBottom {number : Type}
    (greater : number -> number -> bool) (layout : Layout number) : bool :=
  greater (popoverRect_bottom number layout) (innerHeight number layout).

(** ** What the element has registered *)

(** The attributes of the element. *)
Definition attributes (el : LexicalPromptElement) :=
  (trigger el, name el, src el, remoteFiltering el, insertEditableText el,
   supportsSpaceInSearches el, emptyResults el, inlineItems el).

(** What the element has registered: the key commands, the number of
    trigger listeners, the cursor position listener, the [keydown] and
    [lexxy:change] listeners, and the number of activations of
    [#hidePopover()] that wait for the next frame. *)
Definition registrations (el : LexicalPromptElement) :=
  (keyListeners el, triggerListeners el, cursorPositionListener el,
   keydownListener el, changeListener el, hiding el).

(** The commands [#registerKeyListeners()] registers. *)
Definition sessionKeys (el : LexicalPromptElement) : list Command :=
  [KEY_ENTER_COMMAND; KEY_TAB_COMMAND]
  ++ (if doesSpaceSelect el then [KEY_SPACE_COMMAND] else [])
  ++ [KEY_ARROW_UP_COMMAND; KEY_ARROW_DOWN_COMMAND].

(** What [#selectOption(listItem)] makes of the selectable entries. *)
Definition highlight (listItem : ListItem) (item : ListItem) : ListItem :=
  set_ariaSelected item (key item =? key listItem).

(** ** Notions used in the statements *)

(** The test of [#buildListItemsFromPromptItems]. *)
Definition accepts (filter : string) (promptItem : PromptItem) : bool :=
  (filter =? "")%string || filterMatches (search promptItem) filter.

(** The candidates a local source filters: the embedded ones, or those
    of the cache (retrieved first when the cache is still empty). *)
Definition localCandidates (server : Request -> list PromptItem) (s : Source)
    : option (list PromptItem) :=
  match s with
  | Inline s => Some (InlinePromptSource.inlinePromptItemElements s)
  | Deferred s =>
      match DeferredPromptSource.promptItems s with
      | Some items => Some items
      | None =>
          Some (server {| requestUrl := DeferredPromptSource.url s;
                          requestFilter := None |})
      end
  | Remote _ => None
  end.


(** What a method leaves alone: the document and the selection, the
    source, the attributes. *)
Definition sameDocument (el el' : LexicalPromptElement) : Prop :=
  nodes (editor el') = nodes (editor el)
  /\ selection (editor el') = selection (editor el).

(** Two elements that differ at most in [aria-selected]. *)
Definition sameEntry (li li' : ListItem) : Prop :=
  key li' = key li /\ classList li' = classList li
  /\ innerHTML li' = innerHTML li /\ role li' = role li.

(** A burst of keystrokes in a session on a remote-filtering source:
    each keystroke calls [buildListItems] with the filter typed so far
    and is followed by a gap of some milliseconds. *)
Definition keystrokes (burst : list (string * nat))
    : list RemoteFilterSource.Event :=
  flat_map (fun k => [RemoteFilterSource.BuildListItems k.1;
                      RemoteFilterSource.Elapse k.2]) burst.

(** What holds of the source and the clock at any time. *)
Record debounced (url : string) (w : RemoteFilterSource.World) : Prop := {
  debounced_url :
    RemoteFilterSource.baseURL (RemoteFilterSource.source w) = url;
  debounced_calls :
    forall t filter,
      (t, filter) ∈ RemoteFilterSource.calls w -> t <= RemoteFilterSource.now w;
  debounced_sent :
    forall t request,
      (t, request) ∈ RemoteFilterSource.network w ->
      t <= RemoteFilterSource.now w
      /\ exists filter,
           request = {| requestUrl := url; requestFilter := Some filter |}
           /\ RemoteFilterSource.DEBOUNCE_INTERVAL <= t
           /\ (t - RemoteFilterSource.DEBOUNCE_INTERVAL, filter)
                ∈ RemoteFilterSource.calls w
           /\ forall t' filter',
                (t', filter') ∈ RemoteFilterSource.calls w ->
                ~ (t - RemoteFilterSource.DEBOUNCE_INTERVAL < t' < t);
  debounced_timer :
    forall deadline filter,
      RemoteFilterSource.loadAndFilterListItems (RemoteFilterSource.source w)
      = Some (deadline, filter) ->
      RemoteFilterSource.now w < deadline
      /\ RemoteFilterSource.DEBOUNCE_INTERVAL <= deadline
      /\ (deadline - RemoteFilterSource.DEBOUNCE_INTERVAL, filter)
           ∈ RemoteFilterSource.calls w
      /\ (forall t' filter',
            (t', filter') ∈ RemoteFilterSource.calls w ->
            t' <= deadline - RemoteFilterSource.DEBOUNCE_INTERVAL)
      /\ (forall t request,
            (t, request) ∈ RemoteFilterSource.network w ->
            t + RemoteFilterSource.DEBOUNCE_INTERVAL <= deadline);
  debounced_apart :
    StronglySorted
      (fun a b => a.1 + RemoteFilterSource.DEBOUNCE_INTERVAL <= b.1)
      (RemoteFilterSource.network w);
}.

(** What a method that only renders leaves alone: the attributes, the
    registrations, [initialPrompt], the document and the selection. *)
Definition kept (el el' : LexicalPromptElement) : Prop :=
  attributes el' = attributes el
  /\ registrations el' = registrations el
  /\ initialPrompt el' = initialPrompt el
  /\ sameDocument el el'.

(** The registrations [#hidePopover()] leaves. *)
Definition hiddenRegistrations (el : LexicalPromptElement) :=
  ([] : list Command, triggerListeners el, false, false, false, S (hiding el)).

(** ** A prompt for mentions, to try things on *)

Definition john : PromptItem :=
  {| search := "John Doe"; sgid := Some "R1"; menuTemplate := "John Doe";
     editorTemplate := "<em>John Doe</em>" |}.

Definition joan : PromptItem :=
  {| search := "Joan Roe"; sgid := None; menuTemplate := "Joan Roe";
     editorTemplate := "<em>Joan Roe</em>" |}.

Definition bob : PromptItem :=
  {| search := "Bob"; sgid := Some "R3"; menuTemplate := "Bob";
     editorTemplate := "<em>Bob</em>" |}.

(** An endpoint that has no candidates. *)
Definition nobody : Request -> list PromptItem := fun _ => [].

(** [<lexxy-prompt trigger="@" name="mention">] with three embedded
    candidates, connected, in an editor with the given nodes and
    selection. *)
Definition mentions (nodes0 : list LexicalNode) (selection0 : option (nat * nat))
    : LexicalPromptElement :=
  connectedCallback nobody
    {| trigger := "@"; name := Some "mention"; src := None;
       remoteFiltering := false; insertEditableText := false;
       supportsSpaceInSearches := false; emptyResults := None;
       inlineItems := [john; joan; bob];
       source := None; popoverElement := None; keyListeners := [];
       initialPrompt := false;
       triggerListeners := 0; cursorPositionListener := false;
       keydownListener := false; changeListener := false; hiding := 0;
       editor := {| nodes := nodes0; selection := selection0;
                    focused := true |};
       fresh := 0 |}.

(** The session opened by typing "@" after "hello ". *)
Definition mentioning : LexicalPromptElement :=
  Eval vm_compute in
    default (mentions [] None)
      (triggerListener nobody (mentions [TextNode "hello @"] (Some (0, 7)))).

(** The same session after "joh" was typed, after the arrow down was
    pressed, and after "zz" was typed. *)
Definition mentioningJoh : LexicalPromptElement :=
  Eval vm_compute in
    default mentioning
      (documentChange nobody [TextNode "hello @joh"] (Some (0, 10)) mentioning).

Definition mentioningJoan : LexicalPromptElement :=
  Eval vm_compute in
    default mentioning (dispatchCommand KEY_ARROW_DOWN_COMMAND mentioning).

Definition mentioningNobody : LexicalPromptElement :=
  Eval vm_compute in
    default mentioning
      (documentChange nobody [TextNode "hello @zz"] (Some (0, 9)) mentioning).

(** A document with two text nodes; a session was opened in the second
    one and "jo" was typed there. *)
Definition twoMentions : LexicalPromptElement :=
  Eval vm_compute in
    default mentioning
      (el ← triggerListener nobody
              (mentions [TextNode "hi @bob"; TextNode "@"] (Some (1, 1)));
       documentChange nobody [TextNode "hi @bob"; TextNode "@jo"]
         (Some (1, 3)) el).

(** [<lexxy-prompt trigger="@" src="/people" remote-filtering>], with a
    session opened by typing "@" after "hello ", and no retrieval in
    flight. *)
Definition remoteMentioning : Session.t :=
  Eval vm_compute in
    {| Session.element :=
         default mentioning
           (triggerListener (fun _ => [john; joan; bob])
              (connectedCallback nobody
                 {| trigger := "@"; name := Some "mention";
                    src := Some "/people";
                    remoteFiltering := true; insertEditableText := false;
                    supportsSpaceInSearches := false; emptyResults := None;
                    inlineItems := [];
                    source := None; popoverElement := None; keyListeners := [];
                    initialPrompt := false;
                    triggerListeners := 0; cursorPositionListener := false;
                    keydownListener := false; changeListener := false;
                    hiding := 0;
                    editor := {| nodes := [TextNode "hello @"];
                                 selection := Some (0, 7); focused := true |};
                    fresh := 0 |}));
       Session.network := [];
       Session.inFlight := [] |}.

(** In that session the retrieval for "jo" starts, then the one for
    "joh" starts, and the second one completes first. *)
Definition overtaken : Session.t :=
  Eval vm_compute in
    Session.run
      [Session.Start "jo"; Session.Start "joh";
       Session.Complete 1 (Items [john])]
      remoteMentioning.

(** [<lexxy-prompt trigger="#" insert-editable-text>] with three embedded
    candidates, in a session opened by typing "#" after "see ". *)
Definition tagging : LexicalPromptElement :=
  Eval vm_compute in
    default mentioning
      (triggerListener nobody
         (connectedCallback nobody
            {| trigger := "#"; name := None; src := None;
               remoteFiltering := false; insertEditableText := true;
               supportsSpaceInSearches := true; emptyResults := None;
               inlineItems := [john; joan; bob];
               source := None; popoverElement := None; keyListeners := [];
               initialPrompt := false;
               triggerListeners := 0; cursorPositionListener := false;
               keydownListener := false; changeListener := false; hiding := 0;
               editor := {| nodes := [TextNode "see #"];
                            selection := Some (0, 5); focused := true |};
               fresh := 0 |})).


(** The popover of the session [mentioning]. *)
Definition mentioningPopover : Popover :=
  Eval vm_compute in
    default {| children := []; visible := false; emptyClass := false;
               anchored := false; clippedAtBottom := false |}
            (popoverElement mentioning).

(** * Properties *)

(** ** Facts about the string operations *)

Lemma append_empty_r (a : string) : a +:+ "" = a.
Proof. induction a as [|x a IH]; simpl; [reflexivity | now rewrite IH]. Qed.

Lemma length_append (a b : string) :
  String.length (a +:+ b) = String.length a + String.length b.
Proof. induction a as [|x a IH]; simpl; [reflexivity | now rewrite IH]. Qed.

Lemma startsWith_spec (s p : string) :
  JsString.startsWith s p = true <-> exists rest, s = p +:+ rest.
Proof.
  revert s. induction p as [|a p IH]; intros s; simpl.
  - split; [intros _; now exists s | reflexivity].
  - destruct s as [|b s].
    + split; [discriminate | intros [rest H]; discriminate].
    + rewrite andb_true_iff, Ascii.eqb_eq, IH. split.
      * intros [-> [rest ->]]. now exists rest.
      * intros [rest H]. injection H as -> ->. split; [reflexivity | now exists rest].
Qed.

Lemma includes_spec (s t : string) :
  JsString.includes s t = true
  <-> exists before after, s = before +:+ t +:+ after.
Proof.
  induction s as [|c s IH].
  - cbn [JsString.includes]. rewrite orb_false_r, startsWith_spec. split.
    + intros [rest H]. now exists "", rest.
    + intros [before [after H]]. destruct before; [now exists after | discriminate].
  - cbn [JsString.includes]. rewrite orb_true_iff, startsWith_spec, IH. split.
    + intros [[rest H] | [before [after H]]].
      * now exists "", rest.
      * exists (String c before), after. simpl. now rewrite H.
    + intros [before [after H]]. destruct before as [|b before].
      * left. now exists after.
      * right. simpl in H. injection H as _ H. now exists before, after.
Qed.

Lemma filterMatches_spec (text potentialMatch : string) :
  filterMatches text potentialMatch = true
  <-> containsIgnoringCase text potentialMatch.
Proof. apply includes_spec. Qed.

Lemma includes_empty (s : string) : JsString.includes s "" = true.
Proof. apply includes_spec. exists "", s. reflexivity. Qed.

Lemma take_drop (n : nat) (s : string) :
  JsString.take n s +:+ JsString.drop n s = s.
Proof.
  revert s. induction n as [|n IH]; intros [|c s]; simpl; try reflexivity.
  now rewrite IH.
Qed.


Lemma drop_append (a b : string) : JsString.drop (String.length a) (a +:+ b) = b.
Proof. induction a as [|x a IH]; simpl; [reflexivity | exact IH]. Qed.

Lemma length_take (n : nat) (s : string) :
  String.length (JsString.take n s) = Nat.min n (String.length s).
Proof.
  revert s. induction n as [|n IH]; intros [|c s]; simpl; try reflexivity.
  now rewrite IH.
Qed.

(** [lastIndexOf] finds an occurrence, and the last one. *)
Lemma lastIndexOf_Some (s t : string) (i : nat) :
  JsString.lastIndexOf s t = Some i ->
  JsString.take i s +:+ t +:+ JsString.drop (i + String.length t) s = s.
Proof.
  revert i. induction s as [|c s IH]; intros i; cbn [JsString.lastIndexOf].
  - destruct (JsString.startsWith "" t) eqn:E; [|discriminate].
    intros [= <-]. apply startsWith_spec in E as [rest E].
    destruct t; [reflexivity | discriminate].
  - destruct (JsString.lastIndexOf s t) as [j|] eqn:Ej.
    + intros [= <-]. simpl. now rewrite (IH j eq_refl).
    + destruct (JsString.startsWith (String c s) t) eqn:E; [|discriminate].
      intros [= <-]. apply startsWith_spec in E as [rest E].
      rewrite E. change (0 + String.length t) with (String.length t).
      rewrite drop_append. reflexivity.
Qed.

Lemma lastIndexOf_None (s t : string) :
  JsString.lastIndexOf s t = None -> JsString.includes s t = false.
Proof.
  induction s as [|c s IH]; cbn [JsString.lastIndexOf JsString.includes].
  - destruct (JsString.startsWith "" t); [discriminate | reflexivity].
  - destruct (JsString.lastIndexOf s t); [discriminate|].
    destruct (JsString.startsWith (String c s) t); [discriminate|].
    intros _. now rewrite IH.
Qed.

Lemma lastIndexOf_is_Some (s t : string) :
  JsString.includes s t = true -> is_Some (JsString.lastIndexOf s t).
Proof.
  intros H. destruct (JsString.lastIndexOf s t) eqn:E; [eauto|].
  apply lastIndexOf_None in E. congruence.
Qed.

Lemma lastIndexOf_short (s t : string) :
  String.length s < String.length t -> JsString.lastIndexOf s t = None.
Proof.
  induction s as [|c s IH]; intros Hlen; cbn [JsString.lastIndexOf].
  - destruct t; [simpl in Hlen; lia | reflexivity].
  - rewrite IH by (simpl in Hlen; lia).
    destruct (JsString.startsWith (String c s) t) eqn:E; [|reflexivity].
    apply startsWith_spec in E as [rest E].
    apply (f_equal String.length) in E. rewrite length_append in E. lia.
Qed.

(** A string that ends the text is last found where it starts. *)
Lemma lastIndexOf_suffix (before t : string) :
  JsString.lastIndexOf (before +:+ t) t = Some (String.length before).
Proof.
  induction before as [|c before IH].
  - simpl. destruct t as [|a t]; [reflexivity|].
    cbn [JsString.lastIndexOf]. rewrite lastIndexOf_short by (simpl; lia).
    assert (E : JsString.startsWith (String a t) (String a t) = true)
      by (apply startsWith_spec; exists ""; now rewrite append_empty_r).
    now rewrite E.
  - simpl. now rewrite IH.
Qed.

Lemma lastIndexOf_le (s t : string) (i : nat) :
  JsString.lastIndexOf s t = Some i -> i + String.length t <= String.length s.
Proof.
  revert i. induction s as [|c s IH]; intros i; cbn [JsString.lastIndexOf].
  - destruct (JsString.startsWith "" t) eqn:E; [|discriminate].
    intros [= <-]. apply startsWith_spec in E as [rest E].
    destruct t; [simpl; lia | discriminate].
  - destruct (JsString.lastIndexOf s t) as [j|].
    + intros [= <-]. specialize (IH j eq_refl). simpl. lia.
    + destruct (JsString.startsWith (String c s) t) eqn:E; [|discriminate].
      intros [= <-]. apply startsWith_spec in E as [rest E].
      rewrite E, length_append. lia.
Qed.

Lemma take_take (j n : nat) (s : string) :
  j <= n -> JsString.take j (JsString.take n s) = JsString.take j s.
Proof.
  revert n s. induction j as [|j IH]; intros [|n] [|c s] Hle; simpl;
    try reflexivity; try lia.
  now rewrite IH by lia.
Qed.


Lemma drop_drop (a b : nat) (s : string) :
  JsString.drop a (JsString.drop b s) = JsString.drop (b + a) s.
Proof.
  revert s. induction b as [|b IH]; intros s; simpl; [reflexivity|].
  destruct s as [|c s]; [now destruct a | apply IH].
Qed.

Lemma includes_drop (k : nat) (s t : string) :
  JsString.startsWith (JsString.drop k s) t = true ->
  JsString.includes s t = true.
Proof.
  revert s. induction k as [|k IH]; intros s H.
  - destruct s; cbn [JsString.includes JsString.drop] in *; now rewrite H.
  - destruct s as [|c s]; cbn [JsString.includes JsString.drop] in *.
    + now rewrite H.
    + rewrite (IH s H). apply orb_true_r.
Qed.

Lemma lastIndexOf_includes (s t : string) (i : nat) :
  JsString.lastIndexOf s t = Some i -> JsString.includes s t = true.
Proof.
  intros H. apply includes_spec.
  eexists _, _. symmetry. exact (lastIndexOf_Some s t i H).
Qed.

(** Behind the index that [lastIndexOf] gives there is no occurrence. *)
Lemma lastIndexOf_last (s t : string) (j k : nat) :
  t <> "" ->
  JsString.lastIndexOf s t = Some j ->
  j < k ->
  JsString.startsWith (JsString.drop k s) t = false.
Proof.
  intros Ht. revert j k.
  induction s as [|c s IH]; intros j k; cbn [JsString.lastIndexOf].
  - destruct t; [congruence|discriminate].
  - destruct (JsString.lastIndexOf s t) as [j'|] eqn:Ej.
    + intros [= <-] Hk. destruct k as [|k]; [lia|].
      apply (IH j' k eq_refl). lia.
    + destruct (JsString.startsWith (String c s) t); [|discriminate].
      intros [= <-] Hk. destruct k as [|k]; [lia|]. cbn [JsString.drop].
      apply lastIndexOf_None in Ej.
      destruct (JsString.startsWith (JsString.drop k s) t) eqn:E;
        [|reflexivity].
      apply includes_drop in E. congruence.
Qed.

Lemma lastIndexOf_rest (s t : string) (j : nat) :
  t <> "" ->
  JsString.lastIndexOf s t = Some j ->
  JsString.includes (JsString.drop (j + String.length t) s) t = false.
Proof.
  intros Ht Hj.
  destruct (JsString.includes (JsString.drop (j + String.length t) s) t)
    eqn:E; [|reflexivity].
  apply includes_spec in E as (before & after & E).
  assert (H : JsString.startsWith
                (JsString.drop (j + String.length t + String.length before) s)
                t = true).
  { rewrite <- drop_drop, E, drop_append. apply startsWith_spec. eauto. }
  rewrite (lastIndexOf_last s t j _ Ht Hj) in H; [discriminate|].
  destruct t; [congruence|simpl; lia].
Qed.

(** ** Filtering in the local sources *)

Lemma accepts_spec (filter : string) (promptItem : PromptItem) :
  accepts filter promptItem = true
  <-> containsIgnoringCase (search promptItem) filter.
Proof.
  unfold accepts. destruct (String.eqb_spec filter "") as [->|Hne].
  - split; [intros _ | reflexivity].
    apply filterMatches_spec, includes_empty.
  - apply filterMatches_spec.
Qed.

#[global] Instance containsIgnoringCase_dec (text potentialMatch : string) :
  Decision (containsIgnoringCase text potentialMatch).
Proof.
  destruct (filterMatches text potentialMatch) eqn:E.
  - left. now apply filterMatches_spec.
  - right. intros H. apply filterMatches_spec in H. congruence.
Defined.

Lemma filter_accepts (filter : string) (promptItems : list PromptItem) :
  List.filter (accepts filter) promptItems
  = base.filter (fun p => containsIgnoringCase (search p) filter) promptItems.
Proof.
  induction promptItems as [|p l IH]; [reflexivity|].
  rewrite filter_cons. simpl. rewrite IH.
  destruct (accepts filter p) eqn:E.
  - apply accepts_spec in E. now rewrite decide_True.
  - rewrite decide_False; [reflexivity|].
    intros H. apply accepts_spec in H. congruence.
Qed.

(** The loop in closed form: the entries are those of the accepted
    candidates, in their order, on consecutive fresh objects, and the
    [WeakMap] has exactly these objects. *)
Lemma buildListItemsFromPromptItems_closed (promptItems : list PromptItem)
    (filter : string) (fresh0 : nat) :
  let matching := List.filter (accepts filter) promptItems in
  exists weakMap : gmap nat PromptItem,
    LocalFilterSource.buildListItemsFromPromptItems promptItems filter fresh0
    = (imap (fun i p => BaseSource.buildListItemElementFor p (fresh0 + i))
            matching,
       weakMap, fresh0 + length matching)
    /\ (forall i, weakMap !! (fresh0 + i) = matching !! i)
    /\ (forall k, k < fresh0 -> weakMap !! k = None).
Proof.
  unfold LocalFilterSource.buildListItemsFromPromptItems.
  induction promptItems as [|x l IH] using rev_ind; simpl.
  - exists ∅. rewrite Nat.add_0_r. repeat split; intros; apply lookup_empty.
  - destruct IH as (m & IH & Hm & Hlow).
    rewrite fold_left_app, IH, List.filter_app. simpl.
    fold (accepts filter x). destruct (accepts filter x).
    + exists (<[fresh0 + length (List.filter (accepts filter) l) := x]> m).
      rewrite imap_app, length_app. simpl.
      repeat split.
      * f_equal; [|lia]. now rewrite Nat.add_0_r.
      * intros i. set (n := length (List.filter (accepts filter) l)).
        destruct (decide (i = n)) as [->|Hi].
        -- rewrite lookup_insert_eq. subst n.
           now rewrite list_lookup_middle.
        -- rewrite lookup_insert_ne by lia. rewrite Hm.
           destruct (decide (i < n)).
           ++ now rewrite lookup_app_l.
           ++ rewrite !lookup_ge_None_2; [reflexivity | | ]; subst n.
              ** rewrite length_app; simpl; lia.
              ** lia.
      * intros k Hk. rewrite lookup_insert_ne by lia. now apply Hlow.
    + exists m. rewrite app_nil_r. repeat split; assumption.
Qed.

Lemma remote_buildListItemsFromPromptItems (promptItems : list PromptItem)
    (fresh0 : nat) :
  RemoteFilterSource.buildListItemsFromPromptItems promptItems fresh0
  = LocalFilterSource.buildListItemsFromPromptItems promptItems "" fresh0.
Proof.
  unfold RemoteFilterSource.buildListItemsFromPromptItems,
    LocalFilterSource.buildListItemsFromPromptItems.
  generalize (@nil ListItem, (∅ : gmap nat PromptItem), fresh0).
  induction promptItems as [|x l IH]; intros acc; simpl; [reflexivity|].
  now rewrite IH.
Qed.

(** What the entries resolve to, what they show and that they are
    distinct objects. *)
Lemma built_entries (matching : list PromptItem) (fresh0 : nat)
    (weakMap : gmap nat PromptItem) :
  (forall i, weakMap !! (fresh0 + i) = matching !! i) ->
  let listItems :=
    imap (fun i p => BaseSource.buildListItemElementFor p (fresh0 + i)) matching in
  (fun li => weakMap !! key li) <$> listItems = Some <$> matching
  /\ innerHTML <$> listItems = menuTemplate <$> matching
  /\ key <$> listItems = seq fresh0 (length matching)
  /\ Forall (fun li => isMenuItem li = true /\ ariaSelected li = false) listItems.
Proof.
  intros Hm listItems. subst listItems. repeat split.
  - apply list_eq. intros i.
    rewrite !list_lookup_fmap, list_lookup_imap.
    destruct (matching !! i) as [p|] eqn:E; simpl; [|reflexivity].
    now rewrite Hm, E.
  - apply list_eq. intros i.
    rewrite !list_lookup_fmap, list_lookup_imap.
    now destruct (matching !! i).
  - apply list_eq. intros i.
    rewrite list_lookup_fmap, list_lookup_imap.
    destruct (matching !! i) as [p|] eqn:E; simpl.
    + symmetry. apply lookup_seq. split; [reflexivity|].
      now apply lookup_lt_Some in E.
    + symmetry. apply lookup_ge_None_2. rewrite length_seq.
      now apply lookup_ge_None_1 in E.
  - apply Forall_forall. intros li Hin.
    apply list_elem_of_lookup in Hin as [i Hi].
    rewrite list_lookup_imap in Hi.
    destruct (matching !! i); simpl in Hi; [|discriminate].
    injection Hi as <-. split; reflexivity.
Qed.

Lemma promptItemFor_built (s : Source) (weakMap : gmap nat PromptItem)
    (listItems : list ListItem) (matching : list PromptItem) :
  promptItemByListItem s = Some weakMap ->
  (fun li => weakMap !! key li) <$> listItems = Some <$> matching ->
  (fun li => promptItemFor s (Some li)) <$> listItems
  = (Some ∘ Some) <$> matching.
Proof.
  intros Hs Hl. unfold promptItemFor. rewrite Hs. simpl.
  rewrite (list_fmap_compose Some Some), <- Hl, <- list_fmap_compose.
  reflexivity.
Qed.

(** C3. For every candidate set and every filter string, [buildListItems]
    of an Embedded or CachedRemote source returns one menu entry per
    candidate whose search key contains the filter case-insensitively, in
    the candidates' order, and nothing else: the entries resolve, one by
    one, to the matching candidates, they show these candidates' menu
    templates, and they are distinct elements. *)
Theorem local_filtering_exact (server : Request -> list PromptItem)
    (s : Source) (promptItems : list PromptItem) (filter : string)
    (fresh0 : nat) :
  localCandidates server s = Some promptItems ->
  let matching :=
    base.filter (fun p => containsIgnoringCase (search p) filter) promptItems in
  let '(listItems, s', _) := buildListItems server s filter fresh0 in
  (fun li => promptItemFor s' (Some li)) <$> listItems
  = (Some ∘ Some) <$> matching
  /\ innerHTML <$> listItems = menuTemplate <$> matching
  /\ NoDup (key <$> listItems).
Proof.
  intros Hs matching. subst matching. rewrite <- filter_accepts.
  destruct (buildListItemsFromPromptItems_closed promptItems filter fresh0)
    as (weakMap & E & Hm & _).
  destruct (built_entries _ fresh0 weakMap Hm) as (Hres & Hhtml & Hkeys & _).
  destruct s as [s|s|s]; simpl in Hs; [| |discriminate].
  - injection Hs as Hs. unfold buildListItems, InlinePromptSource.buildListItems,
      InlinePromptSource.fetchPromptItems. rewrite Hs, E.
    repeat split; [|exact Hhtml|rewrite Hkeys; apply NoDup_seq].
    now apply (promptItemFor_built _ weakMap).
  - assert (Hitems : match DeferredPromptSource.promptItems s with
                     | Some items => items
                     | None => server {| requestUrl := DeferredPromptSource.url s;
                                         requestFilter := None |}
                     end = promptItems)
      by (destruct (DeferredPromptSource.promptItems s); congruence).
    unfold buildListItems, DeferredPromptSource.buildListItems_resume.
    rewrite Hitems, E.
    repeat split; [|exact Hhtml|rewrite Hkeys; apply NoDup_seq].
    now apply (promptItemFor_built _ weakMap).
Qed.

Lemma local_filtering_exact_witness :
  let s := Inline (InlinePromptSource.new [john; joan; bob]) in
  localCandidates nobody s = Some [john; joan; bob]
  /\ (let '(listItems, s', _) := buildListItems nobody s "JO" 0 in
      (fun li => promptItemFor s' (Some li)) <$> listItems
      = (Some ∘ Some)
          <$> base.filter (fun p => containsIgnoringCase (search p) "JO")
                [john; joan; bob]
      /\ innerHTML <$> listItems
         = menuTemplate
             <$> base.filter (fun p => containsIgnoringCase (search p) "JO")
                   [john; joan; bob]
      /\ NoDup (key <$> listItems)).
Proof.
  split; [reflexivity|].
  exact (local_filtering_exact nobody
           (Inline (InlinePromptSource.new [john; joan; bob]))
           [john; joan; bob] "JO" 0 eq_refl).
Defined.

Example local_filtering_ex :
  (fst (fst (buildListItems nobody
               (Inline (InlinePromptSource.new [john; joan; bob])) "JO" 0)))
  = [BaseSource.buildListItemElementFor john 0;
     BaseSource.buildListItemElementFor joan 1].
Proof. reflexivity. Qed.

(** ** The element: what its methods keep and change *)

(** Projections of updated records. *)
Ltac setters :=
  cbn [set_source set_popoverElement set_keyListeners set_initialPrompt
       set_triggerListeners set_cursorPositionListener set_keydownListener
       set_changeListener set_hiding set_editor set_fresh set_focused
       set_children set_visible set_emptyClass set_anchored
       set_clippedAtBottom focus registerKeyListeners withDocument
       trigger name src remoteFiltering insertEditableText
       supportsSpaceInSearches emptyResults inlineItems source popoverElement
       keyListeners initialPrompt triggerListeners cursorPositionListener
       keydownListener changeListener hiding editor fresh
       nodes selection focused
       children visible emptyClass anchored clippedAtBottom
       mbind option_bind] in *.

Lemma sameEntry_map (h : ListItem -> ListItem) (l : list ListItem) :
  (forall li, sameEntry li (h li)) -> Forall2 sameEntry l (List.map h l).
Proof. intros H. induction l; simpl; constructor; auto. Qed.

Lemma sameEntry_keys (l l' : list ListItem) :
  Forall2 sameEntry l l' ->
  key <$> l' = key <$> l /\ innerHTML <$> l' = innerHTML <$> l.
Proof.
  induction 1 as [|a b l l' (Hk & _ & Hh & _) _ [IHk IHh]]; [done|].
  rewrite !fmap_cons. now rewrite Hk, Hh, IHk, IHh.
Qed.

Lemma sameEntry_isMenuItem (l l' : list ListItem) :
  Forall2 sameEntry l l' ->
  Forall (fun li => isMenuItem li = true) l ->
  Forall (fun li => isMenuItem li = true) l'.
Proof.
  induction 1 as [|a b l l' (_ & Hc & _) _ IH]; [done|].
  intros Hall. apply Forall_cons in Hall as [Ha Hall].
  constructor; [|auto]. unfold isMenuItem in *. now rewrite Hc.
Qed.

Lemma filter_all {A : Type} (f : A -> bool) (l : list A) :
  Forall (fun a => f a = true) l -> List.filter f l = l.
Proof.
  induction 1 as [|a l Ha _ IH]; [done|]. simpl. now rewrite Ha, IH.
Qed.

Lemma selectOption_spec (listItem : ListItem) (el : LexicalPromptElement)
    (p : Popover) :
  popoverElement el = Some p ->
  exists el' p',
    selectOption listItem el = Some el'
    /\ popoverElement el' = Some p'
    /\ visible p' = visible p
    /\ emptyClass p' = emptyClass p
    /\ Forall2 sameEntry (children p) (children p')
    /\ source el' = source el
    /\ sameDocument el el'
    /\ fresh el' = fresh el.
Proof.
  intros Hp. unfold selectOption, sameDocument, clearSelection.
  rewrite Hp. setters.
  eexists _, _. split; [reflexivity|]. setters.
  split_and!; try reflexivity. setters.
  rewrite List.map_map. apply sameEntry_map. intros a. unfold sameEntry.
  now destruct (key _ =? key listItem), (isMenuItem a).
Qed.

Lemma selectFirstOption_spec (el : LexicalPromptElement) (p : Popover) :
  popoverElement el = Some p ->
  exists el' p',
    selectFirstOption el = Some el'
    /\ popoverElement el' = Some p'
    /\ visible p' = visible p
    /\ emptyClass p' = emptyClass p
    /\ Forall2 sameEntry (children p) (children p')
    /\ source el' = source el
    /\ sameDocument el el'
    /\ fresh el' = fresh el.
Proof.
  intros Hp. unfold selectFirstOption. rewrite Hp. cbn [mbind option_bind].
  destruct (listItemElements p !! 0) as [firstOption|].
  - destruct (selectOption_spec firstOption el p Hp)
      as (el' & p' & E & ? & ? & ? & ? & ? & ? & ?).
    exists el', p'. now rewrite E.
  - exists el, p. unfold sameDocument. rewrite Hp. split_and!; try done.
    apply Forall2_same_length_lookup_2; [done|]. intros i a b Ha Hb.
    rewrite Ha in Hb. injection Hb as <-. now unfold sameEntry.
Qed.

Lemma hidePopover_spec (el : LexicalPromptElement) (p : Popover) :
  popoverElement el = Some p ->
  exists el' p',
    hidePopover el = Some el'
    /\ popoverElement el' = Some p'
    /\ visible p' = false
    /\ source el' = source el
    /\ editor el' = editor el
    /\ changeListener el' = false.
Proof.
  intros Hp. unfold hidePopover. rewrite Hp. setters.
  eexists _, _. split; [reflexivity|]. setters. now split_and!.
Qed.

Lemma showFilteredOptions_resume_spec (filteredListItems : list ListItem)
    (el : LexicalPromptElement) (p : Popover) :
  popoverElement el = Some p ->
  exists el' p',
    showFilteredOptions_resume filteredListItems el = Some el'
    /\ popoverElement el' = Some p'
    /\ visible p' = visible p
    /\ source el' = source el
    /\ sameDocument el el'.
Proof.
  intros Hp. unfold showFilteredOptions_resume, showResults, showEmptyResults.
  rewrite Hp. setters. destruct (0 <? length filteredListItems); setters.
  - match goal with |- context [selectFirstOption ?e] =>
      destruct (selectFirstOption_spec e _ eq_refl)
        as (el' & p' & E & ? & ? & _ & _ & ? & ? & _)
    end.
    exists el', p'. rewrite E. unfold sameDocument in *. setters.
    now split_and!.
  - match goal with |- context [selectFirstOption ?e] =>
      destruct (selectFirstOption_spec e _ eq_refl)
        as (el' & p' & E & ? & ? & _ & _ & ? & ? & _)
    end.
    exists el', p'. rewrite E. unfold sameDocument in *. setters.
    now split_and!.
Qed.

Lemma showFilteredOptions_spec (server : Request -> list PromptItem)
    (el : LexicalPromptElement) (p : Popover) :
  popoverElement el = Some p ->
  is_Some (source el) ->
  exists el' p',
    showFilteredOptions server el = Some el'
    /\ popoverElement el' = Some p'
    /\ visible p' = visible p
    /\ is_Some (source el')
    /\ sameDocument el el'.
Proof.
  intros Hp [s Hs]. unfold showFilteredOptions. rewrite Hs.
  cbn [mbind option_bind].
  destruct (buildListItems server s (currentFilter el) (fresh el))
    as [[listItems s'] fresh'].
  match goal with |- context [showFilteredOptions_resume ?l ?e] =>
    destruct (showFilteredOptions_resume_spec l e p Hp)
      as (el' & p' & E & ? & ? & Hs' & ?)
  end.
  exists el', p'. rewrite E. split_and!; try done.
  rewrite Hs'. setters. eauto.
Qed.



(** ** The parts of [#showPopover()] and their run

    The parts run one behind the other do what the method does when
    nothing comes in between. *)
Lemma showPopover_fulfilled_finish (server : Request -> list PromptItem)
    (n : nat) (el : LexicalPromptElement) :
  (state ← showPopover_finish el; showPopover_fulfilled server n state)
  = fst <$> showPopover_finish el.
Proof.
  unfold showPopover_finish.
  destruct (popoverElement el) as [p|]; [|reflexivity].
  cbn [mbind option_bind].
  destruct (selectFirstOption _) as [el'|]; [|reflexivity].
  now destruct n.
Qed.

Lemma showPopover_fulfilled_S (server : Request -> list PromptItem)
    (n : nat) (el : LexicalPromptElement) (suspension : Suspension) :
  showPopover_fulfilled server (S n) (el, Suspended suspension)
  = (state ← showPopover_resume server suspension Fulfilled el;
     showPopover_fulfilled server n state).
Proof. reflexivity. Qed.

Lemma showPopover_built_fulfilled (server : Request -> list PromptItem)
    (n : nat) (el : LexicalPromptElement) :
  (state ← showPopover_built el;
   showPopover_fulfilled server (S (S (S n))) state)
  = (el ← resetPopoverPosition el;
     el ← filterOptions server el;
     fst <$> showPopover_finish el).
Proof.
  unfold showPopover_built.
  destruct (resetPopoverPosition el) as [el1|]; [|reflexivity].
  cbn [mbind option_bind].
  unfold filterOptions_call, filterOptions.
  destruct (initialPrompt el1).
  - cbn [mbind option_bind]. rewrite showPopover_fulfilled_S.
    cbn [showPopover_resume]. apply showPopover_fulfilled_finish.
  - destruct (Contents.containsTextBackUntil (editor el1) (trigger el1)).
    + unfold showFilteredOptions.
      destruct (source el1) as [s|] eqn:Hs; [|reflexivity].
      cbn [mbind option_bind]. rewrite showPopover_fulfilled_S.
      cbn [showPopover_resume]. rewrite Hs. cbn [mbind option_bind].
      destruct (buildListItems server s (currentFilter el1) (fresh el1))
        as [[filteredListItems s'] fresh'].
      destruct (showFilteredOptions_resume _ _) as [el2|]; [|reflexivity].
      cbn [mbind option_bind]. rewrite showPopover_fulfilled_S.
      cbn [showPopover_resume mbind option_bind].
      rewrite showPopover_fulfilled_S. cbn [showPopover_resume].
      apply showPopover_fulfilled_finish.
    + destruct (hidePopover el1) as [el2|]; [|reflexivity].
      cbn [mbind option_bind]. rewrite showPopover_fulfilled_S.
      cbn [showPopover_resume]. apply showPopover_fulfilled_finish.
Qed.

Lemma showPopover_atomic (server : Request -> list PromptItem)
    (el : LexicalPromptElement) :
  showPopover server el
  = (el ← match popoverElement el with
          | Some _ => Some el
          | None => buildPopover server el
          end;
     el ← resetPopoverPosition el;
     el ← filterOptions server el;
     p ← popoverElement el;
     let el := set_popoverElement el (Some (set_visible p true)) in
     el ← selectFirstOption el;
     let el := set_keydownListener el true in
     let el := set_changeListener el true in
     let el := registerKeyListeners el in
     Some (set_cursorPositionListener el true)).
Proof.
  assert (Hfinish : forall el,
             fst <$> showPopover_finish el
             = (p ← popoverElement el;
                let el := set_popoverElement el (Some (set_visible p true)) in
                el ← selectFirstOption el;
                let el := set_keydownListener el true in
                let el := set_changeListener el true in
                let el := registerKeyListeners el in
                Some (set_cursorPositionListener el true))).
  { intros el0. unfold showPopover_finish.
    destruct (popoverElement el0) as [p|]; [|reflexivity].
    cbn [mbind option_bind].
    now destruct (selectFirstOption _). }
  unfold showPopover, showPopover_call.
  destruct (popoverElement el) as [p|] eqn:Hp.
  - cbn [mbind option_bind].
    rewrite (showPopover_built_fulfilled server 1 el).
    destruct (resetPopoverPosition el) as [el1|]; [|reflexivity].
    cbn [mbind option_bind].
    destruct (filterOptions server el1) as [el2|]; [|reflexivity].
    cbn [mbind option_bind]. apply Hfinish.
  - destruct (source el) as [s|] eqn:Hs.
    + cbn [mbind option_bind]. rewrite showPopover_fulfilled_S.
      cbn [showPopover_resume].
      destruct (buildPopover server el) as [el1|]; [|reflexivity].
      cbn [mbind option_bind].
      rewrite (showPopover_built_fulfilled server 0 el1).
      destruct (resetPopoverPosition el1) as [el2|]; [|reflexivity].
      cbn [mbind option_bind].
      destruct (filterOptions server el2) as [el3|]; [|reflexivity].
      cbn [mbind option_bind]. apply Hfinish.
    + cbn [mbind option_bind]. unfold buildPopover. now rewrite Hs.
Qed.


(** ** The trigger watcher *)









(** "hello @" opens a session, "email@" does not. *)
Example trigger_after_space :
  open <$> documentChange nobody [TextNode "hello @"] (Some (0, 7))
             (mentions [TextNode "hello "] (Some (0, 6)))
  = Some true.
Proof. reflexivity. Qed.

Example trigger_inside_word :
  documentChange nobody [TextNode "email@"] (Some (0, 6))
    (mentions [TextNode "email"] (Some (0, 5)))
  = Some (mentions [TextNode "email@"] (Some (0, 6))).
Proof. reflexivity. Qed.

(** ** Rendering the results *)

(** What [#showFilteredOptions()] renders: one entry with the message
    when there is nothing, the given entries otherwise. *)
Lemma showFilteredOptions_resume_rendered (el : LexicalPromptElement)
    (p : Popover) (filteredListItems : list ListItem) :
  popoverElement el = Some p ->
  Forall (fun li => isMenuItem li = true) filteredListItems ->
  exists el' p',
    showFilteredOptions_resume filteredListItems el = Some el'
    /\ popoverElement el' = Some p'
    /\ source el' = source el
    /\ visible p' = visible p
    /\ match filteredListItems with
       | [] =>
           children p'
           = [{| key := fresh el; role := None;
                 classList := ["lexxy-prompt-menu__item--empty"];
                 innerHTML := emptyResultsMessage el;
                 ariaSelected := false |}]
           /\ emptyClass p' = true
           /\ fresh el' = S (fresh el)
       | _ :: _ =>
           Forall2 sameEntry filteredListItems (children p')
           /\ emptyClass p' = false
           /\ fresh el' = fresh el
       end.
Proof.
  intros Hp Hitems. destruct filteredListItems as [|a l].
  - unfold showFilteredOptions_resume, showEmptyResults. rewrite Hp. setters.
    change (0 <? length []) with false. cbv iota. setters.
    eexists _, _. split; [reflexivity|]. setters. now split_and!.
  - unfold showFilteredOptions_resume, showResults. rewrite Hp. setters.
    change (0 <? length (a :: l)) with true. cbv iota. setters.
    match goal with |- context [selectFirstOption ?e] =>
      destruct (selectFirstOption_spec e _ eq_refl)
        as (el' & p' & E & Hp' & Hv & Hempty & Hsame & Hs & _ & Hf)
    end.
    setters. exists el', p'. rewrite E. now split_and!.
Qed.



Example nothing_found_ex :
  (children <$> (showFilteredOptions_resume [] mentioning ≫= popoverElement))
  = Some [{| key := 6; role := None;
             classList := ["lexxy-prompt-menu__item--empty"];
             innerHTML := "Nothing found"; ariaSelected := false |}].
Proof. reflexivity. Qed.

(** ** Committing *)

(** Replacing the trigger and the filter: the text before the cursor
    ends with them, and they are what goes. *)
Lemma replaceTextBackUntil_trigger (ed : Editor) (i offset : nat)
    (text trig : string) (replacement : list LexicalNode) :
  selection ed = Some (i, offset) ->
  nodes ed !! i = Some (TextNode text) ->
  JsString.includes (JsString.take offset text) trig = true ->
  exists before,
    JsString.take offset text
    = before +:+ trig +:+ Contents.textBackUntil ed trig
    /\ nodes (Contents.replaceTextBackUntil ed
                (trig +:+ Contents.textBackUntil ed trig) replacement)
       = take i (nodes ed)
         ++ [TextNode before] ++ replacement
         ++ [TextNode (Contents.textAfter replacement
                         (JsString.drop offset text)).1]
         ++ drop (S i) (nodes ed).
Proof.
  intros Hsel Hnode Hinc.
  destruct (lastIndexOf_is_Some _ _ Hinc) as [j Hj].
  pose proof (lastIndexOf_Some _ _ _ Hj) as Hsplit.
  pose proof (lastIndexOf_le _ _ _ Hj) as Hle.
  pose proof (length_take offset text) as Hlen.
  assert (Hfilter : Contents.textBackUntil ed trig
                    = JsString.drop (j + String.length trig)
                        (JsString.take offset text)).
  { unfold Contents.textBackUntil, Contents.textBeforeCursor,
      Contents.selectedNodeWithOffset.
    now rewrite Hsel, Hnode, Hj. }
  assert (Hpre : JsString.take j (JsString.take offset text)
                 = JsString.take j text) by (apply take_take; lia).
  exists (JsString.take j text). split.
  - now rewrite Hfilter, <- Hpre.
  - unfold Contents.replaceTextBackUntil. rewrite Hsel, Hnode, Hfilter.
    assert (Hlast : JsString.lastIndexOf (JsString.take offset text)
                      (trig +:+ JsString.drop (j + String.length trig)
                                  (JsString.take offset text))
                    = Some j).
    { rewrite <- Hsplit at 1. rewrite lastIndexOf_suffix, length_take.
      f_equal. lia. }
    now rewrite Hlast.
Qed.

(** The text behind a reference node begins with one space: the one
    that was there, or the one that is put in; when nothing followed the
    cursor it is the space alone. *)
Lemma separated_startsWith (following : string) :
  JsString.startsWith (Contents.separated following) " " = true.
Proof.
  unfold Contents.separated.
  destruct (JsString.startsWith following " ") eqn:E; [exact E|].
  reflexivity.
Qed.

Lemma separated_alone : Contents.separated "" = " ".
Proof. reflexivity. Qed.

Lemma separated_once (following : string) :
  Contents.separated (Contents.separated following)
  = Contents.separated following.
Proof.
  unfold Contents.separated at 1. now rewrite separated_startsWith.
Qed.

(** A commit in reference-node mode, on a selected entry that the source
    resolves: the trigger and the filter before the cursor give way to
    one attachment node made from the candidate, with one space between
    the node and the text behind the cursor; the popover is hidden and
    the editor has the focus. *)
Lemma commit_attachment (el : LexicalPromptElement) (p : Popover) (s : Source)
    (weakMap : gmap nat PromptItem) (li : ListItem) (promptItem : PromptItem)
    (i offset : nat) (text : string) :
  popoverElement el = Some p ->
  source el = Some s ->
  promptItemByListItem s = Some weakMap ->
  selectedListItem p = Some li ->
  weakMap !! key li = Some promptItem ->
  insertEditableText el = false ->
  selection (editor el) = Some (i, offset) ->
  nodes (editor el) !! i = Some (TextNode text) ->
  JsString.includes (JsString.take offset text) (trigger el) = true ->
  exists el' before,
    optionWasSelected el = Some el'
    /\ JsString.take offset text = before +:+ trigger el +:+ currentFilter el
    /\ nodes (editor el')
       = take i (nodes (editor el))
         ++ [TextNode before;
             AttachmentNode
               {| CustomActionTextAttachmentNode.sgid := sgid promptItem;
                  CustomActionTextAttachmentNode.contentType :=
                    "application/vnd.actiontext." +:+ nameString el;
                  CustomActionTextAttachmentNode.innerHtml :=
                    editorTemplate promptItem |};
             TextNode (Contents.separated (JsString.drop offset text))]
         ++ drop (S i) (nodes (editor el))
    /\ open el' = false
    /\ focused (editor el') = true.
Proof.
  intros Hp Hs Hmap Hsel Hli Hmode Hcursor Hnode Hinc.
  destruct (replaceTextBackUntil_trigger (editor el) i offset text (trigger el)
              [AttachmentNode
                 (CustomActionTextAttachmentNode.new (sgid promptItem)
                    ("application/vnd.actiontext." +:+ nameString el)
                    (editorTemplate promptItem))]
              Hcursor Hnode Hinc) as (before & Hbefore & Hnodes).
  unfold optionWasSelected, replaceTriggerWithSelectedItem, promptItemFor.
  rewrite Hp, Hs. cbn [mbind option_bind]. rewrite Hmap, Hsel.
  cbn [mbind option_bind]. rewrite Hli, Hmode.
  unfold insertTemplateAsAttachment. cbn [mbind option_bind].
  match goal with |- context [hidePopover ?e] =>
    destruct (hidePopover_spec e p Hp)
      as (el' & p' & E & Hp' & Hv & _ & Hed & _)
  end.
  rewrite E. cbn [mbind option_bind]. exists (focus el'), before.
  split; [reflexivity|]. split; [exact Hbefore|].
  unfold open, focus. setters. rewrite Hp', Hed. setters.
  split; [|now split]. unfold currentFilter. rewrite Hnodes. reflexivity.
Qed.

Lemma selectedPromptItem_Some (el : LexicalPromptElement)
    (promptItem : PromptItem) :
  selectedPromptItem el = Some (Some promptItem) ->
  exists p s weakMap li,
    popoverElement el = Some p
    /\ source el = Some s
    /\ promptItemByListItem s = Some weakMap
    /\ selectedListItem p = Some li
    /\ weakMap !! key li = Some promptItem.
Proof.
  unfold selectedPromptItem, promptItemFor.
  destruct (popoverElement el) as [p|]; [|discriminate].
  destruct (source el) as [s|]; [|discriminate]. cbn [mbind option_bind].
  destruct (promptItemByListItem s) as [weakMap|] eqn:Hmap; [|discriminate].
  cbn [mbind option_bind].
  destruct (selectedListItem p) as [li|] eqn:Hli; [|discriminate].
  cbn [mbind option_bind]. intros [= H]. exists p, s, weakMap, li.
  split_and!; done.
Qed.

Lemma dispatchCommand_commit (command : Command) (el : LexicalPromptElement) :
  command ∈ [KEY_ENTER_COMMAND; KEY_TAB_COMMAND; KEY_SPACE_COMMAND] ->
  command ∈ keyListeners el ->
  dispatchCommand command el = optionWasSelected el.
Proof.
  intros Hcommit Hregistered. unfold dispatchCommand.
  rewrite bool_decide_eq_true_2 by exact Hregistered.
  destruct command; try reflexivity; exfalso;
    repeat (apply elem_of_cons in Hcommit as [Hcommit|Hcommit];
            [discriminate|]);
    now apply elem_of_nil in Hcommit.
Qed.

(** C6. Committing, in the default mode, a candidate with a reference
    identifier: the trigger and the filter just before the cursor are
    removed from the text and, in their place, exactly one attachment node
    is inserted, which carries the identifier and has the candidate's
    editor template as its content; the text before the trigger is kept,
    the text behind the cursor follows the node behind one space
    ([Contents.separated]: a lone space when nothing followed), and the
    rest of the document is as before. Enter, when the element listens
    to it, commits in this way. *)
Theorem commit_inserts_reference_node (el : LexicalPromptElement)
    (promptItem : PromptItem) (referenceId : string) (i offset : nat)
    (text : string) :
  selectedPromptItem el = Some (Some promptItem) ->
  sgid promptItem = Some referenceId ->
  insertEditableText el = false ->
  selection (editor el) = Some (i, offset) ->
  nodes (editor el) !! i = Some (TextNode text) ->
  JsString.includes (JsString.take offset text) (trigger el) = true ->
  exists el' before node,
    optionWasSelected el = Some el'
    /\ (KEY_ENTER_COMMAND ∈ keyListeners el ->
        dispatchCommand KEY_ENTER_COMMAND el = Some el')
    /\ JsString.take offset text = before +:+ trigger el +:+ currentFilter el
    /\ nodes (editor el')
       = take i (nodes (editor el))
         ++ [TextNode before; AttachmentNode node;
             TextNode (Contents.separated (JsString.drop offset text))]
         ++ drop (S i) (nodes (editor el))
    /\ CustomActionTextAttachmentNode.sgid node = Some referenceId
    /\ CustomActionTextAttachmentNode.innerHtml node = editorTemplate promptItem.
Proof.
  intros Hselected Hsgid Hmode Hcursor Hnode Hinc.
  destruct (selectedPromptItem_Some el promptItem Hselected)
    as (p & s & weakMap & li & Hp & Hs & Hmap & Hli & Hitem).
  destruct (commit_attachment el p s weakMap li promptItem i offset text
              Hp Hs Hmap Hli Hitem Hmode Hcursor Hnode Hinc)
    as (el' & before & E & Hbefore & Hnodes & _).
  eexists el', before, _. split_and!; [exact E| |exact Hbefore|exact Hnodes| |].
  - intros Hregistered.
    rewrite dispatchCommand_commit; [exact E| |exact Hregistered].
    apply elem_of_cons. now left.
  - exact Hsgid.
  - reflexivity.
Qed.

Lemma commit_inserts_reference_node_witness :
  selectedPromptItem mentioningJoh = Some (Some john)
  /\ sgid john = Some "R1"
  /\ insertEditableText mentioningJoh = false
  /\ selection (editor mentioningJoh) = Some (0, 10)
  /\ nodes (editor mentioningJoh) !! 0 = Some (TextNode "hello @joh")
  /\ JsString.includes (JsString.take 10 "hello @joh") (trigger mentioningJoh)
     = true
  /\ exists el' before node,
       optionWasSelected mentioningJoh = Some el'
       /\ (KEY_ENTER_COMMAND ∈ keyListeners mentioningJoh ->
           dispatchCommand KEY_ENTER_COMMAND mentioningJoh = Some el')
       /\ JsString.take 10 "hello @joh"
          = before +:+ trigger mentioningJoh +:+ currentFilter mentioningJoh
       /\ nodes (editor el')
          = take 0 (nodes (editor mentioningJoh))
            ++ [TextNode before; AttachmentNode node;
                TextNode
                  (Contents.separated (JsString.drop 10 "hello @joh"))]
            ++ drop 1 (nodes (editor mentioningJoh))
       /\ CustomActionTextAttachmentNode.sgid node = Some "R1"
       /\ CustomActionTextAttachmentNode.innerHtml node = editorTemplate john.
Proof.
  split_and!; try reflexivity.
  exact (commit_inserts_reference_node mentioningJoh john "R1" 0 10
           "hello @joh" eq_refl eq_refl eq_refl eq_refl eq_refl eq_refl).
Defined.

(** "hello @joh", Enter: "@joh" is gone and John's node is there. *)
Example commit_ex :
  (fun el => nodes (editor el))
    <$> dispatchCommand KEY_ENTER_COMMAND mentioningJoh
  = Some [TextNode "hello ";
          AttachmentNode
            {| CustomActionTextAttachmentNode.sgid := Some "R1";
               CustomActionTextAttachmentNode.contentType :=
                 "application/vnd.actiontext.mention";
               CustomActionTextAttachmentNode.innerHtml := "<em>John Doe</em>" |};
          TextNode " "].
Proof. reflexivity. Qed.

(** C5, as the code has it. In reference-node mode a candidate without
    [sgid] is committed like any other: the trigger and the filter are
    replaced with one attachment node, whose [sgid] is [null], followed
    by the space that separates a reference node from the text behind
    it, and the session closes (the popover is hidden, the editor has
    the focus). *)
Theorem commit_without_sgid (el : LexicalPromptElement)
    (promptItem : PromptItem) (i offset : nat) (text : string) :
  selectedPromptItem el = Some (Some promptItem) ->
  sgid promptItem = None ->
  insertEditableText el = false ->
  selection (editor el) = Some (i, offset) ->
  nodes (editor el) !! i = Some (TextNode text) ->
  JsString.includes (JsString.take offset text) (trigger el) = true ->
  exists el' before node,
    optionWasSelected el = Some el'
    /\ JsString.take offset text = before +:+ trigger el +:+ currentFilter el
    /\ nodes (editor el')
       = take i (nodes (editor el))
         ++ [TextNode before; AttachmentNode node;
             TextNode (Contents.separated (JsString.drop offset text))]
         ++ drop (S i) (nodes (editor el))
    /\ CustomActionTextAttachmentNode.sgid node = None
    /\ CustomActionTextAttachmentNode.innerHtml node = editorTemplate promptItem
    /\ open el' = false
    /\ focused (editor el') = true.
Proof.
  intros Hselected Hsgid Hmode Hcursor Hnode Hinc.
  destruct (selectedPromptItem_Some el promptItem Hselected)
    as (p & s & weakMap & li & Hp & Hs & Hmap & Hli & Hitem).
  destruct (commit_attachment el p s weakMap li promptItem i offset text
              Hp Hs Hmap Hli Hitem Hmode Hcursor Hnode Hinc)
    as (el' & before & E & Hbefore & Hnodes & Hclosed & Hfocus).
  eexists el', before, _.
  split_and!; [exact E|exact Hbefore|exact Hnodes|exact Hsgid|reflexivity
              |exact Hclosed|exact Hfocus].
Qed.

Lemma commit_without_sgid_witness :
  selectedPromptItem mentioningJoan = Some (Some joan)
  /\ sgid joan = None
  /\ insertEditableText mentioningJoan = false
  /\ selection (editor mentioningJoan) = Some (0, 7)
  /\ nodes (editor mentioningJoan) !! 0 = Some (TextNode "hello @")
  /\ JsString.includes (JsString.take 7 "hello @") (trigger mentioningJoan)
     = true
  /\ exists el' before node,
       optionWasSelected mentioningJoan = Some el'
       /\ JsString.take 7 "hello @"
          = before +:+ trigger mentioningJoan +:+ currentFilter mentioningJoan
       /\ nodes (editor el')
          = take 0 (nodes (editor mentioningJoan))
            ++ [TextNode before; AttachmentNode node;
                TextNode
                  (Contents.separated (JsString.drop 7 "hello @"))]
            ++ drop 1 (nodes (editor mentioningJoan))
       /\ CustomActionTextAttachmentNode.sgid node = None
       /\ CustomActionTextAttachmentNode.innerHtml node = editorTemplate joan
       /\ open el' = false
       /\ focused (editor el') = true.
Proof.
  split_and!; try reflexivity.
  exact (commit_without_sgid mentioningJoan joan 0 7 "hello @"
           eq_refl eq_refl eq_refl eq_refl eq_refl eq_refl).
Defined.

(** C5 as the spec states it fails: Joan has no [sgid], the mode is
    reference-node, and committing her changes the document: an
    attachment node is inserted. *)
Lemma commit_without_sgid_inserts :
  selectedPromptItem mentioningJoan = Some (Some joan)
  /\ sgid joan = None
  /\ insertEditableText mentioningJoan = false
  /\ nodes (editor mentioningJoan) = [TextNode "hello @"]
  /\ (fun el => nodes (editor el)) <$> optionWasSelected mentioningJoan
     = Some [TextNode "hello ";
             AttachmentNode
               {| CustomActionTextAttachmentNode.sgid := None;
                  CustomActionTextAttachmentNode.contentType :=
                    "application/vnd.actiontext.mention";
                  CustomActionTextAttachmentNode.innerHtml :=
                    "<em>Joan Roe</em>" |};
             TextNode " "]
  /\ ~ (exists el',
          optionWasSelected mentioningJoan = Some el'
          /\ nodes (editor el') = nodes (editor mentioningJoan)).
Proof.
  split_and!; try reflexivity.
  intros (el' & E & Hnodes).
  assert (H : (fun el => nodes (editor el)) <$> optionWasSelected mentioningJoan
              = Some (nodes (editor mentioningJoan)))
    by (rewrite E; simpl; now rewrite Hnodes).
  vm_compute in H. discriminate.
Qed.

(** C10, as the code has it. When Enter, Tab or Space (a key the
    element listens to) is pressed while no menu item is selected, as when
    only the "no results" entry is displayed, the source yields no prompt
    item and nothing is inserted: the document is unchanged, the popover
    is hidden and the editor has the focus. A click on an entry that is
    not a menu item is ignored. *)
Theorem commit_without_selection (el : LexicalPromptElement)
    (command : Command) :
  is_Some (popoverElement el) ->
  is_Some (source el ≫= promptItemByListItem) ->
  popoverElement el ≫= selectedListItem = None ->
  command ∈ [KEY_ENTER_COMMAND; KEY_TAB_COMMAND; KEY_SPACE_COMMAND] ->
  command ∈ keyListeners el ->
  selectedPromptItem el = Some None
  /\ (exists el',
        dispatchCommand command el = Some el'
        /\ nodes (editor el') = nodes (editor el)
        /\ selection (editor el') = selection (editor el)
        /\ open el' = false
        /\ focused (editor el') = true)
  /\ (forall target,
        isMenuItem target = false -> handlePopoverClick target el = Some el).
Proof.
  intros [p Hp] [weakMap Hmap] Hnone Hcommit Hregistered.
  rewrite Hp in Hnone. cbn [mbind option_bind] in Hnone.
  destruct (source el) as [s|] eqn:Hs; [|discriminate].
  cbn [mbind option_bind] in Hmap.
  assert (Hitem : selectedPromptItem el = Some None).
  { unfold selectedPromptItem, promptItemFor. rewrite Hp, Hs.
    cbn [mbind option_bind]. now rewrite Hmap, Hnone. }
  split; [exact Hitem|].
  split; [|intros target Htarget; unfold handlePopoverClick;
           now rewrite Htarget].
  rewrite (dispatchCommand_commit command el Hcommit Hregistered).
  unfold optionWasSelected, replaceTriggerWithSelectedItem.
  unfold selectedPromptItem in Hitem. rewrite Hp, Hs in *.
  cbn [mbind option_bind] in *. rewrite Hitem. cbn [mbind option_bind].
  destruct (hidePopover_spec el p Hp)
    as (el' & p' & E & Hp' & Hv & _ & Hed & _).
  rewrite E. cbn [mbind option_bind]. exists (focus el').
  unfold open, focus. setters. rewrite Hp', Hed. now split_and!.
Qed.

Lemma commit_without_selection_witness :
  is_Some (popoverElement mentioningNobody)
  /\ is_Some (source mentioningNobody ≫= promptItemByListItem)
  /\ popoverElement mentioningNobody ≫= selectedListItem = None
  /\ KEY_ENTER_COMMAND
       ∈ [KEY_ENTER_COMMAND; KEY_TAB_COMMAND; KEY_SPACE_COMMAND]
  /\ KEY_ENTER_COMMAND ∈ keyListeners mentioningNobody
  /\ selectedPromptItem mentioningNobody = Some None
  /\ (exists el',
        dispatchCommand KEY_ENTER_COMMAND mentioningNobody = Some el'
        /\ nodes (editor el') = nodes (editor mentioningNobody)
        /\ selection (editor el') = selection (editor mentioningNobody)
        /\ open el' = false
        /\ focused (editor el') = true)
  /\ (forall target,
        isMenuItem target = false ->
        handlePopoverClick target mentioningNobody = Some mentioningNobody).
Proof.
  assert (H1 : is_Some (popoverElement mentioningNobody))
    by (eexists; reflexivity).
  assert (H2 : is_Some (source mentioningNobody ≫= promptItemByListItem))
    by (eexists; reflexivity).
  assert (H3 : KEY_ENTER_COMMAND
                 ∈ [KEY_ENTER_COMMAND; KEY_TAB_COMMAND; KEY_SPACE_COMMAND])
    by (apply elem_of_cons; now left).
  assert (H4 : KEY_ENTER_COMMAND ∈ keyListeners mentioningNobody)
    by (apply elem_of_cons; now left).
  exact (conj H1 (conj H2 (conj eq_refl (conj H3 (conj H4
           (commit_without_selection mentioningNobody KEY_ENTER_COMMAND
              H1 H2 eq_refl H3 H4)))))).
Defined.

(** C10 as the spec states it fails for the click: with only the "no
    results" entry displayed, and so nothing selected, a click on that
    entry is ignored by [#handlePopoverClick]; nothing changes and the
    popover stays open. *)
Lemma click_on_empty_entry_keeps_popover_open :
  let entry := {| key := 6; role := None;
                  classList := ["lexxy-prompt-menu__item--empty"];
                  innerHTML := "Nothing found"; ariaSelected := false |} in
  children <$> popoverElement mentioningNobody = Some [entry]
  /\ popoverElement mentioningNobody ≫= selectedListItem = None
  /\ handlePopoverClick entry mentioningNobody = Some mentioningNobody
  /\ open mentioningNobody = true
  /\ ~ (exists el',
          handlePopoverClick entry mentioningNobody = Some el'
          /\ open el' = false).
Proof.
  intros entry. split_and!; try reflexivity.
  intros (el' & [= <-] & Hopen). discriminate.
Qed.

(** ** Following the cursor *)

(** C7, as the code has it. While a session is open, after a change of
    the document that leaves the cursor in a text node, behind an
    occurrence of the trigger character, the session stays open and the
    results are filtered again, with the text between the last trigger
    character before the cursor and the cursor as the filter. When the
    cursor is not in a text node, or is at offset 0, or has no trigger
    character before it in its node, the session closes. *)
Theorem session_follows_cursor (server : Request -> list PromptItem)
    (el : LexicalPromptElement) (triggerChar : ascii)
    (newNodes : list LexicalNode) (i offset : nat) (node : LexicalNode) :
  trigger el = String triggerChar "" ->
  open el = true ->
  is_Some (source el) ->
  triggerListeners el = 0 ->
  cursorPositionListener el = true ->
  changeListener el = true ->
  initialPrompt el = false ->
  newNodes !! i = Some node ->
  let el1 := withDocument newNodes (Some (i, offset)) el in
  (forall text,
      node = TextNode text ->
      0 < offset ->
      JsString.includes (JsString.take offset text) (trigger el) = true ->
      exists el' before,
        documentChange server newNodes (Some (i, offset)) el = Some el'
        /\ showFilteredOptions server el1 = Some el'
        /\ open el' = true
        /\ JsString.take offset text
           = before +:+ trigger el +:+ currentFilter el1
        /\ JsString.includes (currentFilter el1) (trigger el) = false)
  /\ ((forall text, node <> TextNode text)
      \/ offset = 0
      \/ (exists text,
            node = TextNode text
            /\ JsString.includes (JsString.take offset text) (trigger el)
               = false) ->
      exists el',
        documentChange server newNodes (Some (i, offset)) el = Some el'
        /\ open el' = false).
Proof.
  intros Ht Hopen Hs Hlisteners Hcursor Hchange Hinitial Hnode el1.
  unfold open in Hopen.
  destruct (popoverElement el) as [p|] eqn:Hp; [|discriminate].
  assert (Hp1 : popoverElement el1 = Some p) by exact Hp.
  assert (Hnotclosed : closed el1 = false)
    by (unfold closed, open; now rewrite Hp1, Hopen).
  assert (Hsel : Contents.selectedNodeWithOffset (editor el1)
                 = Some (node, offset)).
  { unfold Contents.selectedNodeWithOffset, el1. setters. now rewrite Hnode. }
  assert (Hupdate : update server el1 = cursorPositionChanged el1).
  { unfold update. change (triggerListeners el1) with (triggerListeners el).
    change (cursorPositionListener el1) with (cursorPositionListener el).
    now rewrite Hlisteners, Hcursor. }
  assert (Hhide : exists el',
             hidePopover el1 = Some el' /\ open el' = false
             /\ changeListener el' = false).
  { destruct (hidePopover_spec el1 p Hp1)
      as (el' & p' & E & Hp' & Hv & _ & _ & Hc).
    exists el'. unfold open. now rewrite Hp'. }
  unfold documentChange. fold el1. rewrite Hchange, Hupdate.
  unfold cursorPositionChanged. rewrite Hnotclosed, Hsel. split.
  - intros text -> Hpos Hinc. apply Nat.ltb_lt in Hpos. rewrite Hpos.
    change (trigger el1) with (trigger el).
    destruct (lastIndexOf_is_Some _ _ Hinc) as [j Hj]. rewrite Hj.
    pose proof (lastIndexOf_le _ _ _ Hj) as Hle.
    pose proof (length_take offset text) as Hlen.
    assert (Hlt : (offset <=? j) = false).
    { apply Nat.leb_gt. rewrite Ht in Hle. simpl in Hle. lia. }
    rewrite Hlt. cbn [mbind option_bind].
    unfold change. change (changeListener el1) with (changeListener el).
    rewrite Hchange. unfold filterOptions.
    change (initialPrompt el1) with (initialPrompt el). rewrite Hinitial.
    assert (Hfilter : currentFilter el1
                      = JsString.drop (j + String.length (trigger el))
                          (JsString.take offset text)).
    { unfold currentFilter, Contents.textBackUntil, Contents.textBeforeCursor.
      rewrite Hsel. change (trigger el1) with (trigger el). now rewrite Hj. }
    assert (Hcontains : Contents.containsTextBackUntil (editor el1) (trigger el1)
                        = true).
    { unfold Contents.containsTextBackUntil, Contents.textBeforeCursor.
      now rewrite Hsel. }
    rewrite Hcontains.
    destruct (showFilteredOptions_spec server el1 p Hp1 Hs)
      as (el' & p' & E & Hp' & Hv & _ & _).
    exists el', (JsString.take j (JsString.take offset text)).
    split_and!; try exact E.
    + unfold open. now rewrite Hp', Hv.
    + rewrite Hfilter. symmetry. now apply lastIndexOf_Some.
    + rewrite Hfilter. apply lastIndexOf_rest; [|exact Hj].
      now rewrite Ht.
  - destruct Hhide as (el' & E & Hclosed & Hc).
    assert (Hdone : (hidePopover el1
                     ≫= fun el => if true then change server el else Some el)
                    = Some el').
    { rewrite E. cbn [mbind option_bind]. unfold change. now rewrite Hc. }
    intros [Hother | [-> | (text & -> & Hinc)]].
    + exists el'. split; [|exact Hclosed]. rewrite <- Hdone.
      destruct node as [text| | |]; try reflexivity.
      now destruct (Hother text).
    + exists el'. split; [|exact Hclosed]. rewrite <- Hdone.
      now destruct node.
    + exists el'. split; [|exact Hclosed]. rewrite <- Hdone.
      change (trigger el1) with (trigger el).
      destruct (0 <? offset); [|reflexivity].
      destruct (JsString.lastIndexOf (JsString.take offset text) (trigger el))
        as [j|] eqn:Hj; [|reflexivity].
      apply lastIndexOf_includes in Hj. congruence.
Qed.

(** The trigger that counts is the last one before the cursor, not the
    one that opened the session: in "a@b hello @" the session opened at
    the second "@" goes on with the filter "b" when the cursor is put
    behind "a@b". *)
Example cursor_behind_earlier_trigger :
  (fun el => (open el, currentFilter el))
    <$> (triggerListener nobody
           (mentions [TextNode "a@b hello @"] (Some (0, 11)))
         ≫= documentChange nobody [TextNode "a@b hello @"] (Some (0, 3)))
  = Some (true, "b").
Proof. reflexivity. Qed.

Lemma session_follows_cursor_witness :
  let el1 := withDocument [TextNode "hello @jo"] (Some (0, 9)) mentioning in
  trigger mentioning = "@"
  /\ open mentioning = true
  /\ is_Some (source mentioning)
  /\ triggerListeners mentioning = 0
  /\ cursorPositionListener mentioning = true
  /\ changeListener mentioning = true
  /\ initialPrompt mentioning = false
  /\ [TextNode "hello @jo"] !! 0 = Some (TextNode "hello @jo")
  /\ (forall text,
         TextNode "hello @jo" = TextNode text ->
         0 < 9 ->
         JsString.includes (JsString.take 9 text) (trigger mentioning) = true ->
         exists el' before,
           documentChange nobody [TextNode "hello @jo"] (Some (0, 9)) mentioning
           = Some el'
           /\ showFilteredOptions nobody el1 = Some el'
           /\ open el' = true
           /\ JsString.take 9 text
              = before +:+ trigger mentioning +:+ currentFilter el1
           /\ JsString.includes (currentFilter el1) (trigger mentioning) = false)
  /\ ((forall text, TextNode "hello @jo" <> TextNode text)
      \/ 9 = 0
      \/ (exists text,
            TextNode "hello @jo" = TextNode text
            /\ JsString.includes (JsString.take 9 text) (trigger mentioning)
               = false) ->
      exists el',
        documentChange nobody [TextNode "hello @jo"] (Some (0, 9)) mentioning
        = Some el'
        /\ open el' = false).
Proof.
  intros el1.
  assert (Hs : is_Some (source mentioning)) by (eexists; reflexivity).
  refine (conj eq_refl (conj eq_refl (conj Hs (conj eq_refl (conj eq_refl
            (conj eq_refl (conj eq_refl (conj eq_refl _)))))))).
  exact (session_follows_cursor nobody mentioning "@" [TextNode "hello @jo"]
           0 9 (TextNode "hello @jo")
           eq_refl eq_refl Hs eq_refl eq_refl eq_refl eq_refl eq_refl).
Defined.

(** "hello @" then "jo" then "h": the filter goes from "jo" to "joh" and
    the session stays open; with the cursor moved in front of the "@" it
    closes. *)
Example filter_follows_typing :
  let typed (text : string) (offset : nat) (el : LexicalPromptElement) :=
    documentChange nobody [TextNode text] (Some (0, offset)) el in
  (fun el => (open el, currentFilter el)) <$> typed "hello @jo" 9 mentioning
  = Some (true, "jo")
  /\ (fun el => (open el, currentFilter el))
       <$> (typed "hello @jo" 9 mentioning ≫= typed "hello @joh" 10)
     = Some (true, "joh")
  /\ open <$> (typed "hello @jo" 9 mentioning ≫= typed "hello @jo" 6)
     = Some false.
Proof. vm_compute. auto. Qed.

(** C7 as the spec states it fails: the session was opened in the second
    text node, where the filter is "jo"; the cursor then leaves this node
    for the first one, behind "@bob". The session does not close: it goes
    on in the first node, with the filter "bob". *)
Lemma cursor_in_other_text_node_keeps_session_open :
  let moved :=
    documentChange nobody (nodes (editor twoMentions)) (Some (0, 7))
      twoMentions in
  nodes (editor twoMentions) = [TextNode "hi @bob"; TextNode "@jo"]
  /\ selection (editor twoMentions) = Some (1, 3)
  /\ open twoMentions = true
  /\ currentFilter twoMentions = "jo"
  /\ (fun el => (open el, selection (editor el), currentFilter el)) <$> moved
     = Some (true, Some (0, 7), "bob")
  /\ ~ (exists el', moved = Some el' /\ open el' = false).
Proof.
  intros moved. split_and!; try reflexivity.
  intros (el' & E & Hclosed).
  assert (H : open <$> moved = Some false) by (rewrite E; simpl; now f_equal).
  vm_compute in H. discriminate.
Qed.

(** ** Retrievals that overtake each other *)

Lemma accepts_all (promptItems : list PromptItem) :
  List.filter (accepts "") promptItems = promptItems.
Proof. apply filter_all. now apply Forall_forall. Qed.

(** C1, as the code has it. In a session on a remote-filtering source,
    when the response to a retrieval in flight arrives, the overlay
    displays the candidates of that response, whether or not a later
    retrieval has been started or has completed in the meantime: the
    overlay shows the results of the retrieval that completed last. *)
Theorem overlay_shows_last_completed (w : Session.t)
    (s : RemoteFilterSource.t) (request : nat)
    (promptItems : list PromptItem) :
  is_Some (popoverElement (Session.element w)) ->
  source (Session.element w) = Some (Remote s) ->
  request ∈ Session.inFlight w ->
  let w' := Session.complete request (Items promptItems) w in
  Session.displayed w' = Some (Some <$> promptItems)
  /\ (request ∉ Session.inFlight w')
  /\ Session.network w' = Session.network w.
Proof.
  intros [p Hp] Hs Hin w'. subst w'. unfold Session.complete.
  rewrite bool_decide_eq_true_2 by exact Hin. rewrite Hs.
  unfold RemoteFilterSource.fetchFilteredListItems_resume.
  rewrite remote_buildListItemsFromPromptItems.
  destruct (buildListItemsFromPromptItems_closed promptItems ""
              (fresh (Session.element w))) as (weakMap & E & Hm & _).
  rewrite accepts_all in *. rewrite E.
  destruct (built_entries promptItems _ weakMap Hm)
    as (Hres & _ & _ & Hmenu).
  set (listItems := imap _ promptItems) in *.
  set (el0 := set_fresh _ _).
  destruct (showFilteredOptions_resume_rendered el0 p listItems Hp)
    as (el' & p' & E' & Hp' & Hs' & _ & Hrendered).
  { eapply Forall_impl; [exact Hmenu|]. now intros li [? _]. }
  rewrite E'. cbn [default from_option Session.network Session.inFlight].
  unfold id.
  split; [|split; [|reflexivity]].
  - unfold Session.displayed. cbn [Session.element]. rewrite Hp', Hs'.
    subst el0. setters.
    cbn [promptItemByListItem RemoteFilterSource.set_promptItemByListItem
         RemoteFilterSource.promptItemByListItem mbind option_bind].
    f_equal. rewrite <- Hres.
    destruct promptItems as [|a l].
    + destruct Hrendered as (Hchildren & _).
      unfold listItemElements. now rewrite Hchildren.
    + assert (Hne : listItems = (BaseSource.buildListItemElementFor a
                                   (fresh (Session.element w) + 0))
                                :: imap (fun i p0 =>
                                           BaseSource.buildListItemElementFor p0
                                             (fresh (Session.element w) + S i)) l)
        by reflexivity.
      rewrite Hne in Hrendered. destruct Hrendered as (Hsame & _).
      rewrite <- Hne in Hsame.
      unfold listItemElements. rewrite filter_all.
      * destruct (sameEntry_keys _ _ Hsame) as [Hk _].
        change (List.map (fun li => weakMap !! key li) (children p'))
          with (((fun k => weakMap !! k) ∘ key) <$> children p').
        change ((fun li => weakMap !! key li) <$> listItems)
          with (((fun k => weakMap !! k) ∘ key) <$> listItems).
        now rewrite !list_fmap_compose, Hk.
      * apply (sameEntry_isMenuItem listItems); [exact Hsame|].
        eapply Forall_impl; [exact Hmenu|]. now intros li [? _].
  - intros Hstill. apply list_elem_of_In, List.filter_In in Hstill as [_ H].
    now rewrite Nat.eqb_refl in H.
Qed.

Lemma overlay_shows_last_completed_witness :
  exists s : RemoteFilterSource.t,
    is_Some (popoverElement (Session.element overtaken))
    /\ source (Session.element overtaken) = Some (Remote s)
    /\ 0 ∈ Session.inFlight overtaken
    /\ (let w' := Session.complete 0 (Items [john; joan]) overtaken in
        Session.displayed w' = Some (Some <$> [john; joan])
        /\ (0 ∉ Session.inFlight w')
        /\ Session.network w' = Session.network overtaken).
Proof.
  assert (H1 : is_Some (popoverElement (Session.element overtaken)))
    by (eexists; reflexivity).
  assert (H3 : 0 ∈ Session.inFlight overtaken)
    by (apply elem_of_cons; now left).
  eexists. refine (conj H1 (conj eq_refl (conj H3 _))).
  exact (overlay_shows_last_completed overtaken _ 0 [john; joan]
           H1 eq_refl H3).
Defined.

(** C1 as the spec states it fails: the retrieval R1 for "jo" starts, the
    retrieval R2 for "joh" starts and completes, and the overlay shows
    R2's result (John); then R1 completes and the overlay shows R1's
    results (John and Joan), not R2's. *)
Lemma stale_retrieval_overwrites :
  let R1 := 0 in
  let R2 := 1 in
  let w :=
    Session.run
      [Session.Start "jo"; Session.Start "joh";
       Session.Complete R2 (Items [john])]
      remoteMentioning in
  let w' := Session.step w (Session.Complete R1 (Items [john; joan])) in
  Session.network w
  = [{| requestUrl := "/people"; requestFilter := Some "jo" |};
     {| requestUrl := "/people"; requestFilter := Some "joh" |}]
  /\ Session.inFlight w = [R1]
  /\ Session.displayed w = Some [Some john]
  /\ Session.displayed w' = Some [Some john; Some joan]
  /\ Session.displayed w' <> Some [Some john].
Proof.
  intros R1 R2 w w'. split_and!; try reflexivity.
  vm_compute. discriminate.
Qed.

(** ** The cache of [DeferredPromptSource] *)

(** Once the candidates are cached, no call of [buildListItems] sends
    anything. *)
Lemma cached_buildListItems_sends_nothing (filters : list string)
    (w : DeferredPromptSource.World) :
  is_Some (DeferredPromptSource.promptItems (DeferredPromptSource.source w)) ->
  DeferredPromptSource.network
    (DeferredPromptSource.run
       (DeferredPromptSource.BuildListItems <$> filters) w)
  = DeferredPromptSource.network w.
Proof.
  revert w. induction filters as [|filter l IH]; intros w [items Hitems];
    [reflexivity|].
  cbn [fmap list_fmap DeferredPromptSource.run fold_left
       DeferredPromptSource.step].
  unfold DeferredPromptSource.buildListItems,
    DeferredPromptSource.fetchPromptItems,
    DeferredPromptSource.buildListItems_resume.
  rewrite Hitems.
  destruct (LocalFilterSource.buildListItemsFromPromptItems items filter
              (DeferredPromptSource.fresh w)) as [[listItems weakMap] fresh'].
  unfold DeferredPromptSource.run in IH. rewrite IH; [reflexivity|].
  cbn. rewrite Hitems. eauto.
Qed.

(** C2 fails on the code. The constructor starts the retrieval; a session
    that opens before the response has arrived calls [buildListItems],
    finds [promptItems] still unset and sends the same request a second
    time, instead of waiting for the retrieval in flight. (When the
    responses arrive, the second one replaces the first in the cache.) *)
Theorem second_retrieval_while_loading :
  let people := {| requestUrl := "/people"; requestFilter := None |} in
  let w :=
    DeferredPromptSource.run [DeferredPromptSource.BuildListItems ""]
      (DeferredPromptSource.new "/people") in
  DeferredPromptSource.network (DeferredPromptSource.new "/people") = [people]
  /\ DeferredPromptSource.network w = [people; people]
  /\ DeferredPromptSource.suspended w
     = [(0, DeferredPromptSource.FromConstructor);
        (1, DeferredPromptSource.FromBuildListItems "")]
  /\ DeferredPromptSource.promptItems
       (DeferredPromptSource.source
          (DeferredPromptSource.run
             [DeferredPromptSource.Respond 0 (Items [john]);
              DeferredPromptSource.Respond 1 (Items [john; joan])] w))
     = Some [john; joan].
Proof. intros people w. split_and!; reflexivity. Qed.

(** ** The debounce of [RemoteFilterSource] *)

Lemma debounced_initial (url : string) :
  debounced url (RemoteFilterSource.initial url).
Proof.
  split; cbn; try done.
  - intros t filter H. now apply elem_of_nil in H.
  - intros t request H. now apply elem_of_nil in H.
  - constructor.
Qed.

Lemma elem_of_snoc {A : Type} (l : list A) (x y : A) :
  y ∈ l ++ [x] <-> y ∈ l \/ y = x.
Proof. now rewrite elem_of_app, list_elem_of_singleton. Qed.

Lemma debounced_buildListItems (url filter : string)
    (w : RemoteFilterSource.World) :
  debounced url w -> debounced url (RemoteFilterSource.buildListItems filter w).
Proof.
  intros [Hurl Hcalls Hsent Htimer Hapart].
  unfold RemoteFilterSource.DEBOUNCE_INTERVAL in *.
  split; cbn; unfold RemoteFilterSource.DEBOUNCE_INTERVAL; try done.
  - intros t f H. apply elem_of_snoc in H as [H|H]; [eauto|].
    injection H as -> ->. lia.
  - intros t request H. destruct (Hsent t request H)
      as (Hnow & f & -> & Hge & Hcall & Hquiet).
    split; [exact Hnow|]. exists f. split_and!; try done.
    + apply elem_of_snoc. now left.
    + intros t' f' H'. apply elem_of_snoc in H' as [H'|H']; [eauto|].
      injection H' as -> ->. lia.
  - unfold Debounce.call. intros deadline f [= <- <-]. split_and!; try lia.
    + apply elem_of_snoc. right. f_equal. lia.
    + intros t' f' H'. apply elem_of_snoc in H' as [H'|H'].
      * specialize (Hcalls t' f' H'). lia.
      * injection H' as -> ->. lia.
    + intros t request H. destruct (Hsent t request H) as (Hnow & _). lia.
Qed.

Lemma debounced_elapse (url : string) (ms : nat)
    (w : RemoteFilterSource.World) :
  debounced url w -> debounced url (RemoteFilterSource.elapse ms w).
Proof.
  intros [Hurl Hcalls Hsent Htimer Hapart].
  unfold RemoteFilterSource.DEBOUNCE_INTERVAL in *.
  unfold RemoteFilterSource.elapse, Debounce.due.
  destruct (RemoteFilterSource.loadAndFilterListItems
              (RemoteFilterSource.source w)) as [[deadline filter]|] eqn:Et.
  - destruct (Htimer deadline filter eq_refl)
      as (Hlate & Hge & Hcall & Hlast & Hfar).
    destruct (deadline <=? RemoteFilterSource.now w + ms) eqn:Edue.
    + apply Nat.leb_le in Edue.
      split; cbn; unfold RemoteFilterSource.DEBOUNCE_INTERVAL; try done.
      * intros t f H. specialize (Hcalls t f H). lia.
      * intros t request H. apply elem_of_snoc in H as [H|H].
        -- destruct (Hsent t request H) as (Hnow & Hrest).
           split; [lia|exact Hrest].
        -- injection H as -> ->. split; [exact Edue|]. exists filter.
           unfold RemoteFilterSource.urlFor. rewrite Hurl.
           split_and!; try done.
           intros t' f' H'. specialize (Hlast t' f' H'). lia.
      * apply StronglySorted_app. split_and!.
        -- intros a b Ha Hb. apply list_elem_of_singleton in Hb as ->.
           destruct a as [t request]. cbn. eauto.
        -- exact Hapart.
        -- repeat constructor.
    + apply Nat.leb_gt in Edue.
      split; cbn; unfold RemoteFilterSource.DEBOUNCE_INTERVAL; try done.
      * intros t f H. specialize (Hcalls t f H). lia.
      * intros t request H. destruct (Hsent t request H) as (Hnow & Hrest).
        split; [lia|exact Hrest].
      * intros deadline' f'. rewrite Et. intros [= <- <-]. now split_and!.
  - split; cbn; unfold RemoteFilterSource.DEBOUNCE_INTERVAL; try done.
    + intros t f H. specialize (Hcalls t f H). lia.
    + intros t request H. destruct (Hsent t request H) as (Hnow & Hrest).
      split; [lia|exact Hrest].
    + intros deadline' f'. now rewrite Et.
Qed.

Lemma debounced_run (url : string) (events : list RemoteFilterSource.Event)
    (w : RemoteFilterSource.World) :
  debounced url w -> debounced url (RemoteFilterSource.run events w).
Proof.
  revert w. induction events as [|e l IH]; intros w Hw; [exact Hw|].
  apply IH. destruct e; [now apply debounced_buildListItems
                        |now apply debounced_elapse].
Qed.

(** A burst whose gaps are all shorter than the interval sends nothing:
    every call drops the pending timer and sets a new one, which has not
    come due when the next call is made. *)
Lemma keystrokes_send_nothing (burst : list (string * nat))
    (w : RemoteFilterSource.World) :
  Forall (fun k => k.2 < RemoteFilterSource.DEBOUNCE_INTERVAL) burst ->
  RemoteFilterSource.network (RemoteFilterSource.run (keystrokes burst) w)
  = RemoteFilterSource.network w
  /\ RemoteFilterSource.now (RemoteFilterSource.run (keystrokes burst) w)
     = RemoteFilterSource.now w + list_sum (snd <$> burst)
  /\ RemoteFilterSource.baseURL
       (RemoteFilterSource.source
          (RemoteFilterSource.run (keystrokes burst) w))
     = RemoteFilterSource.baseURL (RemoteFilterSource.source w).
Proof.
  revert w. induction burst as [|[filter gap] burst IH]; intros w Hgaps.
  - cbn. split_and!; [reflexivity|lia|reflexivity].
  - apply Forall_cons in Hgaps as [Hgap Hgaps]. cbv [snd] in Hgap.
    change (RemoteFilterSource.run (keystrokes ((filter, gap) :: burst)) w)
      with (RemoteFilterSource.run (keystrokes burst)
              (RemoteFilterSource.elapse gap
                 (RemoteFilterSource.buildListItems filter w))).
    set (w1 := RemoteFilterSource.elapse gap
                 (RemoteFilterSource.buildListItems filter w)).
    assert (H1 : RemoteFilterSource.network w1 = RemoteFilterSource.network w
                 /\ RemoteFilterSource.now w1 = RemoteFilterSource.now w + gap
                 /\ RemoteFilterSource.baseURL (RemoteFilterSource.source w1)
                    = RemoteFilterSource.baseURL (RemoteFilterSource.source w)).
    { unfold w1, RemoteFilterSource.elapse, RemoteFilterSource.buildListItems,
        Debounce.due, Debounce.call.
      cbn [RemoteFilterSource.source RemoteFilterSource.now
           RemoteFilterSource.network
           RemoteFilterSource.loadAndFilterListItems
           RemoteFilterSource.set_loadAndFilterListItems].
      destruct (Nat.leb_spec
                  (RemoteFilterSource.now w
                   + RemoteFilterSource.DEBOUNCE_INTERVAL)
                  (RemoteFilterSource.now w + gap)) as [Hle|_]; [lia|].
      now split_and!. }
    destruct H1 as (Hn1 & Ht1 & Hu1).
    destruct (IH w1 Hgaps) as (Hn & Ht & Hu).
    rewrite Hn, Ht, Hu, Hn1, Ht1, Hu1.
    change (list_sum (snd <$> (filter, gap) :: burst))
      with (gap + list_sum (snd <$> burst)).
    split_and!; [reflexivity|lia|reflexivity].
Qed.

(** A call followed by a pause: the retrieval for the filter of the call
    is sent, at the end of the interval, when the pause is that long,
    and nothing is sent when it is shorter. *)
Lemma call_then_pause (filter : string) (pause : nat)
    (w : RemoteFilterSource.World) :
  RemoteFilterSource.network
    (RemoteFilterSource.run
       [RemoteFilterSource.BuildListItems filter;
        RemoteFilterSource.Elapse pause] w)
  = RemoteFilterSource.network w
    ++ (if RemoteFilterSource.DEBOUNCE_INTERVAL <=? pause
        then [(RemoteFilterSource.now w
               + RemoteFilterSource.DEBOUNCE_INTERVAL,
               {| requestUrl :=
                    RemoteFilterSource.baseURL (RemoteFilterSource.source w);
                  requestFilter := Some filter |})]
        else []).
Proof.
  cbn [RemoteFilterSource.run fold_left RemoteFilterSource.step].
  unfold RemoteFilterSource.elapse, RemoteFilterSource.buildListItems,
    Debounce.due, Debounce.call.
  cbn [RemoteFilterSource.source RemoteFilterSource.now
       RemoteFilterSource.network
       RemoteFilterSource.loadAndFilterListItems
       RemoteFilterSource.set_loadAndFilterListItems].
  destruct (Nat.leb_spec
              (RemoteFilterSource.now w
               + RemoteFilterSource.DEBOUNCE_INTERVAL)
              (RemoteFilterSource.now w + pause)) as [Hle|Hlt];
    destruct (Nat.leb_spec RemoteFilterSource.DEBOUNCE_INTERVAL pause)
      as [Hle'|Hlt']; try lia.
  - reflexivity.
  - cbn [RemoteFilterSource.network]. now rewrite app_nil_r.
Qed.

(** C9. The calls of [buildListItems] on a remote-filtering source are
    debounced with a trailing window of 200 ms. Whatever the calls and
    their times, any two retrievals are at least 200 ms apart, and every
    retrieval is sent exactly 200 ms after a call with its filter, with
    no other call in between. And the calls of a burst collapse into one
    retrieval, sent once the calls have paused: while each keystroke
    follows the one before by less than 200 ms nothing is sent, whatever
    was pending before; 200 ms after the last keystroke one retrieval is
    sent, for the filter of the last keystroke, and none before. *)
Theorem debounced_retrievals (url : string)
    (events : list RemoteFilterSource.Event)
    (burst : list (string * nat)) (filter : string) (pause : nat) :
  Forall (fun k => k.2 < RemoteFilterSource.DEBOUNCE_INTERVAL) burst ->
  let w := RemoteFilterSource.run events (RemoteFilterSource.initial url) in
  let w1 := RemoteFilterSource.run (keystrokes burst) w in
  let w2 :=
    RemoteFilterSource.run
      [RemoteFilterSource.BuildListItems filter;
       RemoteFilterSource.Elapse pause] w1 in
  RemoteFilterSource.DEBOUNCE_INTERVAL = 200
  /\ StronglySorted
       (fun a b => a.1 + RemoteFilterSource.DEBOUNCE_INTERVAL <= b.1)
       (RemoteFilterSource.network w)
  /\ (forall t request,
        (t, request) ∈ RemoteFilterSource.network w ->
        exists filter,
          request = {| requestUrl := url; requestFilter := Some filter |}
          /\ RemoteFilterSource.DEBOUNCE_INTERVAL <= t
          /\ (t - RemoteFilterSource.DEBOUNCE_INTERVAL, filter)
               ∈ RemoteFilterSource.calls w
          /\ forall t' filter',
               (t', filter') ∈ RemoteFilterSource.calls w ->
               ~ (t - RemoteFilterSource.DEBOUNCE_INTERVAL < t' < t))
  /\ RemoteFilterSource.network w1 = RemoteFilterSource.network w
  /\ RemoteFilterSource.now w1
     = RemoteFilterSource.now w + list_sum (snd <$> burst)
  /\ RemoteFilterSource.network w2
     = RemoteFilterSource.network w
       ++ (if RemoteFilterSource.DEBOUNCE_INTERVAL <=? pause
           then [(RemoteFilterSource.now w1
                  + RemoteFilterSource.DEBOUNCE_INTERVAL,
                  {| requestUrl := url; requestFilter := Some filter |})]
           else []).
Proof.
  intros Hgaps w w1 w2.
  destruct (debounced_run url events _ (debounced_initial url))
    as [Hurl _ Hsent _ Hapart]. fold w in Hurl, Hsent, Hapart.
  destruct (keystrokes_send_nothing burst w Hgaps) as (Hn & Ht & Hu).
  fold w1 in Hn, Ht, Hu.
  split; [reflexivity|]. split; [exact Hapart|]. split.
  { intros t request H. now destruct (Hsent t request H) as (_ & Hrest). }
  split; [exact Hn|]. split; [exact Ht|].
  unfold w2. rewrite call_then_pause, Hn, Hu, Hurl. reflexivity.
Qed.

Lemma debounced_retrievals_witness :
  let burst := [("j", 50); ("jo", 120)] in
  let w := RemoteFilterSource.run [] (RemoteFilterSource.initial "/people") in
  let w1 := RemoteFilterSource.run (keystrokes burst) w in
  let w2 :=
    RemoteFilterSource.run
      [RemoteFilterSource.BuildListItems "joh";
       RemoteFilterSource.Elapse 250] w1 in
  Forall (fun k => k.2 < RemoteFilterSource.DEBOUNCE_INTERVAL) burst
  /\ RemoteFilterSource.network w1 = []
  /\ RemoteFilterSource.network w2
     = [(370, {| requestUrl := "/people"; requestFilter := Some "joh" |})].
Proof.
  intros burst w w1 w2.
  assert (Hgaps : Forall (fun k => k.2 < RemoteFilterSource.DEBOUNCE_INTERVAL)
                    burst).
  { repeat apply List.Forall_cons; try apply List.Forall_nil;
      cbv [snd RemoteFilterSource.DEBOUNCE_INTERVAL]; lia. }
  split; [exact Hgaps|].
  destruct (debounced_retrievals "/people" [] burst "joh" 250 Hgaps)
    as (_ & _ & _ & Hn & _ & Hsent).
  split; [exact Hn|exact Hsent].
Defined.

(** "j", "jo" and "joh" typed 50 ms apart, then a pause: one retrieval,
    for "joh", 200 ms after the last keystroke. A keystroke 250 ms later
    gives a second retrieval. *)
Example debounce_ex :
  RemoteFilterSource.network
    (RemoteFilterSource.run
       [RemoteFilterSource.BuildListItems "j"; RemoteFilterSource.Elapse 50;
        RemoteFilterSource.BuildListItems "jo"; RemoteFilterSource.Elapse 50;
        RemoteFilterSource.BuildListItems "joh"; RemoteFilterSource.Elapse 250;
        RemoteFilterSource.BuildListItems "john"; RemoteFilterSource.Elapse 200]
       (RemoteFilterSource.initial "/people"))
  = [(300, {| requestUrl := "/people"; requestFilter := Some "joh" |});
     (550, {| requestUrl := "/people"; requestFilter := Some "john" |})].
Proof. reflexivity. Qed.

Example lastIndexOf_ex1 : JsString.lastIndexOf "hello @jo" "@" = Some 6.
Proof. reflexivity. Qed.

Example lastIndexOf_ex2 : JsString.lastIndexOf "abc" "" = Some 3.
Proof. reflexivity. Qed.

Example toLowerCase_ex : JsString.toLowerCase "John DOE" = "john doe".
Proof. reflexivity. Qed.

(** ** Pieces of a string *)

Lemma split_cons (s : string) (c : ascii) :
  exists piece pieces, Js.split s c = piece :: pieces.
Proof.
  induction s as [|a s (piece & pieces & IH)]; simpl; [eauto|].
  destruct (Ascii.eqb a c); [eauto|]. rewrite IH. eauto.
Qed.

Lemma no_separator_cons (a c : ascii) (s : string) :
  JsString.includes (String a s) (String c "") = false
  <-> Ascii.eqb a c = false /\ JsString.includes s (String c "") = false.
Proof.
  cbn [JsString.includes JsString.startsWith].
  rewrite andb_true_r, orb_false_iff, (Ascii.eqb_sym c a). reflexivity.
Qed.

Lemma split_no_separator (s : string) (c : ascii) :
  JsString.includes s (String c "") = false -> Js.split s c = [s].
Proof.
  induction s as [|a s IH]; [reflexivity|].
  intros [Ha Hs]%no_separator_cons. simpl. now rewrite Ha, IH.
Qed.

Lemma split_append (a b : string) (c : ascii) :
  Js.split (a +:+ String c b) c = Js.split a c ++ Js.split b c.
Proof.
  induction a as [|x a IH]; simpl.
  - now rewrite Ascii.eqb_refl.
  - destruct (Ascii.eqb x c); rewrite IH; [reflexivity|].
    now destruct (split_cons a c) as (piece & pieces & ->).
Qed.

(** Every string is its own last piece, or ends with a separator
    followed by its last piece. *)
Lemma last_piece (s : string) (c : ascii) :
  exists piece,
    JsString.includes piece (String c "") = false
    /\ (s = piece \/ exists before, s = before +:+ String c piece).
Proof.
  induction s as [|a s (piece & Hpiece & IH)].
  - exists "". split; [reflexivity | now left].
  - destruct IH as [->|[before ->]].
    + destruct (Ascii.eqb a c) eqn:Ha.
      * apply Ascii.eqb_eq in Ha as ->. exists piece.
        split; [exact Hpiece | right; now exists ""].
      * exists (String a piece). split; [|now left].
        now apply no_separator_cons.
    + exists piece. split; [exact Hpiece|]. right. now exists (String a before).
Qed.

Lemma pop_split (s : string) (c : ascii) :
  exists piece,
    Js.pop (Js.split s c) = Some piece
    /\ JsString.includes piece (String c "") = false
    /\ (s = piece \/ exists before, s = before +:+ String c piece).
Proof.
  destruct (last_piece s c) as (piece & Hpiece & Hs). exists piece.
  split; [|now split]. unfold Js.pop.
  destruct Hs as [->|[before ->]].
  - now rewrite split_no_separator.
  - rewrite split_append, (split_no_separator piece) by exact Hpiece.
    apply last_snoc.
Qed.

(** ** The attachment nodes *)

Lemma or_idempotent (v d : Js.Value) :
  Js.truthy d = false -> Js.or (Js.or v d) d = Js.or v d.
Proof.
  intros Hd. unfold Js.or. destruct (Js.truthy v) eqn:Hv; now rewrite ?Hv, ?Hd.
Qed.

Lemma or_defined (v d : Js.Value) :
  d <> Js.Undefined /\ d <> Js.Null ->
  Js.or v d <> Js.Undefined /\ Js.or v d <> Js.Null.
Proof.
  intros Hd. unfold Js.or. destruct (Js.truthy v) eqn:E; [|exact Hd].
  destruct v; try discriminate; split; discriminate.
Qed.

(** X1. A file attachment node survives serialization: for every object
    the constructor is given, [importJSON] of [exportJSON] of the node
    gives the same node again, and so does [clone]; the four properties
    with a default are never [undefined] nor [null]. *)
Theorem attachment_json_round_trip (properties : ActionTextAttachmentNode.t) :
  let node := ActionTextAttachmentNode.new properties in
  ActionTextAttachmentNode.importJSON (ActionTextAttachmentNode.exportJSON node)
  = node
  /\ ActionTextAttachmentNode.clone node = node
  /\ Forall (fun v => v <> Js.Undefined /\ v <> Js.Null)
       [ActionTextAttachmentNode.altText node;
        ActionTextAttachmentNode.caption node;
        ActionTextAttachmentNode.contentType node;
        ActionTextAttachmentNode.fileName node].
Proof.
  intros node. subst node.
  unfold ActionTextAttachmentNode.importJSON, ActionTextAttachmentNode.clone,
    ActionTextAttachmentNode.exportJSON, ActionTextAttachmentNode.new.
  cbn [ActionTextAttachmentNode.json_properties
       ActionTextAttachmentNode.sgid ActionTextAttachmentNode.src
       ActionTextAttachmentNode.previewable ActionTextAttachmentNode.altText
       ActionTextAttachmentNode.caption ActionTextAttachmentNode.contentType
       ActionTextAttachmentNode.fileName ActionTextAttachmentNode.fileSize
       ActionTextAttachmentNode.width ActionTextAttachmentNode.height].
  rewrite !or_idempotent by reflexivity. split_and!; try reflexivity.
  repeat apply List.Forall_cons; try apply List.Forall_nil;
    apply or_defined; split; discriminate.
Qed.

(** X2. The node of a custom attachment survives serialization too:
    whatever the constructor is given, [importJSON] of [exportJSON] of
    the node and [clone] of the node give the node again, and its
    content type is not empty. *)
Theorem custom_attachment_json_round_trip (sgid0 : option string)
    (contentType0 innerHtml0 : string) :
  let node := CustomActionTextAttachmentNode.new sgid0 contentType0 innerHtml0 in
  CustomActionTextAttachmentNode.importJSON
    (CustomActionTextAttachmentNode.exportJSON node) = node
  /\ CustomActionTextAttachmentNode.clone node = node
  /\ CustomActionTextAttachmentNode.contentType node <> ""
  /\ CustomActionTextAttachmentNode.json_type
       (CustomActionTextAttachmentNode.exportJSON node)
     = CustomActionTextAttachmentNode.getType.
Proof.
  intros node. subst node.
  unfold CustomActionTextAttachmentNode.importJSON,
    CustomActionTextAttachmentNode.clone,
    CustomActionTextAttachmentNode.exportJSON,
    CustomActionTextAttachmentNode.new.
  cbn [CustomActionTextAttachmentNode.json_sgid
       CustomActionTextAttachmentNode.json_contentType
       CustomActionTextAttachmentNode.json_innerHtml
       CustomActionTextAttachmentNode.json_type
       CustomActionTextAttachmentNode.sgid
       CustomActionTextAttachmentNode.contentType
       CustomActionTextAttachmentNode.innerHtml].
  destruct (contentType0 =? "")%string eqn:E.
  - split_and!; try reflexivity. discriminate.
  - rewrite E. split_and!; try reflexivity.
    intros ->. discriminate.
Qed.

(** X3. The icon of a file shows the last piece of the file name in
    lower case: for a file name that is a non-empty string, the text is
    what [toLowerCase()] makes of the part of the name behind its last
    dot, and of the whole name when the name has no dot; whatever
    [toLowerCase()] does to the characters. *)
Theorem file_icon_shows_last_piece (toLowerCase : string -> string)
    (node : ActionTextAttachmentNode.t) (name : string) :
  ActionTextAttachmentNode.fileName node = Js.Str name ->
  name <> "" ->
  exists piece,
    ActionTextAttachmentNode.extension toLowerCase node
    = Some (toLowerCase piece)
    /\ JsString.includes piece "." = false
    /\ (name = piece \/ exists stem, name = stem +:+ "." +:+ piece).
Proof.
  intros Hname Hne. unfold ActionTextAttachmentNode.extension.
  rewrite Hname. cbn [Js.truthy].
  destruct (name =? "")%string eqn:E; [now apply String.eqb_eq in E|].
  cbn [negb]. destruct (pop_split name ".") as (piece & -> & Hpiece & Hs).
  exists piece. now split_and!.
Qed.

Lemma file_icon_shows_last_piece_witness :
  let node :=
    ActionTextAttachmentNode.new
      {| ActionTextAttachmentNode.sgid := Js.Null;
         ActionTextAttachmentNode.src := Js.Null;
         ActionTextAttachmentNode.previewable := Js.Null;
         ActionTextAttachmentNode.altText := Js.Null;
         ActionTextAttachmentNode.caption := Js.Null;
         ActionTextAttachmentNode.contentType := Js.Str "application/pdf";
         ActionTextAttachmentNode.fileName := Js.Str "report.final.PDF";
         ActionTextAttachmentNode.fileSize := Js.Str "1024";
         ActionTextAttachmentNode.width := Js.Null;
         ActionTextAttachmentNode.height := Js.Null |} in
  ActionTextAttachmentNode.fileName node = Js.Str "report.final.PDF"
  /\ "report.final.PDF" <> ""
  /\ forall toLowerCase : string -> string,
     exists piece,
       ActionTextAttachmentNode.extension toLowerCase node
       = Some (toLowerCase piece)
       /\ JsString.includes piece "." = false
       /\ ("report.final.PDF" = piece
           \/ exists stem, "report.final.PDF" = stem +:+ "." +:+ piece).
Proof.
  intros node.
  assert (Hname : ActionTextAttachmentNode.fileName node
                  = Js.Str "report.final.PDF") by reflexivity.
  assert (Hne : "report.final.PDF" <> "") by discriminate.
  exact (conj Hname (conj Hne
           (fun toLowerCase =>
              file_icon_shows_last_piece toLowerCase node "report.final.PDF"
                Hname Hne))).
Defined.

Example file_icon_ex (toLowerCase : string -> string) :
  ActionTextAttachmentNode.extension toLowerCase
    (ActionTextAttachmentNode.new
       {| ActionTextAttachmentNode.sgid := Js.Null;
          ActionTextAttachmentNode.src := Js.Null;
          ActionTextAttachmentNode.previewable := Js.Null;
          ActionTextAttachmentNode.altText := Js.Null;
          ActionTextAttachmentNode.caption := Js.Null;
          ActionTextAttachmentNode.contentType := Js.Null;
          ActionTextAttachmentNode.fileName := Js.Str "Makefile";
          ActionTextAttachmentNode.fileSize := Js.Null;
          ActionTextAttachmentNode.width := Js.Null;
          ActionTextAttachmentNode.height := Js.Null |})
  = Some (toLowerCase "Makefile").
Proof. reflexivity. Qed.

(** X4. A [<video>] with a non-empty [src] attribute is imported as a
    node with that source, with the last piece of the source path as its
    file name, and with a content type that is never empty ([video/*]
    when the [<source>] child gives none). *)
Theorem video_import_names_last_path_piece
    (video : ActionTextAttachmentNode.VideoElement) (url : string) :
  ActionTextAttachmentNode.video_src video = Some url ->
  url <> "" ->
  exists node piece,
    ActionTextAttachmentNode.importVideo video = Some node
    /\ ActionTextAttachmentNode.src node = Js.Str url
    /\ ActionTextAttachmentNode.fileName node = Js.Str piece
    /\ JsString.includes piece "/" = false
    /\ (url = piece \/ exists directory, url = directory +:+ "/" +:+ piece)
    /\ Js.truthy (ActionTextAttachmentNode.contentType node) = true.
Proof.
  intros Hsrc Hne. unfold ActionTextAttachmentNode.importVideo.
  rewrite Hsrc. cbn [Js.getAttribute].
  assert (Hor : forall v, Js.or (Js.Str url) v = Js.Str url).
  { intros v. unfold Js.or. cbn [Js.truthy].
    destruct (url =? "")%string eqn:E; [now apply String.eqb_eq in E|].
    reflexivity. }
  rewrite Hor. destruct (pop_split url "/") as (piece & -> & Hpiece & Hs).
  cbn [mbind option_bind]. eexists _, piece. split; [reflexivity|].
  unfold ActionTextAttachmentNode.new.
  cbn [ActionTextAttachmentNode.src ActionTextAttachmentNode.fileName
       ActionTextAttachmentNode.contentType].
  split_and!; try done.
  - unfold Js.or. cbn [Js.truthy]. now destruct (piece =? "")%string eqn:Ep;
      [apply String.eqb_eq in Ep as ->|].
  - unfold Js.or.
    destruct (Js.truthy (match ActionTextAttachmentNode.video_source video with
                         | Some source => _ | None => _ end)) eqn:Ht;
      [now rewrite Ht | reflexivity].
Qed.

Lemma video_import_names_last_path_piece_witness :
  let video :=
    {| ActionTextAttachmentNode.video_src := Some "/media/clips/intro.mp4";
       ActionTextAttachmentNode.video_source := None |} in
  ActionTextAttachmentNode.video_src video = Some "/media/clips/intro.mp4"
  /\ "/media/clips/intro.mp4" <> ""
  /\ exists node piece,
       ActionTextAttachmentNode.importVideo video = Some node
       /\ ActionTextAttachmentNode.src node = Js.Str "/media/clips/intro.mp4"
       /\ ActionTextAttachmentNode.fileName node = Js.Str piece
       /\ JsString.includes piece "/" = false
       /\ ("/media/clips/intro.mp4" = piece
           \/ exists directory,
                "/media/clips/intro.mp4" = directory +:+ "/" +:+ piece)
       /\ Js.truthy (ActionTextAttachmentNode.contentType node) = true.
Proof.
  intros video.
  assert (Hsrc : ActionTextAttachmentNode.video_src video
                 = Some "/media/clips/intro.mp4") by reflexivity.
  assert (Hne : "/media/clips/intro.mp4" <> "") by discriminate.
  exact (conj Hsrc (conj Hne
           (video_import_names_last_path_piece video
              "/media/clips/intro.mp4" Hsrc Hne))).
Defined.

(** ** The sources: what is listed, what is remembered *)

(** [buildListItems] of any source, in closed form: the entries stand
    for some candidates, on consecutive fresh objects, and the source is
    left with a [WeakMap] that has exactly these objects. *)
Lemma buildListItems_closed (server : Request -> list PromptItem) (s : Source)
    (filter : string) (fresh0 : nat) :
  exists (matching : list PromptItem) (s' : Source)
         (weakMap : gmap nat PromptItem),
    buildListItems server s filter fresh0
    = (imap (fun i p => BaseSource.buildListItemElementFor p (fresh0 + i))
            matching,
       s', fresh0 + length matching)
    /\ promptItemByListItem s' = Some weakMap
    /\ (forall i, weakMap !! (fresh0 + i) = matching !! i)
    /\ (forall k, k < fresh0 -> weakMap !! k = None).
Proof.
  destruct s as [s|s|s]; cbn [buildListItems].
  - unfold InlinePromptSource.buildListItems.
    destruct (buildListItemsFromPromptItems_closed
                (InlinePromptSource.fetchPromptItems s) filter fresh0)
      as (weakMap & -> & Hm & Hlow).
    eexists _, _, weakMap. now split_and!.
  - unfold DeferredPromptSource.buildListItems_resume.
    match goal with
    | |- context [LocalFilterSource.buildListItemsFromPromptItems ?items _ _] =>
        destruct (buildListItemsFromPromptItems_closed items filter fresh0)
          as (weakMap & -> & Hm & Hlow)
    end.
    eexists _, _, weakMap. now split_and!.
  - rewrite remote_buildListItemsFromPromptItems.
    match goal with
    | |- context [LocalFilterSource.buildListItemsFromPromptItems ?items _ _] =>
        destruct (buildListItemsFromPromptItems_closed items "" fresh0)
          as (weakMap & -> & Hm & Hlow)
    end.
    eexists _, _, weakMap. now split_and!.
Qed.

(** X5. A remote-filtering source does not filter: when a response
    arrives, the list has one entry for every candidate of the response,
    in the order of the response, on distinct elements; each entry
    resolves to its candidate and shows its menu template. *)
Theorem remote_lists_every_candidate (s : RemoteFilterSource.t)
    (promptItems : list PromptItem) (fresh0 : nat) :
  exists listItems s',
    RemoteFilterSource.fetchFilteredListItems_resume s (Items promptItems)
      fresh0
    = (Some listItems, s', fresh0 + length promptItems)
    /\ (fun li => promptItemFor (Remote s') (Some li)) <$> listItems
       = (Some ∘ Some) <$> promptItems
    /\ innerHTML <$> listItems = menuTemplate <$> promptItems
    /\ NoDup (key <$> listItems)
    /\ RemoteFilterSource.baseURL s' = RemoteFilterSource.baseURL s.
Proof.
  unfold RemoteFilterSource.fetchFilteredListItems_resume.
  rewrite remote_buildListItemsFromPromptItems.
  destruct (buildListItemsFromPromptItems_closed promptItems "" fresh0)
    as (weakMap & E & Hm & _).
  cbv zeta in E. rewrite accepts_all in *. rewrite E.
  destruct (built_entries promptItems fresh0 weakMap Hm)
    as (Hres & Hhtml & Hkeys & _).
  eexists _, _. split; [reflexivity|]. split_and!.
  - now apply (promptItemFor_built _ weakMap).
  - exact Hhtml.
  - rewrite Hkeys. apply NoDup_seq.
  - reflexivity.
Qed.

(** X6. Each [buildListItems] replaces the [WeakMap]: the entries of a
    list resolve to candidates as long as it is the latest list, and to
    [undefined] once the source has built another one, whatever the
    filters and the kind of the source. *)
Theorem rebuilt_source_forgets_earlier_entries
    (server : Request -> list PromptItem) (s : Source)
    (filter1 filter2 : string) (fresh0 : nat) :
  let '(listItems1, s1, fresh1) := buildListItems server s filter1 fresh0 in
  let '(listItems2, s2, fresh2) := buildListItems server s1 filter2 fresh1 in
  Forall (fun li => exists promptItem,
            promptItemFor s1 (Some li) = Some (Some promptItem)) listItems1
  /\ Forall (fun li => promptItemFor s2 (Some li) = Some None) listItems1
  /\ Forall (fun li => exists promptItem,
               promptItemFor s2 (Some li) = Some (Some promptItem)) listItems2.
Proof.
  destruct (buildListItems_closed server s filter1 fresh0)
    as (matching1 & s1 & weakMap1 & -> & Hs1 & Hm1 & _).
  destruct (buildListItems_closed server s1 filter2
              (fresh0 + length matching1))
    as (matching2 & s2 & weakMap2 & -> & Hs2 & Hm2 & Hlow2).
  unfold promptItemFor. rewrite Hs1, Hs2. cbn [mbind option_bind].
  split_and!; apply Forall_forall; intros li Hin;
    apply list_elem_of_lookup in Hin as [i Hi];
    rewrite list_lookup_imap in Hi;
    destruct (_ !! i) as [p|] eqn:Ei; simpl in Hi; try discriminate;
    injection Hi as <-; cbn [key BaseSource.buildListItemElementFor].
  - exists p. now rewrite Hm1, Ei.
  - rewrite Hlow2; [reflexivity|]. apply lookup_lt_Some in Ei. lia.
  - exists p. now rewrite Hm2, Ei.
Qed.

(** ** The cache of [DeferredPromptSource], once more *)

(** X7. Once the candidates are cached, every call of [buildListItems]
    is answered at once and from the cache: no request is sent, no call
    is left suspended, and the calls resolve, in their order, with lists
    that show the menu templates of the cached candidates their filters
    accept. *)
Theorem cached_source_answers_at_once (filters : list string)
    (w : DeferredPromptSource.World) (items : list PromptItem) :
  DeferredPromptSource.promptItems (DeferredPromptSource.source w)
  = Some items ->
  let w' :=
    DeferredPromptSource.run (DeferredPromptSource.BuildListItems <$> filters)
      w in
  DeferredPromptSource.network w' = DeferredPromptSource.network w
  /\ DeferredPromptSource.suspended w' = DeferredPromptSource.suspended w
  /\ DeferredPromptSource.promptItems (DeferredPromptSource.source w')
     = Some items
  /\ exists results,
       DeferredPromptSource.resolved w'
       = DeferredPromptSource.resolved w ++ results
       /\ (fmap innerHTML) <$> results
          = (fun filter =>
               menuTemplate <$> List.filter (accepts filter) items)
            <$> filters.
Proof.
  revert w. induction filters as [|filter l IH]; intros w Hitems.
  - cbn. split_and!; try done. exists []. now rewrite app_nil_r.
  - cbn [fmap list_fmap DeferredPromptSource.run fold_left
         DeferredPromptSource.step].
    unfold DeferredPromptSource.buildListItems,
      DeferredPromptSource.fetchPromptItems,
      DeferredPromptSource.buildListItems_resume.
    rewrite Hitems.
    destruct (buildListItemsFromPromptItems_closed items filter
                (DeferredPromptSource.fresh w)) as (weakMap & -> & Hm & _).
    destruct (built_entries _ _ weakMap Hm) as (_ & Hhtml & _).
    match goal with
    | |- context [fold_left DeferredPromptSource.step _ ?w1] =>
        destruct (IH w1) as (Hnet & Hsusp & Hcache & results & Hres & Hshow);
          [exact Hitems|]
    end.
    unfold DeferredPromptSource.run in *. rewrite Hnet, Hsusp, Hcache, Hres.
    cbn [DeferredPromptSource.network DeferredPromptSource.suspended
         DeferredPromptSource.resolved].
    split_and!; try done. eexists (_ :: results).
    split; [now rewrite <- app_assoc|].
    rewrite fmap_cons. cbn [fmap list_fmap] in *. now rewrite Hhtml, Hshow.
Qed.

Lemma cached_source_answers_at_once_witness :
  let w :=
    DeferredPromptSource.respond 0 (Items [john; joan; bob])
      (DeferredPromptSource.new "/people") in
  DeferredPromptSource.promptItems (DeferredPromptSource.source w)
  = Some [john; joan; bob]
  /\ (let w' :=
        DeferredPromptSource.run
          (DeferredPromptSource.BuildListItems <$> ["jo"; "b"]) w in
      DeferredPromptSource.network w' = DeferredPromptSource.network w
      /\ DeferredPromptSource.suspended w' = DeferredPromptSource.suspended w
      /\ DeferredPromptSource.promptItems (DeferredPromptSource.source w')
         = Some [john; joan; bob]
      /\ exists results,
           DeferredPromptSource.resolved w'
           = DeferredPromptSource.resolved w ++ results
           /\ (fmap innerHTML) <$> results
              = (fun filter =>
                   menuTemplate
                     <$> List.filter (accepts filter) [john; joan; bob])
                <$> ["jo"; "b"]).
Proof.
  intros w.
  assert (H : DeferredPromptSource.promptItems (DeferredPromptSource.source w)
              = Some [john; joan; bob]) by reflexivity.
  exact (conj H (cached_source_answers_at_once ["jo"; "b"] w
                   [john; joan; bob] H)).
Defined.

(** Resuming activations with a rejection changes nothing but the list
    of suspended activations. *)
Lemma resume_rejected (continuations : list DeferredPromptSource.Continuation)
    (w : DeferredPromptSource.World) :
  let w' :=
    fold_left (DeferredPromptSource.resume Rejected) continuations w in
  DeferredPromptSource.source w' = DeferredPromptSource.source w
  /\ DeferredPromptSource.network w' = DeferredPromptSource.network w
  /\ DeferredPromptSource.resolved w' = DeferredPromptSource.resolved w
  /\ DeferredPromptSource.fresh w' = DeferredPromptSource.fresh w.
Proof.
  revert w. induction continuations as [|k l IH]; intros w; [done|].
  cbn [fold_left]. destruct (IH (DeferredPromptSource.resume Rejected w k))
    as (-> & -> & -> & ->).
  now destruct k.
Qed.

(** X8. A retrieval that fails is not remembered: a rejection leaves the
    cache empty, resolves no call and sends nothing, and the next call of
    [buildListItems] sends the request again. *)
Theorem rejected_retrieval_is_retried (w : DeferredPromptSource.World)
    (request : nat) (filter : string) :
  DeferredPromptSource.promptItems (DeferredPromptSource.source w) = None ->
  let w' := DeferredPromptSource.respond request Rejected w in
  DeferredPromptSource.source w' = DeferredPromptSource.source w
  /\ DeferredPromptSource.resolved w' = DeferredPromptSource.resolved w
  /\ DeferredPromptSource.network w' = DeferredPromptSource.network w
  /\ DeferredPromptSource.network
       (DeferredPromptSource.buildListItems filter w')
     = DeferredPromptSource.network w
       ++ [{| requestUrl :=
                DeferredPromptSource.url (DeferredPromptSource.source w);
              requestFilter := None |}].
Proof.
  intros Hnone w'. subst w'. unfold DeferredPromptSource.respond.
  match goal with
  | |- context [fold_left _ ?ks ?w0] =>
      destruct (resume_rejected ks w0) as (Hs & Hn & Hr & _);
        set (w' := fold_left _ ks w0) in *
  end.
  cbn in Hs, Hn, Hr. split_and!; try done.
  unfold DeferredPromptSource.buildListItems,
    DeferredPromptSource.fetchPromptItems.
  rewrite Hs, Hnone, Hn. reflexivity.
Qed.

Lemma rejected_retrieval_is_retried_witness :
  let w := DeferredPromptSource.new "/people" in
  DeferredPromptSource.promptItems (DeferredPromptSource.source w) = None
  /\ (let w' := DeferredPromptSource.respond 0 Rejected w in
      DeferredPromptSource.source w' = DeferredPromptSource.source w
      /\ DeferredPromptSource.resolved w' = DeferredPromptSource.resolved w
      /\ DeferredPromptSource.network w' = DeferredPromptSource.network w
      /\ DeferredPromptSource.network
           (DeferredPromptSource.buildListItems "jo" w')
         = DeferredPromptSource.network w
           ++ [{| requestUrl :=
                    DeferredPromptSource.url (DeferredPromptSource.source w);
                  requestFilter := None |}]).
Proof.
  intros w.
  assert (H : DeferredPromptSource.promptItems (DeferredPromptSource.source w)
              = None) by reflexivity.
  exact (conj H (rejected_retrieval_is_retried w 0 "jo" H)).
Defined.

(** An activation resumed with candidates stores them. *)
Lemma resume_items (items : list PromptItem)
    (w : DeferredPromptSource.World) (k : DeferredPromptSource.Continuation) :
  DeferredPromptSource.promptItems
    (DeferredPromptSource.source
       (DeferredPromptSource.resume (Items items) w k))
  = Some items.
Proof.
  destruct k as [|filter]; [reflexivity|].
  unfold DeferredPromptSource.resume, DeferredPromptSource.fetchPromptItems_resume,
    DeferredPromptSource.buildListItems_resume.
  now destruct (LocalFilterSource.buildListItemsFromPromptItems _ _ _)
    as [[listItems weakMap] fresh'].
Qed.

(** X9. The response to a retrieval always lands in the cache: when the
    candidates for a request that an activation waits for arrive, the
    cache holds them afterwards, also when another response had filled
    it in the meantime. *)
Theorem response_overwrites_cache (w : DeferredPromptSource.World)
    (request : nat) (k : DeferredPromptSource.Continuation)
    (items : list PromptItem) :
  (request, k) ∈ DeferredPromptSource.suspended w ->
  DeferredPromptSource.promptItems
    (DeferredPromptSource.source
       (DeferredPromptSource.respond request (Items items) w))
  = Some items.
Proof.
  intros Hin. unfold DeferredPromptSource.respond.
  set (waiting := List.filter _ (DeferredPromptSource.suspended w)).
  assert (Hw : (request, k) ∈ waiting).
  { apply list_elem_of_In, filter_In. split; [now apply list_elem_of_In|].
    apply Nat.eqb_refl. }
  generalize dependent waiting. intros waiting Hw.
  match goal with |- context [fold_left _ _ ?w0] => generalize w0 end.
  destruct waiting as [|a l _] using rev_ind; [now apply elem_of_nil in Hw|].
  intros w0. rewrite map_app, fold_left_app. cbn [List.map fold_left].
  apply resume_items.
Qed.

Lemma response_overwrites_cache_witness :
  let w :=
    DeferredPromptSource.run
      [DeferredPromptSource.BuildListItems "jo";
       DeferredPromptSource.Respond 0 (Items [john])]
      (DeferredPromptSource.new "/people") in
  (1, DeferredPromptSource.FromBuildListItems "jo")
    ∈ DeferredPromptSource.suspended w
  /\ DeferredPromptSource.promptItems (DeferredPromptSource.source w)
     = Some [john]
  /\ DeferredPromptSource.promptItems
       (DeferredPromptSource.source
          (DeferredPromptSource.respond 1 (Items [joan; bob]) w))
     = Some [joan; bob].
Proof.
  intros w.
  assert (H : (1, DeferredPromptSource.FromBuildListItems "jo")
                ∈ DeferredPromptSource.suspended w)
    by (vm_compute; apply list_elem_of_here).
  exact (conj H (conj eq_refl
           (response_overwrites_cache w 1
              (DeferredPromptSource.FromBuildListItems "jo") [joan; bob] H))).
Defined.

(** ** The highlighted entry *)

Lemma findIndex_ge {A : Type} (f : A -> bool) (l : list A) :
  (-1 <= findIndex f l < Z.of_nat (length l))%Z.
Proof.
  induction l as [|a l IH]; simpl; [lia|].
  destruct (f a); [lia|]. destruct (findIndex f l <? 0)%Z eqn:E; lia.
Qed.

Lemma elementAt_is_Some {A : Type} (l : list A) (i : Z) :
  (0 <= i < Z.of_nat (length l))%Z -> is_Some (elementAt l i).
Proof.
  intros Hi. unfold elementAt.
  destruct (i <? 0)%Z eqn:E; [lia|]. apply lookup_lt_is_Some. lia.
Qed.

Lemma elementAt_of_nat {A : Type} (l : list A) (j : nat) :
  elementAt l (Z.of_nat j) = l !! j.
Proof.
  unfold elementAt. destruct (Z.ltb_spec (Z.of_nat j) 0); [exfalso; lia|].
  now rewrite Nat2Z.id.
Qed.

(** Among entries that are distinct elements, highlighting one of them
    makes it the selected one. *)
Lemma findIndex_highlight (listItem : ListItem) (items : list ListItem)
    (j : nat) :
  NoDup (key <$> items) ->
  items !! j = Some listItem ->
  findIndex ariaSelected (highlight listItem <$> items) = Z.of_nat j.
Proof.
  revert j. induction items as [|a l IH]; intros j Hnodup Hj; [done|].
  rewrite fmap_cons in Hnodup. apply NoDup_cons in Hnodup as [Ha Hnodup].
  rewrite fmap_cons. cbn [findIndex highlight set_ariaSelected ariaSelected].
  destruct j as [|j]; simpl in Hj.
  - injection Hj as ->. now rewrite Nat.eqb_refl.
  - destruct (key a =? key listItem) eqn:E.
    + apply Nat.eqb_eq in E. exfalso. apply Ha. rewrite E.
      apply list_elem_of_fmap. exists listItem. split; [reflexivity|].
      now apply list_elem_of_lookup_2 in Hj.
    + rewrite (IH j Hnodup Hj).
      destruct (Z.of_nat j <? 0)%Z eqn:E'; lia.
Qed.

Lemma highlight_selected (listItem : ListItem) (items : list ListItem)
    (j : nat) :
  NoDup (key <$> items) ->
  items !! j = Some listItem ->
  forall i item,
    (highlight listItem <$> items) !! i = Some item ->
    ariaSelected item = true <-> i = j.
Proof.
  intros Hnodup Hj i item Hi. rewrite list_lookup_fmap in Hi.
  destruct (items !! i) as [a|] eqn:Ea; [|discriminate].
  injection Hi as <-. cbn [highlight set_ariaSelected ariaSelected].
  rewrite Nat.eqb_eq. split.
  - intros Hkey. apply (NoDup_lookup _ i j (key a) Hnodup).
    + now rewrite list_lookup_fmap, Ea.
    + now rewrite list_lookup_fmap, Hj, Hkey.
  - intros ->. congruence.
Qed.

Lemma filter_map_menu (h h' : ListItem -> ListItem) (l : list ListItem) :
  (forall a, isMenuItem (h a) = isMenuItem a) ->
  (forall a, isMenuItem a = true -> h a = h' a) ->
  List.filter isMenuItem (List.map h l) = h' <$> List.filter isMenuItem l.
Proof.
  intros Hkeep Hmenu. induction l as [|a l IH]; [reflexivity|].
  cbn [List.map List.filter]. rewrite Hkeep.
  destruct (isMenuItem a) eqn:E; [|exact IH].
  now rewrite fmap_cons, IH, Hmenu.
Qed.

(** [#selectOption(listItem)] on the selectable entries: the one with
    the identity of [listItem] is selected and no other. *)
Lemma selectOption_highlight (listItem : ListItem) (el : LexicalPromptElement)
    (p : Popover) :
  popoverElement el = Some p ->
  exists el' p',
    selectOption listItem el = Some el'
    /\ popoverElement el' = Some p'
    /\ listItemElements p' = highlight listItem <$> listItemElements p
    /\ visible p' = visible p
    /\ source el' = source el
    /\ focused (editor el') = true
    /\ kept el el'.
Proof.
  intros Hp. unfold selectOption, clearSelection. rewrite Hp. setters.
  eexists _, _. split; [reflexivity|]. setters.
  split; [reflexivity|]. unfold listItemElements. setters.
  split; [|now unfold kept, sameDocument].
  rewrite List.map_map. apply filter_map_menu.
  - intros a. now destruct (isMenuItem a) eqn:E, (key _ =? key listItem);
      unfold isMenuItem in *.
  - intros a Ha. rewrite Ha. unfold highlight.
    cbn [set_ariaSelected key]. now destruct (key a =? key listItem).
Qed.

Lemma highlight_sameEntry (listItem : ListItem) (items : list ListItem) :
  Forall2 sameEntry items (highlight listItem <$> items).
Proof. induction items; rewrite ?fmap_cons; constructor; done. Qed.

(** Selecting the entry at position [j]. *)
Lemma selectOption_at (el : LexicalPromptElement) (p : Popover)
    (listItem : ListItem) (j : nat) :
  popoverElement el = Some p ->
  NoDup (key <$> listItemElements p) ->
  listItemElements p !! j = Some listItem ->
  exists el' p',
    selectOption listItem el = Some el'
    /\ popoverElement el' = Some p'
    /\ listItemElements p' = highlight listItem <$> listItemElements p
    /\ selectedIndex p' = Z.of_nat j
    /\ visible p' = visible p
    /\ source el' = source el
    /\ focused (editor el') = true
    /\ kept el el'.
Proof.
  intros Hp Hnodup Hj.
  destruct (selectOption_highlight listItem el p Hp)
    as (el' & p' & E & Hp' & Hitems & ? & ? & ? & ?).
  exists el', p'. unfold selectedIndex. rewrite Hitems.
  split_and!; try done. now apply findIndex_highlight.
Qed.

(** X10. Selecting an entry leaves exactly that entry selected: among
    selectable entries that are distinct elements, after
    [#selectOption(listItem)] the selected index is the position of
    [listItem], [aria-selected] is true on that entry and false on every
    other one, whatever was selected before, and the editor has the
    focus. *)
Theorem selectOption_selects_exactly_one (el : LexicalPromptElement)
    (p : Popover) (listItem : ListItem) (j : nat) :
  popoverElement el = Some p ->
  NoDup (key <$> listItemElements p) ->
  listItemElements p !! j = Some listItem ->
  exists el' p',
    selectOption listItem el = Some el'
    /\ popoverElement el' = Some p'
    /\ selectedIndex p' = Z.of_nat j
    /\ (forall i item,
          listItemElements p' !! i = Some item ->
          ariaSelected item = true <-> i = j)
    /\ Forall2 sameEntry (listItemElements p) (listItemElements p')
    /\ focused (editor el') = true.
Proof.
  intros Hp Hnodup Hj.
  destruct (selectOption_at el p listItem j Hp Hnodup Hj)
    as (el' & p' & E & Hp' & Hitems & Hindex & _ & _ & Hfocus & _).
  exists el', p'. rewrite Hitems. split_and!; try done.
  - now apply highlight_selected.
  - apply highlight_sameEntry.
Qed.

Lemma selectOption_selects_exactly_one_witness :
  let bobEntry := BaseSource.buildListItemElementFor bob 5 in
  popoverElement mentioning = Some mentioningPopover
  /\ NoDup (key <$> listItemElements mentioningPopover)
  /\ listItemElements mentioningPopover !! 2 = Some bobEntry
  /\ exists el' p',
       selectOption bobEntry mentioning = Some el'
       /\ popoverElement el' = Some p'
       /\ selectedIndex p' = Z.of_nat 2
       /\ (forall i item,
             listItemElements p' !! i = Some item ->
             ariaSelected item = true <-> i = 2)
       /\ Forall2 sameEntry (listItemElements mentioningPopover)
                           (listItemElements p')
       /\ focused (editor el') = true.
Proof.
  intros bobEntry.
  assert (Hp : popoverElement mentioning = Some mentioningPopover)
    by reflexivity.
  assert (Hnodup : NoDup (key <$> listItemElements mentioningPopover))
    by (apply (bool_decide_unpack _); vm_compute; exact I).
  assert (Hj : listItemElements mentioningPopover !! 2 = Some bobEntry)
    by reflexivity.
  exact (conj Hp (conj Hnodup (conj Hj
           (selectOption_selects_exactly_one mentioning mentioningPopover
              bobEntry 2 Hp Hnodup Hj)))).
Defined.

Lemma sameEntry_refl (items : list ListItem) : Forall2 sameEntry items items.
Proof. induction items; constructor; done. Qed.

(** X11. The arrow keys move the highlight by one entry and stop at the
    ends: among selectable entries that are distinct elements, arrow down
    selects the entry after the selected one and arrow up the entry
    before it; arrow down on the last entry and arrow up on the first
    one (or with nothing selected) change nothing. There is no
    wrap-around. *)
Theorem arrows_move_by_one_and_stop (el : LexicalPromptElement) (p : Popover) :
  popoverElement el = Some p ->
  NoDup (key <$> listItemElements p) ->
  let i := selectedIndex p in
  let n := Z.of_nat (length (listItemElements p)) in
  (exists el' p',
     moveSelectionDown el = Some el'
     /\ popoverElement el' = Some p'
     /\ selectedIndex p' = (if (i + 1 <? n)%Z then i + 1 else i)%Z
     /\ ((i + 1 <? n)%Z = false -> el' = el)
     /\ Forall2 sameEntry (listItemElements p) (listItemElements p'))
  /\ (exists el' p',
        moveSelectionUp el = Some el'
        /\ popoverElement el' = Some p'
        /\ selectedIndex p' = (if (0 <=? i - 1)%Z then i - 1 else i)%Z
        /\ ((0 <=? i - 1)%Z = false -> el' = el)
        /\ Forall2 sameEntry (listItemElements p) (listItemElements p')).
Proof.
  intros Hp Hnodup i n.
  pose proof (findIndex_ge ariaSelected (listItemElements p)) as Hi.
  fold (selectedIndex p) in Hi. fold i n in Hi. split.
  - unfold moveSelectionDown. rewrite Hp. cbn [mbind option_bind].
    fold i n. destruct (Z.ltb_spec (i + 1) n) as [Hlt|Hge].
    + assert (Hj : (i + 1 = Z.of_nat (Z.to_nat (i + 1)))%Z) by lia.
      rewrite Hj, elementAt_of_nat.
      destruct (lookup_lt_is_Some_2 (listItemElements p) (Z.to_nat (i + 1)))
        as [listItem Hitem]; [lia|].
      rewrite Hitem. cbn [mbind option_bind].
      destruct (selectOption_at el p listItem _ Hp Hnodup Hitem)
        as (el' & p' & E & Hp' & Hitems & Hindex & _).
      exists el', p'. rewrite Hitems. split_and!; try done.
      apply highlight_sameEntry.
    + exists el, p. split_and!; try done. apply sameEntry_refl.
  - unfold moveSelectionUp. rewrite Hp. cbn [mbind option_bind].
    fold i. destruct (Z.leb_spec 0 (i - 1)) as [Hle|Hlt].
    + assert (Hj : (i - 1 = Z.of_nat (Z.to_nat (i - 1)))%Z) by lia.
      rewrite Hj, elementAt_of_nat.
      destruct (lookup_lt_is_Some_2 (listItemElements p) (Z.to_nat (i - 1)))
        as [listItem Hitem]; [lia|].
      rewrite Hitem. cbn [mbind option_bind].
      destruct (selectOption_at el p listItem _ Hp Hnodup Hitem)
        as (el' & p' & E & Hp' & Hitems & Hindex & _).
      exists el', p'. rewrite Hitems. split_and!; try done.
      apply highlight_sameEntry.
    + exists el, p. split_and!; try done. apply sameEntry_refl.
Qed.

Lemma arrows_move_by_one_and_stop_witness :
  popoverElement mentioning = Some mentioningPopover
  /\ NoDup (key <$> listItemElements mentioningPopover)
  /\ (let i := selectedIndex mentioningPopover in
      let n := Z.of_nat (length (listItemElements mentioningPopover)) in
      (exists el' p',
         moveSelectionDown mentioning = Some el'
         /\ popoverElement el' = Some p'
         /\ selectedIndex p' = (if (i + 1 <? n)%Z then i + 1 else i)%Z
         /\ ((i + 1 <? n)%Z = false -> el' = mentioning)
         /\ Forall2 sameEntry (listItemElements mentioningPopover)
                             (listItemElements p'))
      /\ (exists el' p',
            moveSelectionUp mentioning = Some el'
            /\ popoverElement el' = Some p'
            /\ selectedIndex p' = (if (0 <=? i - 1)%Z then i - 1 else i)%Z
            /\ ((0 <=? i - 1)%Z = false -> el' = mentioning)
            /\ Forall2 sameEntry (listItemElements mentioningPopover)
                                (listItemElements p'))).
Proof.
  assert (Hp : popoverElement mentioning = Some mentioningPopover)
    by reflexivity.
  assert (Hnodup : NoDup (key <$> listItemElements mentioningPopover))
    by (apply (bool_decide_unpack _); vm_compute; exact I).
  exact (conj Hp (conj Hnodup
           (arrows_move_by_one_and_stop mentioning mentioningPopover
              Hp Hnodup))).
Defined.

Example arrow_down_ex :
  (p ← moveSelectionDown mentioning ≫= popoverElement; Some (selectedIndex p))
  = Some 1%Z
  /\ (el ← moveSelectionDown mentioning; el ← moveSelectionDown el;
      el ← moveSelectionDown el;
      p ← popoverElement el; Some (selectedIndex p))
     = Some 2%Z
  /\ moveSelectionUp mentioning = Some mentioning.
Proof. split_and!; reflexivity. Qed.

(** ** Rendering, closing, committing *)

Lemma kept_refl (el : LexicalPromptElement) : kept el el.
Proof. now unfold kept, sameDocument. Qed.

Lemma kept_trans (el1 el2 el3 : LexicalPromptElement) :
  kept el1 el2 -> kept el2 el3 -> kept el1 el3.
Proof.
  unfold kept, sameDocument.
  intros (? & ? & ? & ? & ?) (? & ? & ? & ? & ?). split_and!; congruence.
Qed.

Lemma selectFirstOption_kept (el : LexicalPromptElement) (p : Popover) :
  popoverElement el = Some p ->
  exists el' p',
    selectFirstOption el = Some el'
    /\ popoverElement el' = Some p'
    /\ listItemElements p'
       = match listItemElements p !! 0 with
         | Some firstOption => highlight firstOption <$> listItemElements p
         | None => listItemElements p
         end
    /\ visible p' = visible p
    /\ source el' = source el
    /\ kept el el'.
Proof.
  intros Hp. unfold selectFirstOption. rewrite Hp. cbn [mbind option_bind].
  destruct (listItemElements p !! 0) as [firstOption|].
  - destruct (selectOption_highlight firstOption el p Hp)
      as (el' & p' & E & ? & ? & ? & ? & _ & ?).
    now exists el', p'.
  - exists el, p. split_and!; first [done | apply kept_refl].
Qed.

(** [#showFilteredOptions()] from its [await] on: the popover shows the
    list items (or the entry for no results), with the first one
    highlighted. *)
Lemma showFilteredOptions_resume_kept (filteredListItems : list ListItem)
    (el : LexicalPromptElement) (p : Popover) :
  popoverElement el = Some p ->
  Forall (fun li => isMenuItem li = true) filteredListItems ->
  exists el' p',
    showFilteredOptions_resume filteredListItems el = Some el'
    /\ popoverElement el' = Some p'
    /\ listItemElements p'
       = match filteredListItems with
         | firstOption :: _ => highlight firstOption <$> filteredListItems
         | [] => []
         end
    /\ visible p' = visible p
    /\ source el' = source el
    /\ kept el el'.
Proof.
  intros Hp Hmenu.
  unfold showFilteredOptions_resume, showResults, showEmptyResults.
  rewrite Hp. setters. destruct filteredListItems as [|a l].
  - change (0 <? length []) with false. cbv iota. setters.
    match goal with |- context [selectFirstOption ?e] =>
      destruct (selectFirstOption_kept e _ eq_refl)
        as (el' & p' & E & Hp' & Hitems & Hv & Hs & Hkept)
    end.
    assert (Hk : kept el el')
      by (unfold kept, sameDocument, attributes, registrations in *; setters;
          exact Hkept).
    exists el', p'. rewrite E. now split_and!.
  - change (0 <? length (a :: l)) with true. cbv iota. setters.
    match goal with |- context [selectFirstOption ?e] =>
      destruct (selectFirstOption_kept e _ eq_refl)
        as (el' & p' & E & Hp' & Hitems & Hv & Hs & Hkept)
    end.
    assert (Hk : kept el el')
      by (unfold kept, sameDocument, attributes, registrations in *; setters;
          exact Hkept).
    unfold listItemElements in Hitems at 2 3. setters.
    change ([] ++ a :: l) with (a :: l) in Hitems.
    rewrite (filter_all _ _ Hmenu) in Hitems. cbn [lookup list_lookup] in Hitems.
    exists el', p'. rewrite E. now split_and!.
Qed.

(** [#showFilteredOptions()], with what the source lists. *)
Lemma showFilteredOptions_kept (server : Request -> list PromptItem)
    (el : LexicalPromptElement) (p : Popover) (s : Source) :
  popoverElement el = Some p ->
  source el = Some s ->
  exists el' p',
    showFilteredOptions server el = Some el'
    /\ popoverElement el' = Some p'
    /\ (let '(listItems, s', _) :=
          buildListItems server s (currentFilter el) (fresh el) in
        source el' = Some s'
        /\ listItemElements p'
           = match listItems with
             | firstOption :: _ => highlight firstOption <$> listItems
             | [] => []
             end)
    /\ is_Some (source el' ≫= promptItemByListItem)
    /\ visible p' = visible p
    /\ kept el el'.
Proof.
  intros Hp Hs. unfold showFilteredOptions. rewrite Hs.
  cbn [mbind option_bind].
  destruct (buildListItems_closed server s (currentFilter el) (fresh el))
    as (matching & s' & weakMap & -> & Hmap & Hm & _).
  destruct (built_entries matching (fresh el) weakMap Hm)
    as (_ & _ & _ & Hmenu).
  match goal with |- context [showFilteredOptions_resume ?l ?e] =>
    destruct (showFilteredOptions_resume_kept l e p Hp)
      as (el' & p' & E & Hp' & Hitems & Hv & Hs' & Hkept)
  end.
  { eapply Forall_impl; [exact Hmenu|]. now intros li [? _]. }
  assert (Hk : kept el el')
    by (unfold kept, sameDocument, attributes, registrations in *; setters;
        exact Hkept).
  setters. exists el', p'. rewrite E, Hs'. cbn [mbind option_bind].
  rewrite Hmap. split_and!; eauto.
Qed.

(** X12. After every re-filtering that finds something, the highlight
    is on the first entry: the selected index is [0] and the selected
    entry resolves to the candidate of the first list item the source
    gave, whatever was highlighted before. *)
Theorem refiltering_highlights_first_match
    (server : Request -> list PromptItem) (el : LexicalPromptElement)
    (p : Popover) (s s' : Source) (firstOption : ListItem)
    (others : list ListItem) (fresh' : nat) :
  popoverElement el = Some p ->
  source el = Some s ->
  buildListItems server s (currentFilter el) (fresh el)
  = (firstOption :: others, s', fresh') ->
  exists el' p' promptItem,
    showFilteredOptions server el = Some el'
    /\ popoverElement el' = Some p'
    /\ selectedIndex p' = 0%Z
    /\ Forall2 sameEntry (firstOption :: others) (listItemElements p')
    /\ promptItemFor s' (Some firstOption) = Some (Some promptItem)
    /\ selectedPromptItem el' = Some (Some promptItem).
Proof.
  intros Hp Hs Hbuilt.
  destruct (showFilteredOptions_kept server el p s Hp Hs)
    as (el' & p' & E & Hp' & Hlist & _).
  rewrite Hbuilt in Hlist. destruct Hlist as [Hs' Hitems].
  destruct (buildListItems_closed server s (currentFilter el) (fresh el))
    as (matching & s'' & weakMap & Hclosed & Hmap & Hm & _).
  rewrite Hbuilt in Hclosed. injection Hclosed as Hlist <- _.
  destruct matching as [|promptItem matching]; [discriminate|].
  cbn [imap] in Hlist. rewrite Nat.add_0_r in Hlist. injection Hlist as -> _.
  assert (Hfirst : weakMap !! fresh el = Some promptItem)
    by (rewrite <- (Nat.add_0_r (fresh el)) at 1; now rewrite Hm).
  set (firstOption := BaseSource.buildListItemElementFor promptItem (fresh el))
    in *.
  assert (Hindex : selectedIndex p' = 0%Z).
  { unfold selectedIndex. rewrite Hitems, fmap_cons.
    cbn [findIndex highlight set_ariaSelected ariaSelected].
    now rewrite Nat.eqb_refl. }
  assert (Hselected : selectedListItem p'
                      = Some (highlight firstOption firstOption)).
  { unfold selectedListItem. now rewrite Hindex, Hitems. }
  exists el', p', promptItem. unfold selectedPromptItem, promptItemFor.
  rewrite Hp', Hs'. cbn [mbind option_bind].
  rewrite Hselected, Hitems, Hmap. cbn [mbind option_bind].
  change (key (highlight firstOption firstOption)) with (fresh el).
  change (key firstOption) with (fresh el). rewrite Hfirst.
  split_and!; try done. apply highlight_sameEntry.
Qed.

Lemma refiltering_highlights_first_match_witness :
  exists s s' firstOption others fresh',
    popoverElement mentioningJoan = Some
      (default mentioningPopover (popoverElement mentioningJoan))
    /\ source mentioningJoan = Some s
    /\ buildListItems nobody s (currentFilter mentioningJoan)
         (fresh mentioningJoan)
       = (firstOption :: others, s', fresh')
    /\ exists el' p' promptItem,
         showFilteredOptions nobody mentioningJoan = Some el'
         /\ popoverElement el' = Some p'
         /\ selectedIndex p' = 0%Z
         /\ Forall2 sameEntry (firstOption :: others) (listItemElements p')
         /\ promptItemFor s' (Some firstOption) = Some (Some promptItem)
         /\ selectedPromptItem el' = Some (Some promptItem).
Proof.
  eexists (default (Inline (InlinePromptSource.new [])) (source mentioningJoan)),
    _, _, _, _.
  assert (Hp : popoverElement mentioningJoan
               = Some (default mentioningPopover
                         (popoverElement mentioningJoan))) by reflexivity.
  assert (Hs : source mentioningJoan
               = Some (default (Inline (InlinePromptSource.new []))
                         (source mentioningJoan))) by reflexivity.
  refine (conj Hp (conj Hs _)).
  refine ((fun Hbuilt =>
             conj Hbuilt
               (refiltering_highlights_first_match nobody mentioningJoan _ _ _
                  _ _ _ Hp Hs Hbuilt)) _).
  reflexivity.
Defined.

(** [#hidePopover()] up to its [await]: what it unregisters. *)
Lemma hidePopover_registrations (el : LexicalPromptElement) (p : Popover) :
  popoverElement el = Some p ->
  exists el' p',
    hidePopover el = Some el'
    /\ popoverElement el' = Some p'
    /\ visible p' = false
    /\ Forall (fun li => ariaSelected li = false) (listItemElements p')
    /\ source el' = source el
    /\ editor el' = editor el
    /\ attributes el' = attributes el
    /\ initialPrompt el' = initialPrompt el
    /\ registrations el' = hiddenRegistrations el.
Proof.
  intros Hp. unfold hidePopover. rewrite Hp. setters.
  eexists _, _. split; [reflexivity|]. setters. split_and!; try reflexivity.
  unfold listItemElements, clearSelection. setters.
  apply Forall_forall. intros li Hin.
  apply list_elem_of_In, filter_In in Hin as [Hin Hmenu].
  apply in_map_iff in Hin as (a & <- & _).
  destruct (isMenuItem a) eqn:E; [reflexivity|]. congruence.
Qed.

(** X13. Escape cancels the session and nothing else: the popover is
    hidden with no entry selected, every listener of the session is
    unregistered, the editor gets the focus, and the document and the
    selection are untouched; after the next frame one more trigger
    listener is registered. Any other key leaves the element as it
    is. *)
Theorem escape_closes_without_inserting (el : LexicalPromptElement)
    (p : Popover) :
  popoverElement el = Some p ->
  (exists el' p',
     handleKeydownOnPopover "Escape" el = Some el'
     /\ popoverElement el' = Some p'
     /\ visible p' = false
     /\ Forall (fun li => ariaSelected li = false) (listItemElements p')
     /\ sameDocument el el'
     /\ focused (editor el') = true
     /\ registrations el' = hiddenRegistrations el
     /\ (forall command, dispatchCommand command el' = Some el')
     /\ triggerListeners (nextFrame el')
        = triggerListeners el + S (hiding el))
  /\ (forall eventKey,
        eventKey <> "Escape" -> handleKeydownOnPopover eventKey el = Some el).
Proof.
  intros Hp. split.
  - unfold handleKeydownOnPopover. cbn [String.eqb Ascii.eqb Bool.eqb].
    destruct (hidePopover_registrations el p Hp)
      as (el' & p' & -> & Hp' & Hv & Hsel & _ & Hed & _ & _ & Hreg).
    cbn [mbind option_bind]. exists (focus el'), p'.
    unfold sameDocument, registrations, hiddenRegistrations, nextFrame,
      dispatchCommand in *.
    setters. injection Hreg as Hkeys Htl Hc Hk Hch Hh.
    rewrite Hed, Hkeys, Htl, Hc, Hk, Hch, Hh. split_and!; try done.
  - intros eventKey Hkey. unfold handleKeydownOnPopover.
    destruct (String.eqb_spec eventKey "Escape"); [contradiction|reflexivity].
Qed.

Lemma escape_closes_without_inserting_witness :
  popoverElement mentioningJoh
  = Some (default mentioningPopover (popoverElement mentioningJoh))
  /\ (exists el' p',
        handleKeydownOnPopover "Escape" mentioningJoh = Some el'
        /\ popoverElement el' = Some p'
        /\ visible p' = false
        /\ Forall (fun li => ariaSelected li = false) (listItemElements p')
        /\ sameDocument mentioningJoh el'
        /\ focused (editor el') = true
        /\ registrations el' = hiddenRegistrations mentioningJoh
        /\ (forall command, dispatchCommand command el' = Some el')
        /\ triggerListeners (nextFrame el')
           = triggerListeners mentioningJoh + S (hiding mentioningJoh))
  /\ (forall eventKey,
        eventKey <> "Escape" ->
        handleKeydownOnPopover eventKey mentioningJoh = Some mentioningJoh).
Proof.
  assert (Hp : popoverElement mentioningJoh
               = Some (default mentioningPopover
                         (popoverElement mentioningJoh))) by reflexivity.
  exact (conj Hp (escape_closes_without_inserting mentioningJoh _ Hp)).
Defined.

(** Committing a candidate in the editable-text mode. *)
Lemma commit_editable_text (el : LexicalPromptElement) (p : Popover)
    (s : Source) (weakMap : gmap nat PromptItem) (li : ListItem)
    (promptItem : PromptItem) (i offset : nat) (text : string) :
  popoverElement el = Some p ->
  source el = Some s ->
  promptItemByListItem s = Some weakMap ->
  selectedListItem p = Some li ->
  weakMap !! key li = Some promptItem ->
  insertEditableText el = true ->
  selection (editor el) = Some (i, offset) ->
  nodes (editor el) !! i = Some (TextNode text) ->
  JsString.includes (JsString.take offset text) (trigger el) = true ->
  exists el' before,
    optionWasSelected el = Some el'
    /\ JsString.take offset text = before +:+ trigger el +:+ currentFilter el
    /\ nodes (editor el')
       = take i (nodes (editor el))
         ++ [TextNode before;
             GeneratedNodes (editorTemplate promptItem);
             TextNode (JsString.drop offset text)]
         ++ drop (S i) (nodes (editor el))
    /\ open el' = false
    /\ focused (editor el') = true.
Proof.
  intros Hp Hs Hmap Hsel Hli Hmode Hcursor Hnode Hinc.
  destruct (replaceTextBackUntil_trigger (editor el) i offset text (trigger el)
              [GeneratedNodes (editorTemplate promptItem)]
              Hcursor Hnode Hinc) as (before & Hbefore & Hnodes).
  unfold optionWasSelected, replaceTriggerWithSelectedItem, promptItemFor.
  rewrite Hp, Hs. cbn [mbind option_bind]. rewrite Hmap, Hsel.
  cbn [mbind option_bind]. rewrite Hli, Hmode.
  unfold insertTemplateAsEditableText. cbn [mbind option_bind].
  match goal with |- context [hidePopover ?e] =>
    destruct (hidePopover_spec e p Hp)
      as (el' & p' & E & Hp' & Hv & _ & Hed & _)
  end.
  rewrite E. cbn [mbind option_bind]. exists (focus el'), before.
  split; [reflexivity|]. split; [exact Hbefore|].
  unfold open, focus. setters. rewrite Hp', Hed. setters.
  split; [|now split]. unfold currentFilter. rewrite Hnodes. reflexivity.
Qed.

(** X15. In the editable-text mode a commit inserts the nodes generated
    from the candidate's editor template, in place of the trigger and the
    filter, and no attachment node: whether or not the candidate has an
    [sgid], nothing that carries it enters the document. The text before
    the trigger and behind the cursor is kept, and the session is
    closed. *)
Theorem commit_inserts_editable_text (el : LexicalPromptElement)
    (promptItem : PromptItem) (i offset : nat) (text : string) :
  selectedPromptItem el = Some (Some promptItem) ->
  insertEditableText el = true ->
  selection (editor el) = Some (i, offset) ->
  nodes (editor el) !! i = Some (TextNode text) ->
  JsString.includes (JsString.take offset text) (trigger el) = true ->
  exists el' before,
    optionWasSelected el = Some el'
    /\ (KEY_ENTER_COMMAND ∈ keyListeners el ->
        dispatchCommand KEY_ENTER_COMMAND el = Some el')
    /\ JsString.take offset text = before +:+ trigger el +:+ currentFilter el
    /\ nodes (editor el')
       = take i (nodes (editor el))
         ++ [TextNode before;
             GeneratedNodes (editorTemplate promptItem);
             TextNode (JsString.drop offset text)]
         ++ drop (S i) (nodes (editor el))
    /\ open el' = false.
Proof.
  intros Hselected Hmode Hcursor Hnode Hinc.
  destruct (selectedPromptItem_Some el promptItem Hselected)
    as (p & s & weakMap & li & Hp & Hs & Hmap & Hli & Hitem).
  destruct (commit_editable_text el p s weakMap li promptItem i offset text
              Hp Hs Hmap Hli Hitem Hmode Hcursor Hnode Hinc)
    as (el' & before & E & Hbefore & Hnodes & Hclosed & _).
  exists el', before. split_and!; try done.
  intros Hregistered.
  rewrite dispatchCommand_commit; [exact E| |exact Hregistered].
  apply elem_of_cons. now left.
Qed.

Lemma commit_inserts_editable_text_witness :
  selectedPromptItem tagging = Some (Some john)
  /\ insertEditableText tagging = true
  /\ selection (editor tagging) = Some (0, 5)
  /\ nodes (editor tagging) !! 0 = Some (TextNode "see #")
  /\ JsString.includes (JsString.take 5 "see #") (trigger tagging) = true
  /\ exists el' before,
       optionWasSelected tagging = Some el'
       /\ (KEY_ENTER_COMMAND ∈ keyListeners tagging ->
           dispatchCommand KEY_ENTER_COMMAND tagging = Some el')
       /\ JsString.take 5 "see #"
          = before +:+ trigger tagging +:+ currentFilter tagging
       /\ nodes (editor el')
          = take 0 (nodes (editor tagging))
            ++ [TextNode before;
                GeneratedNodes (editorTemplate john);
                TextNode (JsString.drop 5 "see #")]
            ++ drop 1 (nodes (editor tagging))
       /\ open el' = false.
Proof.
  split_and!; try reflexivity.
  exact (commit_inserts_editable_text tagging john 0 5 "see #"
           eq_refl eq_refl eq_refl eq_refl eq_refl).
Defined.

Example commit_editable_text_ex :
  (el ← dispatchCommand KEY_ENTER_COMMAND tagging; Some (nodes (editor el)))
  = Some [TextNode "see "; GeneratedNodes "<em>John Doe</em>"; TextNode ""].
Proof. reflexivity. Qed.

(** ** Opening a session *)

Lemma registrations_inv (el el' : LexicalPromptElement) :
  registrations el' = registrations el ->
  keyListeners el' = keyListeners el
  /\ triggerListeners el' = triggerListeners el
  /\ cursorPositionListener el' = cursorPositionListener el
  /\ keydownListener el' = keydownListener el
  /\ changeListener el' = changeListener el
  /\ hiding el' = hiding el.
Proof. unfold registrations. intros [= -> -> -> -> -> ->]. done. Qed.

Lemma sessionKeys_attributes (el el' : LexicalPromptElement) :
  attributes el' = attributes el -> sessionKeys el' = sessionKeys el.
Proof.
  unfold attributes, sessionKeys, doesSpaceSelect. now intros [= _ _ _ _ _ -> _ _].
Qed.

Lemma attributes_trigger (el el' : LexicalPromptElement) :
  attributes el' = attributes el -> trigger el' = trigger el.
Proof. unfold attributes. now intros [= -> _ _ _ _ _ _ _]. Qed.

Lemma containsTextBackUntil_sameDocument (ed ed' : Editor) (str : string) :
  nodes ed' = nodes ed ->
  selection ed' = selection ed ->
  Contents.containsTextBackUntil ed' str = Contents.containsTextBackUntil ed str.
Proof.
  intros Hn Hs.
  unfold Contents.containsTextBackUntil, Contents.textBeforeCursor,
    Contents.selectedNodeWithOffset.
  now rewrite Hn, Hs.
Qed.

Lemma buildPopover_kept (server : Request -> list PromptItem)
    (el : LexicalPromptElement) :
  is_Some (source el) ->
  exists el' p',
    buildPopover server el = Some el'
    /\ popoverElement el' = Some p'
    /\ visible p' = false
    /\ is_Some (source el' ≫= promptItemByListItem)
    /\ kept el el'.
Proof.
  intros [s Hs]. unfold buildPopover. rewrite Hs. cbn [mbind option_bind].
  destruct (buildListItems_closed server s "" (fresh el))
    as (matching & s' & weakMap & -> & Hmap & _).
  eexists _, _. split; [reflexivity|].
  unfold kept, sameDocument, attributes, registrations. setters.
  rewrite Hmap. split_and!; eauto.
Qed.

(** What [#filterOptions] comes to: the flag [initialPrompt] is
    cleared, or the list is rendered anew, or the popover is hidden. *)
Lemma filterOptions_cases (server : Request -> list PromptItem)
    (el : LexicalPromptElement) (p : Popover) :
  popoverElement el = Some p ->
  is_Some (source el) ->
  exists el' p',
    filterOptions server el = Some el'
    /\ popoverElement el' = Some p'
    /\ attributes el' = attributes el
    /\ sameDocument el el'
    /\ is_Some (source el')
    /\ initialPrompt el' = false
    /\ (registrations el' = registrations el
        /\ visible p' = visible p
        /\ (initialPrompt el = false ->
            Contents.containsTextBackUntil (editor el) (trigger el) = true
            /\ is_Some (source el' ≫= promptItemByListItem))
        \/ initialPrompt el = false
           /\ Contents.containsTextBackUntil (editor el) (trigger el) = false
           /\ registrations el' = hiddenRegistrations el
           /\ visible p' = false
           /\ source el' = source el).
Proof.
  intros Hp [s Hs]. unfold filterOptions. destruct (initialPrompt el) eqn:Hi.
  - exists (set_initialPrompt el false), p.
    unfold sameDocument, attributes, registrations. setters.
    split_and!; try done. left. now split_and!.
  - destruct (Contents.containsTextBackUntil (editor el) (trigger el)) eqn:Hc.
    + destruct (showFilteredOptions_kept server el p s Hp Hs)
        as (el' & p' & E & Hp' & _ & Hmap & Hv & Ha & Hr & Hi' & Hd).
      exists el', p'. split_and!; try done.
      * destruct (source el'); [eauto | now destruct Hmap].
      * congruence.
      * left. now split_and!.
    + destruct (hidePopover_registrations el p Hp)
        as (el' & p' & E & Hp' & Hv & _ & Hs' & Hed & Ha & Hi' & Hr).
      exists el', p'. unfold sameDocument. rewrite Hed, Hs', Hs.
      split_and!; try done; [congruence|]. right. now split_and!.
Qed.

(** [#showPopover()]: the popover is visible and the listeners of the
    session are registered. *)
Lemma showPopover_registrations (server : Request -> list PromptItem)
    (el : LexicalPromptElement) :
  is_Some (source el) ->
  exists el' p',
    showPopover server el = Some el'
    /\ popoverElement el' = Some p'
    /\ visible p' = true
    /\ attributes el' = attributes el
    /\ sameDocument el el'
    /\ is_Some (source el')
    /\ initialPrompt el' = false
    /\ cursorPositionListener el' = true
    /\ keydownListener el' = true
    /\ changeListener el' = true
    /\ triggerListeners el' = triggerListeners el
    /\ (keyListeners el = [] -> keyListeners el' = sessionKeys el)
    /\ (initialPrompt el = false ->
        Contents.containsTextBackUntil (editor el) (trigger el) = true ->
        keyListeners el' = keyListeners el ++ sessionKeys el
        /\ hiding el' = hiding el
        /\ is_Some (source el' ≫= promptItemByListItem)).
Proof.
  intros Hs. rewrite showPopover_atomic.
  assert (H1 : exists el1 p1,
             match popoverElement el with
             | Some _ => Some el
             | None => buildPopover server el
             end = Some el1
             /\ popoverElement el1 = Some p1 /\ is_Some (source el1)
             /\ kept el el1).
  { destruct (popoverElement el) as [p|] eqn:Hp.
    - exists el, p. split_and!; first [done | apply kept_refl].
    - destruct (buildPopover_kept server el Hs)
        as (el1 & p1 & E & Hp1 & _ & Hmap & Hk).
      exists el1, p1. split_and!; try done.
      destruct (source el1); [eauto | now destruct Hmap]. }
  destruct H1 as (el1 & p1 & -> & Hp1 & Hs1 & Ha1 & Hr1 & Hi1 & Hn1 & Hsel1).
  apply registrations_inv in Hr1 as (Hk1 & Htl1 & _ & _ & _ & Hh1).
  cbn [mbind option_bind]. unfold resetPopoverPosition. rewrite Hp1.
  cbn [mbind option_bind].
  match goal with |- context [filterOptions server ?e] =>
    destruct (filterOptions_cases server e _ eq_refl Hs1)
      as (el2 & p2 & -> & Hp2 & Ha2 & [Hn2 Hsel2] & Hs2 & Hi2 & Hcases)
  end.
  cbn [mbind option_bind]. rewrite Hp2. cbn [mbind option_bind].
  match goal with |- context [selectFirstOption ?e] =>
    destruct (selectFirstOption_kept e _ eq_refl)
      as (el3 & p3 & -> & Hp3 & _ & Hv3 & Hs3 & Ha3 & Hr3 & Hi3 & Hn3 & Hsel3)
  end.
  apply registrations_inv in Hr3 as (Hk3 & Htl3 & _ & _ & _ & Hh3).
  cbn [mbind option_bind]. eexists _, p3. split; [reflexivity|].
  unfold sameDocument, attributes, registrations, hiddenRegistrations in *.
  setters.
  assert (Hkeys : sessionKeys el3 = sessionKeys el).
  { unfold sessionKeys, doesSpaceSelect.
    injection Ha3 as _ _ _ _ _ H3 _ _. injection Ha2 as _ _ _ _ _ H2 _ _.
    injection Ha1 as _ _ _ _ _ H1 _ _. now rewrite H3, H2, H1. }
  change (doesSpaceSelect (set_changeListener (set_keydownListener el3 true)
                             true))
    with (doesSpaceSelect el3).
  change ([KEY_ENTER_COMMAND; KEY_TAB_COMMAND]
          ++ (if doesSpaceSelect el3 then [KEY_SPACE_COMMAND] else [])
          ++ [KEY_ARROW_UP_COMMAND; KEY_ARROW_DOWN_COMMAND])
    with (sessionKeys el3).
  rewrite Hkeys.
  assert (Htrigger : trigger el1 = trigger el)
    by (now injection Ha1 as -> _ _ _ _ _ _ _).
  split_and!; try congruence.
  - destruct Hcases as [(Hr & _)|(_ & _ & Hr & _)];
      injection Hr as Hk Htl Hc Hkd Hch Hh; congruence.
  - intros Hnil.
    destruct Hcases as [(Hr & _)|(_ & _ & Hr & _)];
      injection Hr as Hk Htl Hc Hkd Hch Hh; rewrite Hk3, Hk; [|reflexivity].
    now rewrite Hk1, Hnil.
  - intros Hi Hc.
    assert (He1 : Contents.containsTextBackUntil (editor el1) (trigger el1)
                  = Contents.containsTextBackUntil (editor el) (trigger el))
      by (rewrite Htrigger; now apply containsTextBackUntil_sameDocument).
    destruct Hcases as [(Hr & _ & Hmap)|(_ & Hc' & _)].
    + injection Hr as Hk Htl Hcl Hkd Hch Hh.
      destruct Hmap as [_ Hmap]; [congruence|].
      rewrite Hk3, Hk, Hk1, Hh3, Hh, Hh1, Hs3. now split_and!.
    + congruence.
Qed.

(** X14. Whether Space commits is fixed when the session opens: on an
    element with no key command registered, [#showPopover()] registers
    Enter, Tab and the two arrows, and Space exactly when the attribute
    [supports-space-in-searches] is absent. With the attribute, Space is
    not intercepted: dispatching it leaves the element as it is. *)
Theorem space_commits_unless_supported (server : Request -> list PromptItem)
    (el : LexicalPromptElement) :
  is_Some (source el) ->
  keyListeners el = [] ->
  exists el',
    showPopover server el = Some el'
    /\ open el' = true
    /\ keyListeners el'
       = [KEY_ENTER_COMMAND; KEY_TAB_COMMAND]
         ++ (if supportsSpaceInSearches el then [] else [KEY_SPACE_COMMAND])
         ++ [KEY_ARROW_UP_COMMAND; KEY_ARROW_DOWN_COMMAND]
    /\ (KEY_SPACE_COMMAND ∈ keyListeners el'
        <-> supportsSpaceInSearches el = false)
    /\ (supportsSpaceInSearches el = true ->
        dispatchCommand KEY_SPACE_COMMAND el' = Some el').
Proof.
  intros Hs Hnil.
  destruct (showPopover_registrations server el Hs)
    as (el' & p' & E & Hp' & Hv & _ & _ & _ & _ & _ & _ & _ & _ & Hkeys & _).
  specialize (Hkeys Hnil). exists el'. unfold open, dispatchCommand.
  rewrite Hp', Hkeys. unfold sessionKeys, doesSpaceSelect.
  destruct (supportsSpaceInSearches el); cbn [negb]; split_and!; try done.
  - split; [|done]. intros Hin.
    repeat (apply elem_of_cons in Hin as [Hin|Hin]; [discriminate|]).
    now apply elem_of_nil in Hin.
  - split; [done|]. intros _. apply elem_of_cons. right.
    apply elem_of_cons. right. apply elem_of_cons. now left.
Qed.

Lemma space_commits_unless_supported_witness :
  let el := mentions [TextNode "hello @"] (Some (0, 7)) in
  is_Some (source el)
  /\ keyListeners el = []
  /\ exists el',
       showPopover nobody el = Some el'
       /\ open el' = true
       /\ keyListeners el'
          = [KEY_ENTER_COMMAND; KEY_TAB_COMMAND]
            ++ (if supportsSpaceInSearches el then [] else [KEY_SPACE_COMMAND])
            ++ [KEY_ARROW_UP_COMMAND; KEY_ARROW_DOWN_COMMAND]
       /\ (KEY_SPACE_COMMAND ∈ keyListeners el'
           <-> supportsSpaceInSearches el = false)
       /\ (supportsSpaceInSearches el = true ->
           dispatchCommand KEY_SPACE_COMMAND el' = Some el').
Proof.
  intros el.
  assert (Hs : is_Some (source el)) by (eexists; reflexivity).
  assert (Hnil : keyListeners el = []) by reflexivity.
  exact (conj Hs (conj Hnil
           (space_commits_unless_supported nobody el Hs Hnil))).
Defined.

Example space_is_typed_ex :
  (KEY_SPACE_COMMAND ∉ keyListeners tagging)
  /\ dispatchCommand KEY_SPACE_COMMAND tagging = Some tagging
  /\ KEY_SPACE_COMMAND ∈ keyListeners mentioning.
Proof.
  split_and!; [|reflexivity|].
  - intros Hin.
    repeat (apply elem_of_cons in Hin as [Hin|Hin]; [discriminate|]).
    now apply elem_of_nil in Hin.
  - apply elem_of_cons. right. apply elem_of_cons. right.
    apply elem_of_cons. now left.
Qed.

(** ** The position of the popover during a session *)

Lemma last_cons_default {A : Type} (a d : A) (l : list A) :
  List.last (a :: l) d = List.last l a.
Proof.
  revert a d. induction l as [|b l IH]; intros a d; [reflexivity|].
  change (List.last (a :: b :: l) d) with (List.last (b :: l) d).
  now rewrite !IH.
Qed.

Section PositioningFacts.

Variable number : Type.
Variables (plus minus : number -> number -> number).
Variable greater : number -> number -> bool.

(** A popover that is anchored stays where it is, horizontally. *)
Lemma positionedThrough_anchored (layouts : list (Layout number))
    (p : Popover) (style : Style number) :
  anchored p = true ->
  anchored (positionedThrough number plus minus greater layouts (p, style)).1
  = true
  /\ style_left number
       (positionedThrough number plus minus greater layouts (p, style)).2
     = style_left number style.
Proof.
  revert p style. induction layouts as [|layout layouts IH];
    intros p style Ha; [done|].
  unfold positionedThrough in *. cbn [fold_left].
  assert (H1 : anchored (positionPopover number plus minus greater layout
                           (p, style)).1 = true
               /\ style_left number
                    (positionPopover number plus minus greater layout
                       (p, style)).2
                  = style_left number style).
  { unfold positionPopover. rewrite Ha. cbn [negb].
    now destruct (greater _ _ || clippedAtBottom p). }
  destruct (positionPopover number plus minus greater layout (p, style))
    as [p' style'].
  destruct H1 as [Ha' Hl']. destruct (IH p' style' Ha') as [Ha'' Hl''].
  split; [exact Ha''|]. rewrite Hl''. exact Hl'.
Qed.

(** The vertical position after a series of calls. *)
Lemma positionedThrough_top (layouts : list (Layout number))
    (layout : Layout number) (p : Popover) (style : Style number) :
  let positioned :=
    positionedThrough number plus minus greater (layout :: layouts)
      (p, style) in
  clippedAtBottom positioned.1
  = clippedAtBottom p || existsb (isClippedAtBottom greater) (layout :: layouts)
  /\ style_top number positioned.2
     = Some (if clippedAtBottom positioned.1
             then above number plus minus (List.last layouts layout)
             else below number plus minus (List.last layouts layout)).
Proof.
  revert layout p style. induction layouts as [|a l IH]; intros layout p style.
  - unfold positionedThrough, positionPopover, isClippedAtBottom, above, below.
    cbn [fold_left existsb List.last]. destruct p as [items v e anchor clip].
    destruct anchor, clip, (greater _ _); cbv; now split.
  - cbv zeta. rewrite last_cons_default.
    change (positionedThrough number plus minus greater (layout :: a :: l)
              (p, style))
      with (positionedThrough number plus minus greater (a :: l)
              (positionPopover number plus minus greater layout (p, style))).
    assert (H1 : clippedAtBottom
                   (positionPopover number plus minus greater layout
                      (p, style)).1
                 = clippedAtBottom p || isClippedAtBottom greater layout).
    { unfold positionPopover, isClippedAtBottom.
      destruct p as [items v e anchor clip].
      now destruct anchor, clip, (greater _ _). }
    destruct (positionPopover number plus minus greater layout (p, style))
      as [p1 style1].
    destruct (IH a p1 style1) as [Hflag Htop]. cbn [fst] in H1.
    split; [|exact Htop]. rewrite Hflag, H1.
    cbn [existsb]. now rewrite <- orb_assoc.
Qed.

(** X17. The popover is anchored once per session: on a popover that
    is not anchored, as [#resetPopoverPosition()] leaves it, the first
    call of [#positionPopover()] puts the left edge at the cursor, and
    every later call leaves it there, wherever the cursor has moved. *)
Theorem popover_is_anchored_once (p : Popover) (style : Style number)
    (layout : Layout number) (layouts : list (Layout number)) :
  anchored p = false ->
  let positioned :=
    positionedThrough number plus minus greater (layout :: layouts)
      (p, style) in
  style_left number positioned.2 = Some (cursor_x number layout)
  /\ anchored positioned.1 = true.
Proof.
  intros Hp. unfold positionedThrough. cbn [fold_left].
  assert (H1 : anchored (positionPopover number plus minus greater layout
                           (p, style)).1 = true
               /\ style_left number
                    (positionPopover number plus minus greater layout
                       (p, style)).2
                  = Some (cursor_x number layout)).
  { unfold positionPopover. rewrite Hp. cbn [negb].
    now destruct (greater _ _ || clippedAtBottom _). }
  destruct (positionPopover number plus minus greater layout _)
    as [p1 style1].
  destruct H1 as [Ha1 Hl1].
  destruct (positionedThrough_anchored layouts p1 style1 Ha1) as [Ha Hl].
  unfold positionedThrough in *. split; [|exact Ha]. now rewrite Hl.
Qed.

(** X18. The flip above the line is sticky: on a popover that is not
    marked as clipped, as [#resetPopoverPosition()] leaves it, the calls
    of [#positionPopover()] put the popover below the line of the cursor
    as long as none of them has found it clipped at the bottom of the
    window, and from the first call that does, every call puts it above
    the line, also when it would fit below again. *)
Theorem popover_flip_is_sticky (p : Popover) (style : Style number)
    (layout : Layout number) (layouts : list (Layout number)) :
  clippedAtBottom p = false ->
  let positioned :=
    positionedThrough number plus minus greater (layout :: layouts)
      (p, style) in
  let flipped := existsb (isClippedAtBottom greater) (layout :: layouts) in
  clippedAtBottom positioned.1 = flipped
  /\ style_top number positioned.2
     = Some (if flipped
             then above number plus minus (List.last layouts layout)
             else below number plus minus (List.last layouts layout)).
Proof.
  intros Hp.
  destruct (positionedThrough_top layouts layout p style) as [Hflag Htop].
  cbv zeta. rewrite Htop, Hflag, Hp. now split.
Qed.

End PositioningFacts.

(** After [#resetPopoverPosition()] the popover is neither anchored nor
    marked as clipped. *)
Lemma resetPopoverPosition_spec (el el' : LexicalPromptElement) (p : Popover) :
  resetPopoverPosition el = Some el' ->
  popoverElement el' = Some p ->
  anchored p = false /\ clippedAtBottom p = false.
Proof.
  unfold resetPopoverPosition.
  destruct (popoverElement el) as [p0|]; [|discriminate].
  cbn [mbind option_bind]. intros [= <-]. setters. now intros [= <-].
Qed.

Lemma popover_is_anchored_once_witness :
  let first :=
    {| cursor_x := 120; cursor_y := 40; cursor_fontSize := 16;
       editorRect_top := 10; contentRect_top := 30;
       popoverRect_bottom := 900; popoverRect_height := 200;
       innerHeight := 800 |}%Z in
  let second :=
    {| cursor_x := 136; cursor_y := 40; cursor_fontSize := 16;
       editorRect_top := 10; contentRect_top := 30;
       popoverRect_bottom := 500; popoverRect_height := 100;
       innerHeight := 800 |}%Z in
  let style := {| style_left := Some 7%Z; style_top := None |} in
  anchored mentioningPopover = false
  /\ (let positioned :=
        positionedThrough Z Z.add Z.sub Z.gtb [first; second]
          (mentioningPopover, style) in
      style_left Z positioned.2 = Some (cursor_x Z first)
      /\ anchored positioned.1 = true).
Proof.
  intros first second style.
  assert (Hp : anchored mentioningPopover = false) by reflexivity.
  exact (conj Hp (popover_is_anchored_once Z Z.add Z.sub Z.gtb
                    mentioningPopover style first [second] Hp)).
Defined.

Lemma popover_flip_is_sticky_witness :
  let first :=
    {| cursor_x := 120; cursor_y := 40; cursor_fontSize := 16;
       editorRect_top := 10; contentRect_top := 30;
       popoverRect_bottom := 900; popoverRect_height := 200;
       innerHeight := 800 |}%Z in
  let second :=
    {| cursor_x := 136; cursor_y := 40; cursor_fontSize := 16;
       editorRect_top := 10; contentRect_top := 30;
       popoverRect_bottom := 500; popoverRect_height := 100;
       innerHeight := 800 |}%Z in
  let style := {| style_left := None; style_top := None |} in
  clippedAtBottom mentioningPopover = false
  /\ (let positioned :=
        positionedThrough Z Z.add Z.sub Z.gtb [first; second]
          (mentioningPopover, style) in
      let flipped := existsb (isClippedAtBottom Z.gtb) [first; second] in
      clippedAtBottom positioned.1 = flipped
      /\ style_top Z positioned.2
         = Some (if flipped
                 then above Z Z.add Z.sub (List.last [second] first)
                 else below Z Z.add Z.sub (List.last [second] first))).
Proof.
  intros first second style.
  assert (Hp : clippedAtBottom mentioningPopover = false) by reflexivity.
  exact (conj Hp (popover_flip_is_sticky Z Z.add Z.sub Z.gtb
                    mentioningPopover style first [second] Hp)).
Defined.

Example sticky_flip_ex :
  let first :=
    {| cursor_x := 120; cursor_y := 40; cursor_fontSize := 16;
       editorRect_top := 10; contentRect_top := 30;
       popoverRect_bottom := 900; popoverRect_height := 200;
       innerHeight := 800 |}%Z in
  let second :=
    {| cursor_x := 136; cursor_y := 40; cursor_fontSize := 16;
       editorRect_top := 10; contentRect_top := 30;
       popoverRect_bottom := 500; popoverRect_height := 100;
       innerHeight := 800 |}%Z in
  (positionedThrough Z Z.add Z.sub Z.gtb [first; second]
     ({| children := []; visible := true; emptyClass := false;
         anchored := false; clippedAtBottom := false |},
      {| style_left := None; style_top := None |})).2
  = {| style_left := Some 120%Z; style_top := Some (-56)%Z |}.
Proof. reflexivity. Qed.

(** ** A click on an entry *)

Lemma textBackUntil_sameDocument (ed ed' : Editor) (str : string) :
  nodes ed' = nodes ed ->
  selection ed' = selection ed ->
  Contents.textBackUntil ed' str = Contents.textBackUntil ed str.
Proof.
  intros Hn Hs.
  unfold Contents.textBackUntil, Contents.textBeforeCursor,
    Contents.selectedNodeWithOffset.
  now rewrite Hn, Hs.
Qed.

(** X19. A click commits the entry that was clicked, not the one that
    was highlighted: for a click on a selectable entry of the popover,
    among entries that are distinct elements, the trigger and the filter
    are replaced by an attachment node for the candidate of the clicked
    entry, with one space between the node and the text behind the
    cursor, and the session is closed. *)
Theorem click_commits_the_clicked_entry (el : LexicalPromptElement)
    (p : Popover) (s : Source) (weakMap : gmap nat PromptItem)
    (target : ListItem) (j : nat) (promptItem : PromptItem)
    (i offset : nat) (text : string) :
  popoverElement el = Some p ->
  source el = Some s ->
  promptItemByListItem s = Some weakMap ->
  NoDup (key <$> listItemElements p) ->
  listItemElements p !! j = Some target ->
  weakMap !! key target = Some promptItem ->
  insertEditableText el = false ->
  selection (editor el) = Some (i, offset) ->
  nodes (editor el) !! i = Some (TextNode text) ->
  JsString.includes (JsString.take offset text) (trigger el) = true ->
  exists el' before node,
    handlePopoverClick target el = Some el'
    /\ JsString.take offset text = before +:+ trigger el +:+ currentFilter el
    /\ nodes (editor el')
       = take i (nodes (editor el))
         ++ [TextNode before; AttachmentNode node;
             TextNode (Contents.separated (JsString.drop offset text))]
         ++ drop (S i) (nodes (editor el))
    /\ CustomActionTextAttachmentNode.sgid node = sgid promptItem
    /\ CustomActionTextAttachmentNode.innerHtml node = editorTemplate promptItem
    /\ open el' = false.
Proof.
  intros Hp Hs Hmap Hnodup Hj Hitem Hmode Hcursor Hnode Hinc.
  assert (Hmenu : isMenuItem target = true).
  { apply list_elem_of_lookup_2, list_elem_of_In, filter_In in Hj.
    apply Hj. }
  destruct (selectOption_at el p target j Hp Hnodup Hj)
    as (el1 & p1 & E & Hp1 & Hitems & Hindex & _ & Hs1 & _
        & Ha & _ & _ & Hn & Hsel).
  assert (Hselected : selectedListItem p1 = Some (highlight target target)).
  { unfold selectedListItem.
    now rewrite Hindex, elementAt_of_nat, Hitems, list_lookup_fmap, Hj. }
  assert (Htrigger : trigger el1 = trigger el)
    by now apply attributes_trigger.
  assert (Hname : nameString el1 = nameString el)
    by (unfold attributes in Ha; unfold nameString;
        now injection Ha as _ -> _ _ _ _ _ _).
  assert (Hmode1 : insertEditableText el1 = false)
    by (unfold attributes in Ha; now injection Ha as _ _ _ _ -> _ _ _).
  assert (Hfilter : currentFilter el1 = currentFilter el)
    by (unfold currentFilter; rewrite Htrigger;
        now apply textBackUntil_sameDocument).
  assert (Hs1' : source el1 = Some s) by congruence.
  assert (Hcursor1 : selection (editor el1) = Some (i, offset)) by congruence.
  assert (Hnode1 : nodes (editor el1) !! i = Some (TextNode text))
    by congruence.
  assert (Hinc1 : JsString.includes (JsString.take offset text) (trigger el1)
                  = true) by congruence.
  destruct (commit_attachment el1 p1 s weakMap (highlight target target)
              promptItem i offset text Hp1 Hs1' Hmap Hselected Hitem Hmode1
              Hcursor1 Hnode1 Hinc1)
    as (el' & before & E' & Hbefore & Hnodes & Hclosed & _).
  exists el', before. eexists.
  unfold handlePopoverClick. rewrite Hmenu, E. cbn [mbind option_bind].
  rewrite E', Hnodes, Hn. rewrite Hbefore, Htrigger, Hfilter.
  split_and!; try done.
Qed.

Lemma click_commits_the_clicked_entry_witness :
  let target := BaseSource.buildListItemElementFor bob 5 in
  exists s weakMap,
    popoverElement mentioning = Some mentioningPopover
    /\ source mentioning = Some s
    /\ promptItemByListItem s = Some weakMap
    /\ NoDup (key <$> listItemElements mentioningPopover)
    /\ listItemElements mentioningPopover !! 2 = Some target
    /\ weakMap !! key target = Some bob
    /\ insertEditableText mentioning = false
    /\ selection (editor mentioning) = Some (0, 7)
    /\ nodes (editor mentioning) !! 0 = Some (TextNode "hello @")
    /\ JsString.includes (JsString.take 7 "hello @") (trigger mentioning)
       = true
    /\ exists el' before node,
         handlePopoverClick target mentioning = Some el'
         /\ JsString.take 7 "hello @"
            = before +:+ trigger mentioning +:+ currentFilter mentioning
         /\ nodes (editor el')
            = take 0 (nodes (editor mentioning))
              ++ [TextNode before; AttachmentNode node;
                  TextNode
                    (Contents.separated (JsString.drop 7 "hello @"))]
              ++ drop 1 (nodes (editor mentioning))
         /\ CustomActionTextAttachmentNode.sgid node = sgid bob
         /\ CustomActionTextAttachmentNode.innerHtml node = editorTemplate bob
         /\ open el' = false.
Proof.
  intros target.
  exists (default (Inline (InlinePromptSource.new [])) (source mentioning)),
    (default ∅ (source mentioning ≫= promptItemByListItem)).
  assert (Hnodup : NoDup (key <$> listItemElements mentioningPopover))
    by (apply (bool_decide_unpack _); vm_compute; exact I).
  split_and!; try reflexivity; try exact Hnodup.
  exact (click_commits_the_clicked_entry mentioning mentioningPopover _ _
           target 2 bob 0 7 "hello @"
           eq_refl eq_refl eq_refl Hnodup eq_refl eq_refl eq_refl eq_refl
           eq_refl eq_refl).
Defined.
